(** * text-type-detection: a shallow embedding of [src/index.js]

    The module classifies a text as plain, markdown, ascii, code, html,
    json or xml.  JavaScript strings are sequences of UTF-16 code units,
    JavaScript numbers are IEEE 754 binary64 values, and regular expressions
    are backtracking matchers written in continuation-passing style, as in
    the ECMAScript specification.  All three are modelled as such. *)

From Stdlib Require Import Strings.String Strings.Ascii.
From Stdlib Require Import Floats ZArith NArith List Bool Arith Lia.
Import ListNotations.

Set Warnings "-inexact-float,-comment-terminator-in-string".

Open Scope string_scope.
Open Scope nat_scope.
Open Scope list_scope.

(* ================================================================== *)
(** ** Strings as lists of UTF-16 code units *)

Module Str.

Definition char := N.
Definition str := list char.

(** An ASCII literal of the source, as code units. *)
Fixpoint lit (s : string) : str :=
  match s with
  | EmptyString => []
  | String a r => N_of_ascii a :: lit r
  end.

Definition inRange (lo hi c : N) : bool := (lo <=? c)%N && (c <=? hi)%N.

(** [Array.from(s)] followed by [new Set(...)]: membership only. *)
Definition has (set : str) (c : char) : bool := existsb (N.eqb c) set.

Fixpoint eqb (a b : str) : bool :=
  match a, b with
  | [], [] => true
  | x :: a', y :: b' => N.eqb x y && eqb a' b'
  | _, _ => false
  end.

(** ECMAScript [WhiteSpace] and [LineTerminator]: the class [\s] and the
    characters removed by [String.prototype.trim]. *)
Definition isLineTerminator (c : char) : bool :=
  has [10; 13; 8232; 8233]%N c.

Definition isSpace (c : char) : bool :=
  inRange 9 13 c || has [32; 160; 5760; 8239; 8287; 12288; 65279]%N c
  || inRange 8192 8202 c || inRange 8232 8233 c.

Definition isDigit (c : char) : bool := inRange 48 57 c.
Definition isAlnum (c : char) : bool :=
  inRange 65 90 c || inRange 97 122 c || isDigit c.
(** The class [\w]. *)
Definition isWord (c : char) : bool := isAlnum c || N.eqb c 95.

Fixpoint dropWhile (p : char -> bool) (s : str) : str :=
  match s with
  | [] => []
  | c :: r => if p c then dropWhile p r else s
  end.

(** [s.trim()] *)
Definition trim (s : str) : str :=
  rev (dropWhile isSpace (rev (dropWhile isSpace s))).

(** [text.replace(/\r\n?/g, '\n')] *)
Fixpoint normalize (s : str) : str :=
  match s with
  | [] => []
  | c :: r =>
      if N.eqb c 13 then
        match r with
        | d :: r' => if N.eqb d 10 then 10%N :: normalize r'
                     else 10%N :: normalize r
        | [] => [10%N]
        end
      else c :: normalize r
  end.

(** [s.split('\n')], with the current piece accumulated in reverse. *)
Fixpoint splitOn (acc : str) (s : str) : list str :=
  match s with
  | [] => [rev acc]
  | c :: r => if N.eqb c 10 then rev acc :: splitOn [] r
              else splitOn (c :: acc) r
  end.

Definition split_nl (s : str) : list str := splitOn [] s.

(** [s.split(/\r?\n/)]: the separator is a line feed, with the carriage
    return before it when there is one. *)
Fixpoint splitCrLf (acc : str) (s : str) : list str :=
  match s with
  | [] => [rev acc]
  | c :: r =>
      if N.eqb c 10 then rev acc :: splitCrLf [] r
      else if N.eqb c 13 then
        match r with
        | d :: r' => if N.eqb d 10 then rev acc :: splitCrLf [] r'
                     else splitCrLf (c :: acc) r
        | [] => [rev (c :: acc)]
        end
      else splitCrLf (c :: acc) r
  end.

Definition split_crlf (s : str) : list str := splitCrLf [] s.

(** The string iterator ([for (const ch of line)]): code points, a
    surrogate pair being one element of two code units. *)
Fixpoint codePoints (s : str) : list str :=
  match s with
  | [] => []
  | h :: t =>
      match t with
      | l :: t' =>
          if inRange 55296 56319 h && inRange 56320 57343 l
          then [h; l] :: codePoints t'
          else [h] :: codePoints t
      | [] => [[h]]
      end
  end.

End Str.
Import Str.

(* ================================================================== *)
(** ** Numbers: IEEE 754 binary64 *)

Module Num.

Open Scope float_scope.

(** The number whose value is the integer [z] (exact below 2^53). *)
Definition ofZ (z : Z) : float :=
  SF2Prim (binary_normalize prec emax z 0 false).

Definition ofNat (n : nat) : float := ofZ (Z.of_nat n).

(** [Math.max(a, b)] and [Math.min(a, b)]. *)
Definition max (a b : float) : float :=
  if is_nan a || is_nan b then nan
  else if a <? b then b
  else if b <? a then a
  else if is_zero a && get_sign a then b else a.

Definition min (a b : float) : float :=
  if is_nan a || is_nan b then nan
  else if a <? b then a
  else if b <? a then b
  else if is_zero a && negb (get_sign a) then b else a.

(** [Math.floor(x)] *)
Definition floor (x : float) : float :=
  match Prim2SF x with
  | S754_finite s m e =>
      if (0 <=? e)%Z then x
      else
        let q := Z.div (if s then Z.neg m else Z.pos m) (2 ^ (- e)) in
        if (q =? 0)%Z then 0 else ofZ q
  | _ => x
  end.

(** [x || 0] on numbers: NaN and both zeros are falsy. *)
Definition orZero (x : float) : float :=
  if is_nan x || is_zero x then 0 else x.

(** The integer [n] for which [n / 1000] is closest to [m * 2^e], the
    larger one on a tie. *)
Definition roundMilli (m : positive) (e : Z) : Z :=
  if (0 <=? e)%Z then 1000 * Z.pos m * 2 ^ e
  else Z.div (2 * 1000 * Z.pos m + 2 ^ (- e)) (2 * 2 ^ (- e)).

(** [Number(x.toFixed(3))].  [toFixed] prints that integer with three
    decimals, after a minus sign when [x < 0]; [Number] reads the decimal
    back, rounding to the nearest binary64 value, which is what the division
    of [n] by [1000] does when [n] is below 2^53, as it is for the scores.
    From 1e21 on, [toFixed] prints the number itself. *)
Definition toFixed3 (x : float) : float :=
  match Prim2SF x with
  | S754_finite s m e =>
      if 1e21 <=? abs x then x
      else
        let n := roundMilli m e in
        let r := ofZ n / 1000 in
        if s then - r else r
  | S754_zero _ => 0
  | _ => x
  end.

Definition in01 (x : float) : bool := (0 <=? x) && (x <=? 1).

End Num.

(* ================================================================== *)
(** ** Regular expressions

    A pattern is matched as ECMAScript specifies it: a matcher takes the
    current position and a continuation, alternatives are tried in order and
    the first success is the result.  A position is the code unit before it
    (none at index 0) and the rest of the input; a result is the number of
    code units left after the match. *)

Module RegExp.

Inductive regex : Type :=
| Eps                              (* empty pattern *)
| Chr (p : char -> bool)           (* a character class *)
| Seq (a b : regex)
| Alt (a b : regex)
| Star (greedy : bool) (a : regex) (* a* and a*? *)
| Bol                              (* ^ *)
| Eol                              (* $ *)
| WordB                            (* \b *)
| NotAhead (a : regex).            (* (?!a) *)

Definition orElse (x y : option nat) : option nat :=
  match x with Some _ => x | None => y end.

Definition isSome (x : option nat) : bool :=
  match x with Some _ => true | None => false end.

Definition atBol (multiline : bool) (prev : option char) : bool :=
  match prev with
  | None => true
  | Some c => multiline && isLineTerminator c
  end.

Definition atEol (multiline : bool) (s : str) : bool :=
  match s with
  | [] => true
  | c :: _ => multiline && isLineTerminator c
  end.

Definition isWordAt (c : option char) : bool :=
  match c with Some x => isWord x | None => false end.

Definition cont := option char -> str -> option nat.

(** The loop of a starred pattern whose matcher is [ma]: an iteration
    must consume input to be followed by another one, so the length of
    the input bounds the number of iterations. *)
Fixpoint starLoop (ma : option char -> str -> cont -> option nat)
  (g : bool) (k : cont) (n : nat) (prev : option char) (s : str)
  : option nat :=
  match n with
  | O => k prev s
  | S n' =>
      let iter :=
        ma prev s
          (fun p' s' =>
             if List.length s' <? List.length s
             then starLoop ma g k n' p' s' else None) in
      if g then orElse iter (k prev s) else orElse (k prev s) iter
  end.

Fixpoint m (ml : bool) (r : regex) (prev : option char) (s : str)
  (k : cont) {struct r} : option nat :=
  match r with
  | Eps => k prev s
  | Chr p =>
      match s with
      | c :: s' => if p c then k (Some c) s' else None
      | [] => None
      end
  | Seq a b => m ml a prev s (fun p' s' => m ml b p' s' k)
  | Alt a b => orElse (m ml a prev s k) (m ml b prev s k)
  | Star g a => starLoop (m ml a) g k (List.length s) prev s
  | Bol => if atBol ml prev then k prev s else None
  | Eol => if atEol ml s then k prev s else None
  | WordB =>
      if xorb (isWordAt prev) (isWordAt (hd_error s)) then k prev s else None
  | NotAhead a =>
      match m ml a prev s (fun _ _ => Some O) with
      | Some _ => None
      | None => k prev s
      end
  end.

(** A match that starts at the given position. *)
Definition matchAt (ml : bool) (r : regex) (prev : option char) (s : str)
  : option nat :=
  m ml r prev s (fun _ s' => Some (List.length s')).

(** The first position, from the given one on, where a match starts. *)
Fixpoint searchFrom (ml : bool) (r : regex) (prev : option char) (s : str)
  : option nat :=
  orElse (matchAt ml r prev s)
    match s with
    | [] => None
    | c :: s' => searchFrom ml r (Some c) s'
    end.

(** *** Pattern syntax *)

Definition cu (a : ascii) : char := N_of_ascii a.
Definition chN (c : char) : regex := Chr (N.eqb c).
Definition ch (a : ascii) : regex := chN (cu a).
Definition oneOf (s : string) : regex := Chr (has (lit s)).
Definition noneOf (s : string) : regex := Chr (fun c => negb (has (lit s) c)).
Definition space : regex := Chr isSpace.               (* \s *)
Definition nonSpace : regex := Chr (fun c => negb (isSpace c)). (* \S *)
Definition digit : regex := Chr isDigit.               (* \d *)
Definition dot : regex := Chr (fun c => negb (isLineTerminator c)). (* . *)
Definition any : regex := Chr (fun _ => true).         (* [\s\S] *)

Definition cat (l : list regex) : regex := fold_right Seq Eps l.
Definition alts (l : list regex) : regex :=
  match l with
  | [] => Eps
  | a :: r => fold_left Alt r a
  end.

Definition star (a : regex) : regex := Star true a.
Definition starLazy (a : regex) : regex := Star false a.
Definition plus (a : regex) : regex := Seq a (Star true a).
Definition opt (a : regex) : regex := Alt a Eps.

Fixpoint rep (n : nat) (a : regex) : regex :=
  match n with O => Eps | S n' => Seq a (rep n' a) end.
(** a{0,n} *)
Fixpoint upTo (n : nat) (a : regex) : regex :=
  match n with O => Eps | S n' => opt (Seq a (upTo n' a)) end.
(** a{lo,hi} and a{lo,} *)
Definition repRange (lo hi : nat) (a : regex) : regex :=
  Seq (rep lo a) (upTo (hi - lo) a).
Definition repMin (lo : nat) (a : regex) : regex :=
  Seq (rep lo a) (Star true a).

Fixpoint chars (s : str) : regex :=
  match s with [] => Eps | c :: r => Seq (chN c) (chars r) end.
Definition word (s : string) : regex := chars (lit s).

(** Under the [i] flag two code units match when their canonical
    (upper-case) forms agree; a non-ASCII unit never canonicalises to an
    ASCII one, so an ASCII letter matches its two cases and nothing else. *)
Definition swapCase (c : char) : char :=
  if inRange 65 90 c then (c + 32)%N
  else if inRange 97 122 c then (c - 32)%N else c.
Definition chI (c : char) : regex :=
  Chr (fun x => N.eqb x c || N.eqb x (swapCase c)).
Fixpoint charsI (s : str) : regex :=
  match s with [] => Eps | c :: r => Seq (chI c) (charsI r) end.
Definition wordI (s : string) : regex := charsI (lit s).

(** *** RegExp objects *)

Record RegExp : Type := mkRegExp {
  source : regex;
  global : bool;
  ignoreCase : bool;
  multiline : bool;
  sticky : bool
}.

(** Literals with no flag, [m] and [i]. *)
Definition re (r : regex) : RegExp := mkRegExp r false false false false.
Definition re_m (r : regex) : RegExp := mkRegExp r false false true false.
Definition re_i (r : regex) : RegExp := mkRegExp r false true false false.

(** [RegExpBuiltinExec] as [test] uses it: whether there is a match, and
    the value written to [lastIndex], if any.  Only a global or sticky
    object reads [lastIndex] and writes it. *)
Definition exec (R : RegExp) (lastIndex : nat) (S : str)
  : bool * option nat :=
  let stateful := global R || sticky R in
  let start := if stateful then lastIndex else O in
  if List.length S <? start then (false, if stateful then Some O else None)
  else
    let prev := match start with O => None | S i => nth_error S i end in
    let rest := skipn start S in
    let found :=
      if sticky R then matchAt (multiline R) (source R) prev rest
      else searchFrom (multiline R) (source R) prev rest in
    match found with
    | Some remaining =>
        (true, if stateful then Some (List.length S - remaining) else None)
    | None => (false, if stateful then Some O else None)
    end.

(** [R.test(S)] for a regular expression literal evaluated in place: the
    object is fresh, its [lastIndex] is 0 and nothing else refers to it. *)
Definition test (R : RegExp) (S : str) : bool := fst (exec R 0 S).

End RegExp.
Import RegExp.

(* ================================================================== *)
(** ** Module-level objects and their state

    The regular expressions declared at the top of the module are objects
    shared by all calls.  The only mutable part of a RegExp object is its
    [lastIndex]; the store gives it for each shared object, and a call of
    [test] on a shared object is a computation over the store. *)

Inductive reObj : Type :=
| BOX_DRAWING | BLOCK_ELEMS | BRAILLE | GEOM | ANSI
| MDre (key : string).

Definition reObj_eqb (a b : reObj) : bool :=
  match a, b with
  | BOX_DRAWING, BOX_DRAWING | BLOCK_ELEMS, BLOCK_ELEMS
  | BRAILLE, BRAILLE | GEOM, GEOM | ANSI, ANSI => true
  | MDre x, MDre y => String.eqb x y
  | _, _ => false
  end.

Definition Store := reObj -> nat.

Definition setLastIndex (st : Store) (o : reObj) (i : nat) : Store :=
  fun o' => if reObj_eqb o o' then i else st o'.

(** The store of a freshly loaded module. *)
Definition freshStore : Store := fun _ => O.

Definition M (A : Type) : Type := Store -> A * Store.

Definition ret {A} (x : A) : M A := fun st => (x, st).
Definition bind {A B} (c : M A) (k : A -> M B) : M B :=
  fun st => let (x, st') := c st in k x st'.

Notation "x <- c ;; k" := (bind c (fun x => k))
  (at level 61, c at next level, right associativity).

(** [o.test(S)] on the shared object [o] whose pattern and flags are [R]. *)
Definition testOn (o : reObj) (R : RegExp) (S : str) : M bool :=
  fun st =>
    match exec R (st o) S with
    | (b, Some i) => (b, setLastIndex st o i)
    | (b, None) => (b, st)
    end.

(** [a || b] on computations: [b] runs only when [a] is false. *)
Definition orM (a b : M bool) : M bool :=
  x <- a ;; if x then ret true else b.

(** [BOX_DRAWING_RE = /[\u2500-\u257F]/] and the three other ranges. *)
Definition BOX_DRAWING_RE : RegExp := re (Chr (inRange 0x2500 0x257F)%N).
Definition BLOCK_ELEMS_RE : RegExp := re (Chr (inRange 0x2580 0x259F)%N).
Definition BRAILLE_RE : RegExp := re (Chr (inRange 0x2800 0x28FF)%N).
Definition GEOM_RE : RegExp := re (Chr (inRange 0x25A0 0x25FF)%N).
(** [/\x1B\[[0-9;]*m/] *)
Definition ANSI_RE : RegExp :=
  re (cat [chN 0x1B%N; ch "["; star (Chr (fun c => isDigit c || N.eqb c (cu ";")));
           ch "m"]).

Definition BORDER_CHARS : str := lit "+|-_=/#\*<>".
Definition LINE_SYMBOL_CHARS : str :=
  lit "`~!@#$%^&*()-_=+[]{}|\;:'" ++ [34%N] ++ lit ",.<>/?".

Definition LF : char := 10%N.

(** The markdown patterns, in the order in which the object literal [MD]
    lists them, which is the order of [Object.entries(MD)]. *)
Definition MD : list (string * RegExp) :=
  [ ("heading", (* /^(#{1,6})\s+\S+/m *)
     re_m (cat [Bol; repRange 1 6 (ch "#"); plus space; plus nonSpace]));
    ("setext", (* /^(.+)\n(=+|-+)\s*$/m *)
     re_m (cat [Bol; plus dot; chN LF; Alt (plus (ch "=")) (plus (ch "-"));
                star space; Eol]));
    ("list", (* /^(?:\s{0,3}[-*+]\s+|\s{0,3}\d+\.\s+)/m *)
     re_m (cat [Bol;
                Alt (cat [repRange 0 3 space; oneOf "-*+"; plus space])
                    (cat [repRange 0 3 space; plus digit; ch "."; plus space])]));
    ("blockquote", (* /^>\s+/m *)
     re_m (cat [Bol; ch ">"; plus space]));
    ("fenced", (* /```[\s\S]*?```|~~~[\s\S]*?~~~/m *)
     re_m (Alt (cat [word "```"; starLazy any; word "```"])
               (cat [word "~~~"; starLazy any; word "~~~"])));
    ("inlineCode", (* /(^|[^`])`[^`]+`/m *)
     re_m (cat [Alt Bol (noneOf "`"); ch "`"; plus (noneOf "`"); ch "`"]));
    ("link", (* /\[[^\]]+\]\([^)]+\)/m *)
     re_m (cat [ch "["; plus (noneOf "]"); ch "]"; ch "("; plus (noneOf ")");
                ch ")"]));
    ("image", (* /!\[[^\]]*\]\([^)]+\)/m *)
     re_m (cat [ch "!"; ch "["; star (noneOf "]"); ch "]"; ch "(";
                plus (noneOf ")"); ch ")"]));
    ("tableRow", (* /^\|?[^|\n]+\|[^|\n]+/m *)
     re_m (cat [Bol; opt (ch "|");
                plus (Chr (fun c => negb (has [cu "|"; LF] c))); ch "|";
                plus (Chr (fun c => negb (has [cu "|"; LF] c)))]));
    ("hr", (* /^(?:-\s?){3,}$|^(?:\*\s?){3,}$|^(?:_\s?){3,}$/m *)
     re_m (alts [cat [Bol; repMin 3 (Seq (ch "-") (opt space)); Eol];
                 cat [Bol; repMin 3 (Seq (ch "*") (opt space)); Eol];
                 cat [Bol; repMin 3 (Seq (ch "_") (opt space)); Eol]]));
    ("emphasis", (* "/(^|[^\w*])\*{1,2}[^*\n]+\*{1,2}(?!\*)/m" *)
     re_m (cat [Alt Bol (Chr (fun c => negb (isWord c || N.eqb c (cu "*"))));
                repRange 1 2 (ch "*");
                plus (Chr (fun c => negb (has [cu "*"; LF] c)));
                repRange 1 2 (ch "*"); NotAhead (ch "*")]));
    ("html", (* /<\/?(?:div|span|br|img|a|p|h[1-6]|ul|ol|li|code|pre)[^>]*>/i *)
     re_i (cat [ch "<"; opt (ch "/");
                alts [wordI "div"; wordI "span"; wordI "br"; wordI "img";
                      wordI "a"; wordI "p";
                      Seq (chI (cu "h")) (Chr (inRange (cu "1") (cu "6")));
                      wordI "ul"; wordI "ol"; wordI "li"; wordI "code";
                      wordI "pre"];
                star (noneOf ">"); ch ">"]));
    ("frontMatter", (* /^---\n[\s\S]*?\n---\n/m *)
     re_m (cat [Bol; word "---"; chN LF; starLazy any; chN LF; word "---";
                chN LF])) ].

(* ================================================================== *)
(** ** [asciiArtScore] *)

Open Scope float_scope.

Record Stats : Type := mkStats {
  lines : nat; mean : float; std : float; symD : float; alpha : float
}.

Module AScore.
Record t : Type := mk {
  score : float; reasons : list string; stats : option Stats
}.
End AScore.

(** The counters of the loop over the lines. *)
Record Counts : Type := mkCounts {
  total : nat; alnum : nat; sym : nat; borders : nat; runs : nat;
  trailing : nat; wide : nat
}.

Definition incrIf (b : bool) (n : nat) : nat := if b then S n else n.

Definition count {A} (p : A -> bool) (l : list A) : nat :=
  List.length (filter p l).

(** [t.split('').filter((c) => BORDER_CHARS.has(c)).length / t.length >= 0.8] *)
Definition mostlyBorder (t : str) : bool :=
  0.8 <=? Num.ofNat (count (has BORDER_CHARS) t) / Num.ofNat (List.length t).

(** [t.split('').every((c) => c === t[0])] *)
Definition allSame (t : str) : bool :=
  forallb (fun c => N.eqb c (hd 0%N t)) t.

(** The test that increments [borders], on the trimmed line [t]. *)
Definition borderLike (t : str) : bool :=
  (3 <=? List.length t)%nat
  && (has BORDER_CHARS (hd 0%N t) && has BORDER_CHARS (last t 0%N)
      && (mostlyBorder t || allSame t)).

(** [/(.)\1{4,}/.test(line)]: some code unit other than a line terminator
    is followed by four more copies of itself. *)
Fixpoint copies (c : char) (n : nat) (s : str) : bool :=
  match n with
  | O => true
  | S n' => match s with
            | d :: r => N.eqb d c && copies c n' r
            | [] => false
            end
  end.

Fixpoint hasRun (s : str) : bool :=
  match s with
  | [] => false
  | c :: r => (negb (isLineTerminator c) && copies c 4 r) || hasRun r
  end.

(** [LINE_SYMBOL_CHARS.has(ch)] for an element [ch] of the string iterator. *)
Definition isSymbol (cp : str) : bool :=
  existsb (fun x => Str.eqb cp [x]) LINE_SYMBOL_CHARS.

(** The body of [for (const line of lines)]. *)
Definition lineStep (c : Counts) (line : str) : Counts :=
  let cps := codePoints line in
  let t := trim line in
  {| total := total c + List.length line;
     wide := incrIf (20 <=? List.length line)%nat (wide c);
     alnum := alnum c + count (test (re (Chr isAlnum))) cps;
     sym := sym c + count isSymbol cps;
     borders := incrIf (borderLike t) (borders c);
     runs := incrIf (hasRun line) (runs c);
     trailing :=
       incrIf (test (re (cat [plus space; Eol])) line
               && negb (Nat.eqb (List.length t) 0))
              (trailing c) |}.

Definition noCounts : Counts := mkCounts 0 0 0 0 0 0 0.

Definition lineCounts (ls : list str) : Counts :=
  fold_left lineStep ls noCounts.

(** [if (cond) { score += w; reasons.push(tag); }] *)
Definition bump (cond : bool) (w : float) (tag : string)
  (acc : float * list string) : float * list string :=
  if cond then (fst acc + w, snd acc ++ [tag]) else acc.

Definition bumpDown (cond : bool) (w : float) (tag : string)
  (acc : float * list string) : float * list string :=
  if cond then (fst acc - w, snd acc ++ [tag]) else acc.

(** The nine conditions of the score, in the order of the source. *)
Definition asciiAccum (c1 c2 c3 c4 c5 c6 c7 c8 c9 : bool)
  : float * list string :=
  bumpDown c9 0.1 "very_text_heavy"
   (bump c8 0.28 "unicode_art_chars"
    (bump c7 0.12 "ansi_sequences"
     (bump c6 0.07 "trailing_spaces"
      (bump c5 0.1 "border_like_lines"
       (bump c4 0.15 "long_same_char_runs"
        (bump c3 0.2 "symbol_heavy_low_alpha"
         (bump c2 0.2 "consistent_width"
          (bump c1 0.15 "many_wide_lines" (0, []))))))))).

Definition clamp01 (x : float) : float := Num.max 0 (Num.min 1 x).

(** [lengths.reduce((a, b) => a + b, 0) / lengths.length || 0]; the sum of
    the lengths is an integer below 2^53, on which the additions are
    exact. *)
Definition meanOf (lengths : list nat) : float :=
  Num.orZero
    (Num.ofNat (fold_left Nat.add lengths O) / Num.ofNat (List.length lengths)).

(** The population standard deviation; [Math.pow(d, 2)] is the product
    [d * d], and the divisor is [lengths.length || 1]. *)
Definition stdOf (lengths : list nat) (mean : float) : float :=
  Num.orZero
    (sqrt
       (fold_left (fun a l => a + (Num.ofNat l - mean) * (Num.ofNat l - mean))
                  lengths 0
        / Num.ofNat (let n := List.length lengths in
                     if Nat.eqb n 0 then 1%nat else n))).

(** The function from the statistics on, given the outcomes of the tests
    on the shared objects, which nothing else in it depends on. *)
Definition asciiFinish (ls : list str) (hasUnicodeArt hasAnsi : bool)
  : AScore.t :=
  let n := Num.ofNat (List.length ls) in
  let lengths := map (@List.length char) ls in
  let mean := meanOf lengths in
  let std := stdOf lengths mean in
  let c := lineCounts ls in
  let symD := if Nat.eqb (total c) 0 then 0
              else Num.ofNat (sym c) / Num.ofNat (total c) in
  let alpha := if Nat.eqb (total c) 0 then 0
               else Num.ofNat (alnum c) / Num.ofNat (total c) in
  let acc :=
    asciiAccum
      (0.7 <=? Num.ofNat (wide c) / n)
      ((20 <=? mean) && (std / Num.max 1 mean <=? 0.22))
      ((0.18 <=? symD) && (alpha <=? 0.55))
      (Num.max 2 (Num.floor (n * 0.05)) <=? Num.ofNat (runs c))
      (0.08 <=? Num.ofNat (borders c) / n)
      (0.1 <=? Num.ofNat (trailing c) / n)
      hasAnsi
      hasUnicodeArt
      (0.75 <? alpha) in
  AScore.mk (clamp01 (fst acc)) (snd acc)
    (Some (mkStats (List.length ls) mean std symD alpha)).

Definition asciiArtScore (text : str) : M AScore.t :=
  let raw := normalize text in
  let ls := split_nl raw in
  if (List.length ls <? 3)%nat then
    ret (AScore.mk 0 ["too_few_lines"] None)
  else
    hasUnicodeArt <-
      orM (testOn BOX_DRAWING BOX_DRAWING_RE raw)
        (orM (testOn BLOCK_ELEMS BLOCK_ELEMS_RE raw)
           (orM (testOn BRAILLE BRAILLE_RE raw)
                (testOn GEOM GEOM_RE raw))) ;;
    hasAnsi <- testOn ANSI ANSI_RE raw ;;
    ret (asciiFinish ls hasUnicodeArt hasAnsi).

(* ================================================================== *)
(** ** [markdownScore] *)

Module MScore.
Record t : Type := mk { score : float; reasons : list string }.
End MScore.

Definition isOneOf (name : string) (l : list string) : bool :=
  existsb (String.eqb name) l.

(** The chain of [if (name === ...) score += w] of the loop body. *)
Definition addWeight (name : string) (score : float) : float :=
  if isOneOf name ["fenced"; "heading"; "list"; "link"; "tableRow"]
  then score + 0.18
  else if isOneOf name ["image"; "blockquote"; "setext"; "frontMatter"]
  then score + 0.12
  else if isOneOf name ["inlineCode"; "hr"; "emphasis"]
  then score + 0.08
  else if String.eqb name "html" then score + 0.05
  else score.

(** [for (const [name, re] of features)], from the current [hits] and
    [score]. *)
Fixpoint scanFeatures (features : list (string * RegExp)) (raw : str)
  (hits : list string) (score : float) : M (list string * float) :=
  match features with
  | [] => ret (hits, score)
  | (name, R) :: rest =>
      b <- testOn (MDre name) R raw ;;
      if b then scanFeatures rest raw (hits ++ [name]) (addWeight name score)
      else scanFeatures rest raw hits score
  end.

(** Everything after the loop, given the two remaining conditions. *)
Definition mdFinish (hits : list string) (score : float)
  (manyLong hasArt : bool) : MScore.t :=
  let score := if manyLong then score - 0.1 else score in
  let score := if hasArt then score - 0.12 else score in
  MScore.mk (clamp01 score) hits.

Definition markdownScore (text : str) : M MScore.t :=
  let raw := normalize text in
  hs <- scanFeatures MD raw [] 0 ;;
  let longLines :=
    count (fun l => (140 <? List.length l)%nat) (split_nl raw) in
  hasArt <-
    orM (testOn BOX_DRAWING BOX_DRAWING_RE raw)
      (orM (testOn BLOCK_ELEMS BLOCK_ELEMS_RE raw)
           (testOn BRAILLE BRAILLE_RE raw)) ;;
  ret (mdFinish (fst hs) (snd hs) (2 <=? longLines)%nat hasArt).

(* ================================================================== *)
(** ** [codeLikePenalty] *)

Definition codeHints : list RegExp :=
  [ (* /^(?:\s{2,}|\t)/ *)
    re (cat [Bol; Alt (repMin 2 space) (chN 9%N)]);
    (* /;\s*$/ *)
    re (cat [ch ";"; star space; Eol]);
    (* /\b(function|class|import|export|const|let|var|def|if|for|while)\b/ *)
    re (cat [WordB;
             alts [word "function"; word "class"; word "import"; word "export";
                   word "const"; word "let"; word "var"; word "def"; word "if";
                   word "for"; word "while"];
             WordB]);
    (* /[{}`]/ *)
    re (oneOf "{}`");
    (* /\bException:|\bat\s+[\w.]+ \([\w/.:-]+\)/ *)
    re (Alt (cat [WordB; word "Exception:"])
            (cat [WordB; word "at"; plus space;
                  plus (Chr (fun c => isWord c || N.eqb c (cu ".")));
                  ch " "; ch "(";
                  plus (Chr (fun c => isWord c || has (lit "/.:-") c));
                  ch ")"])) ].

(** [codeHints.some((re) => re.test(l))] *)
Definition codeLine (l : str) : bool :=
  existsb (fun R => test R l) codeHints.

(** [lines.reduce((acc, l) => acc + codeHints.some(...), 0)] *)
Definition codeHits (ls : list str) : nat :=
  fold_left (fun acc l => acc + (if codeLine l then 1 else 0))%nat ls O.

(** [Math.max(3, Math.floor(lines.length * 0.08))] *)
Definition codeThreshold (n : nat) : float :=
  Num.max 3 (Num.floor (Num.ofNat n * 0.08)).

Definition codeLikePenalty (text : str) : float :=
  let ls := split_crlf text in
  if codeThreshold (List.length ls) <=? Num.ofNat (codeHits ls)
  then 0.15 else 0.

(* ================================================================== *)
(** ** [detectTextFormat] *)

(** The argument of the exported function: a string, or any other value. *)
Inductive value : Type :=
| VString (s : str)
| VOther.

Module Reasons.
Record t : Type := mk {
  ascii : list string;
  markdown : list string;
  codePenaltyApplied : option bool   (* absent on the empty result *)
}.
End Reasons.

Module Result.
Record t : Type := mk {
  text_format : string;
  asciiArt : float;
  markdown : float;
  reasons : Reasons.t;
  stats : option Stats               (* absent or undefined: [None] *)
}.
End Result.

Definition emptyResult : Result.t :=
  Result.mk "plain" 0 0 (Reasons.mk ["empty"] [] None) None.

(** The four quick detections, tested on the text as given. *)
Definition fencedRe : RegExp := (* /```[\s\S]*?```|~~~[\s\S]*?~~~/m *)
  re_m (Alt (cat [word "```"; starLazy any; word "```"])
            (cat [word "~~~"; starLazy any; word "~~~"])).
Definition xmlRe : RegExp := (* /^\s*<\?xml/i *)
  re_i (cat [Bol; star space; ch "<"; ch "?"; wordI "xml"]).
Definition htmlRe : RegExp := (* /^\s*<[^>]+>/ *)
  re (cat [Bol; star space; ch "<"; plus (noneOf ">"); ch ">"]).
Definition jsonRe : RegExp := (* /^\s*[{[][\s\S]*[\]}]\s*$/m *)
  re_m (cat [Bol; star space; oneOf "{["; star any; oneOf "]}"; star space;
             Eol]).

Definition ASCII_TH : float := 0.35.
Definition MD_TH : float := 0.08.

(** The chain of [if ... else if ...] that chooses the format. *)
Definition chooseFormat (text : str) (asciiFinal mdFinal : float) : string :=
  if test fencedRe text then "code"
  else if test xmlRe text then "xml"
  else if test htmlRe text then "html"
  else if test jsonRe text then "json"
  else if (ASCII_TH <=? asciiFinal) && (mdFinal + 0.1 <? asciiFinal)
  then "ascii"
  else if (MD_TH <=? mdFinal) && (asciiFinal <=? mdFinal) then "markdown"
  else "plain".

Definition detectTextFormat (v : value) : M Result.t :=
  match v with
  | VOther => ret emptyResult
  | VString text =>
      match trim text with
      | [] => ret emptyResult
      | _ :: _ =>
          a <- asciiArtScore text ;;
          m <- markdownScore text ;;
          let codePenalty := codeLikePenalty text in
          let asciiFinal := Num.max 0 (AScore.score a - codePenalty) in
          let mdFinal := MScore.score m in
          ret (Result.mk (chooseFormat text asciiFinal mdFinal)
                 (Num.toFixed3 asciiFinal) (Num.toFixed3 mdFinal)
                 (Reasons.mk (AScore.reasons a) (MScore.reasons m)
                    (Some (0 <? codePenalty)))
                 (AScore.stats a))
      end
  end.

(** A call in a freshly loaded module. *)
Definition detect (v : value) : Result.t := fst (detectTextFormat v freshStore).

(* ================================================================== *)
(** ** Definitions used to state the properties *)

(** A computation that returns [v] and leaves every store as it is. *)
Definition Pure {A} (c : M A) (v : A) : Prop := forall st, c st = (v, st).

Definition stateless (R : RegExp) : bool := negb (global R || sticky R).

(** The loop of [markdownScore] on the outcomes of the tests. *)
Fixpoint scanBits (outcomes : list (string * bool)) (hits : list string)
  (score : float) : list string * float :=
  match outcomes with
  | [] => (hits, score)
  | (name, b) :: rest =>
      if b then scanBits rest (hits ++ [name]) (addWeight name score)
      else scanBits rest hits score
  end.

(** The outcome of each pattern of a catalog on [raw]. *)
Definition outcomesOf (features : list (string * RegExp)) (raw : str)
  : list (string * bool) :=
  map (fun f => (fst f, test (snd f) raw)) features.

(** All lists of [n] booleans. *)
Fixpoint allBits (n : nat) : list (list bool) :=
  match n with
  | O => [[]]
  | S n' => map (cons true) (allBits n') ++ map (cons false) (allBits n')
  end.

(** The position before [w] in [a ++ w], when the position before [a] has
    [prev] on its left. *)
Definition lastOr (prev : option char) (a : str) : option char :=
  match a with
  | [] => prev
  | _ :: _ => Some (last a 0%N)
  end.

Definition sevenTags : list string :=
  ["plain"; "markdown"; "ascii"; "code"; "html"; "json"; "xml"].

(** The two values of the code penalty. *)
Definition penalties : list float := [0; 0.15].

Definition unicodeArt (raw : str) : bool :=
  test BOX_DRAWING_RE raw
  || (test BLOCK_ELEMS_RE raw || (test BRAILLE_RE raw || test GEOM_RE raw)).

Definition unicodeArtMd (raw : str) : bool :=
  test BOX_DRAWING_RE raw || (test BLOCK_ELEMS_RE raw || test BRAILLE_RE raw).

(** What [asciiArtScore] returns. *)
Definition asciiArtValue (text : str) : AScore.t :=
  let raw := normalize text in
  let ls := split_nl raw in
  if (List.length ls <? 3)%nat then AScore.mk 0 ["too_few_lines"] None
  else asciiFinish ls (unicodeArt raw) (test ANSI_RE raw).

(** What [markdownScore] returns. *)
Definition markdownValue (text : str) : MScore.t :=
  let raw := normalize text in
  let hs := scanBits (outcomesOf MD raw) [] 0 in
  mdFinish (fst hs) (snd hs)
    (2 <=? count (fun l => (140 <? List.length l)%nat) (split_nl raw))%nat
    (unicodeArtMd raw).

(** What [detectTextFormat] returns on a string that is not blank. *)
Definition resultOf (text : str) : Result.t :=
  let a := asciiArtValue text in
  let m := markdownValue text in
  let codePenalty := codeLikePenalty text in
  let asciiFinal := Num.max 0 (AScore.score a - codePenalty) in
  let mdFinal := MScore.score m in
  Result.mk (chooseFormat text asciiFinal mdFinal)
    (Num.toFixed3 asciiFinal) (Num.toFixed3 mdFinal)
    (Reasons.mk (AScore.reasons a) (MScore.reasons m)
       (Some (0 <? codePenalty)))
    (AScore.stats a).

Definition valueOf (v : value) : Result.t :=
  match v with
  | VOther => emptyResult
  | VString text =>
      match trim text with
      | [] => emptyResult
      | _ :: _ => resultOf text
      end
  end.

(** The ASCII score of every combination of the nine conditions, and the
    final ASCII score under a penalty, as computed. *)
Definition asciiScoreOf (bs : list bool) : float :=
  match bs with
  | [c1; c2; c3; c4; c5; c6; c7; c8; c9] =>
      clamp01 (fst (asciiAccum c1 c2 c3 c4 c5 c6 c7 c8 c9))
  | _ => 0
  end.

Definition asciiFinalOf (bs : list bool) (p : float) : float :=
  Num.max 0 (asciiScoreOf bs - p).

(** The markdown score of every combination of outcomes of the thirteen
    patterns and of the two conditions tested after the loop. *)
Definition mdScoreOf (names : list string) (bs : list bool)
  (manyLong hasArt : bool) : float :=
  let hs := scanBits (combine names bs) [] 0 in
  MScore.score (mdFinish (fst hs) (snd hs) manyLong hasArt).

(** *** The meaning of a pattern

    A position is the code unit on its left, if any, and the input on its
    right.  [Match ml r x y]: the pattern [r] matches from position [x] to
    position [y]. *)

Definition pos : Type := option char * str.

Inductive Iter (R : pos -> pos -> Prop) : pos -> pos -> Prop :=
| Iter_done x : Iter R x x
| Iter_step x y z : R x y -> Iter R y z -> Iter R x z.

Fixpoint Match (ml : bool) (r : regex) (x y : pos) {struct r} : Prop :=
  match r with
  | Eps => y = x
  | Chr p => exists c, snd x = c :: snd y /\ p c = true /\ fst y = Some c
  | Seq a b => exists z, Match ml a x z /\ Match ml b z y
  | Alt a b => Match ml a x y \/ Match ml b x y
  | Star _ a => Iter (Match ml a) x y
  | Bol => atBol ml (fst x) = true /\ y = x
  | Eol => atEol ml (snd x) = true /\ y = x
  | WordB =>
      xorb (isWordAt (fst x)) (isWordAt (hd_error (snd x))) = true /\ y = x
  | NotAhead a => (forall z, ~ Match ml a x z) /\ y = x
  end.

(** Some match of [r] starts somewhere in [S]. *)
Definition Found (ml : bool) (r : regex) (S : str) : Prop :=
  exists a w y, S = a ++ w /\ Match ml r (lastOr None a, w) y.

(** The two fence markers, and a text that holds a balanced fenced block:
    a marker, anything (line feeds included), and the same marker again. *)
Definition fences : list str := [lit "```"; lit "~~~"].

Definition fencedBlock (text : str) : Prop :=
  exists F a b c, In F fences /\ text = a ++ F ++ b ++ F ++ c.

(** The formats other than ascii. *)
Definition otherTags : list string :=
  ["code"; "xml"; "html"; "json"; "markdown"; "plain"].

(** The texts with fewer than three lines once line endings are unified. *)
Definition fewLines (text : str) : Prop :=
  (List.length (split_nl (normalize text)) < 3)%nat.

(** Whether the pattern that a catalog lists under [name] matches [raw]. *)
Definition testIn (features : list (string * RegExp)) (name : string)
  (raw : str) : bool :=
  match find (fun f => String.eqb (fst f) name) features with
  | Some f => test (snd f) raw
  | None => false
  end.

Definition mdTest (name : string) (raw : str) : bool := testIn MD name raw.

(** [x] occurs in [l] somewhere before an occurrence of [y]. *)
Definition before (x y : string) (l : list string) : Prop :=
  exists l1 l2 l3, l = l1 ++ x :: l2 ++ y :: l3.

(** The order in which the specification lists the markdown features: by
    weight, 0.18 first, then 0.12, 0.08 and 0.05. *)
Definition specOrder : list string :=
  ["heading"; "list"; "link"; "tableRow"; "fenced";
   "image"; "blockquote"; "setext"; "frontMatter";
   "inlineCode"; "hr"; "emphasis"; "html"].

(** The order in which the object literal [MD] lists them. *)
Definition catalogOrder : list string :=
  ["heading"; "setext"; "list"; "blockquote"; "fenced"; "inlineCode";
   "link"; "image"; "tableRow"; "hr"; "emphasis"; "html"; "frontMatter"].

(** The border-like test as the specification words it: three code units
    or more, and either all of them identical, or 80% of them border
    characters with a border character first and last. *)
Definition specBorderLike (t : str) : bool :=
  (3 <=? List.length t)%nat
  && (allSame t
      || (mostlyBorder t
          && (has BORDER_CHARS (hd 0%N t) && has BORDER_CHARS (last t 0%N)))).

(** Whether [0.8 <= c / n] in binary64 is [4 n <= 5 c] in the integers,
    and whether it is for every [c <= n] and each of the [fuel] values of
    [n] from [i] on. *)
Definition ratioOK (n c : N) : bool :=
  Bool.eqb (0.8 <=? Num.ofZ (Z.of_N c) / Num.ofZ (Z.of_N n))
           (4 * n <=? 5 * c)%N.

Fixpoint checkFrom (f : N -> bool) (fuel : nat) (i : N) : bool :=
  match fuel with
  | O => true
  | S k => f i && checkFrom f k (N.succ i)
  end.

Definition ratioCheck (fuel : nat) : bool :=
  checkFrom (fun n => checkFrom (ratioOK n) (S (N.to_nat n)) 0%N) fuel 1%N.

(** The longest trimmed line for which the two tests are compared. *)
Definition ratioBound : nat := 300.

(** The shape of the texts on which the json test fires: at the start of
    a line ([pre] is empty or ends with a line terminator), white space
    [ws], an opening bracket [o], anything, a closing bracket [c], white
    space [ws'], and the end of a line ([post] is empty or starts with a
    line terminator). *)
Definition jsonShape (text : str) : Prop :=
  exists pre ws o body c ws' post,
    text = pre ++ ws ++ o :: body ++ c :: ws' ++ post
    /\ atBol true (lastOr None pre) = true
    /\ forallb isSpace ws = true
    /\ In o (lit "{[")
    /\ In c (lit "]}")
    /\ forallb isSpace ws' = true
    /\ atEol true post = true.

(** The condition as the specification words it: some line starts, after
    optional white space, with a brace or a bracket, and the whole text ends
    with the closing character that matches it. *)
Definition lineOpensWith (o : char) (line : str) : bool :=
  match dropWhile isSpace line with
  | c :: _ => N.eqb c o
  | [] => false
  end.

Definition endsWith (c : char) (text : str) : bool :=
  match rev text with
  | d :: _ => N.eqb d c
  | [] => false
  end.

Definition specJson (text : str) : bool :=
  (existsb (lineOpensWith (cu "{")) (split_nl text) && endsWith (cu "}") text)
  || (existsb (lineOpensWith (cu "[")) (split_nl text)
      && endsWith (cu "]") text).



(** *** Definitions for the properties of the parts of the code *)

Definition CR : char := 13%N.

(** The number of line feeds of a text. *)
Definition lineFeeds (s : str) : nat := count (N.eqb LF) s.

(** The reasons of [asciiArtScore], in the order of its nine tests. *)
Definition asciiTags : list string :=
  ["many_wide_lines"; "consistent_width"; "symbol_heavy_low_alpha";
   "long_same_char_runs"; "border_like_lines"; "trailing_spaces";
   "ansi_sequences"; "unicode_art_chars"; "very_text_heavy"].

(** What the test that pushes [tag] does to the score. *)
Definition applyTag (score : float) (tag : string) : float :=
  if isOneOf tag ["many_wide_lines"; "long_same_char_runs"] then score + 0.15
  else if isOneOf tag ["consistent_width"; "symbol_heavy_low_alpha"]
  then score + 0.2
  else if String.eqb tag "border_like_lines" then score + 0.1
  else if String.eqb tag "trailing_spaces" then score + 0.07
  else if String.eqb tag "ansi_sequences" then score + 0.12
  else if String.eqb tag "unicode_art_chars" then score + 0.28
  else if String.eqb tag "very_text_heavy" then score - 0.1
  else score.

(** The values that [detectTextFormat] takes for empty: those that are not
    strings, and the strings of white space only. *)
Definition blankValue (v : value) : Prop :=
  match v with
  | VOther => True
  | VString s => forallb isSpace s = true
  end.

(** The code units that [asciiArtScore] takes for Unicode art (box drawing,
    block elements and geometric shapes, U+2500 to U+25FF, and Braille,
    U+2800 to U+28FF), and those for which [markdownScore] takes 0.12 off
    (the same without the geometric shapes, U+25A0 to U+25FF). *)
Definition inArt (c : char) : bool :=
  (inRange 0x2500 0x25FF c || inRange 0x2800 0x28FF c)%N.


(** A text that holds an ANSI colour sequence: escape, bracket, digits and
    semicolons, [m]. *)
Definition ansiShape (s : str) : Prop :=
  exists a params b,
    s = a ++ [0x1B%N; cu "["] ++ params ++ [cu "m"] ++ b
    /\ forallb (fun c => isDigit c || N.eqb c (cu ";")) params = true.

(** A word without line feed and carriage return. *)
Definition plainWord (w : str) : Prop :=
  forall c, In c w -> c <> LF /\ c <> CR.

(** A text that opens, after optional white space, with [<?xml] in any
    case; and one that opens, after optional white space, with a tag: an
    angle bracket, at least one code unit other than the closing bracket,
    and the closing bracket. *)
Definition xmlShape (text : str) : Prop :=
  exists ws x m l rest,
    text = ws ++ [cu "<"; cu "?"; x; m; l] ++ rest
    /\ forallb isSpace ws = true
    /\ In x (lit "xX") /\ In m (lit "mM") /\ In l (lit "lL").

Definition htmlShape (text : str) : Prop :=
  exists ws tag rest,
    text = ws ++ cu "<" :: tag ++ cu ">" :: rest
    /\ forallb isSpace ws = true
    /\ tag <> []
    /\ ~ In (cu ">") tag.

(** The formats chosen by comparing the scores. *)
Definition scoredTags : list string := ["ascii"; "markdown"; "plain"].

(** Whether, for [n] lines of which [h] are code-like, the comparison of
    [codeLikePenalty] is the comparison of [h] with 3; and the largest
    number of lines for which it is. *)
Definition penaltyOK (n h : N) : bool :=
  Bool.eqb (Num.max 3 (Num.floor (Num.ofZ (Z.of_N n) * 0.08))
            <=? Num.ofZ (Z.of_N h))
           (3 <=? h)%N.

Definition smallText : nat := 49.

(** The tests of the loop over the lines that count a line as wide, as
    border-like and as one with trailing white space. *)
Definition wideLine (l : str) : bool := (20 <=? List.length l)%nat.

Definition borderLine (l : str) : bool := borderLike (trim l).

Definition trailingLine (l : str) : bool :=
  test (re (cat [plus space; Eol])) l
  && negb (Nat.eqb (List.length (trim l)) 0).

(** Whether, for [c] counted lines out of [n], the comparisons of the
    shares with 0.7, 0.08 and 0.1 and of the count with
    [Math.max(2, Math.floor(n * 0.05))] are the comparisons of integers. *)
Definition shareOK (n c : N) : bool :=
  let fn := Num.ofZ (Z.of_N n) in
  let fc := Num.ofZ (Z.of_N c) in
  Bool.eqb (0.7 <=? fc / fn) (7 * n <=? 10 * c)%N
  && Bool.eqb (0.08 <=? fc / fn) (2 * n <=? 25 * c)%N
  && Bool.eqb (0.1 <=? fc / fn) (n <=? 10 * c)%N
  && Bool.eqb (Num.max 2 (Num.floor (fn * 0.05)) <=? fc)
              (N.max 2 (n / 20) <=? c)%N.

Definition shareCheck (fuel : nat) : bool :=
  checkFrom (fun n => checkFrom (shareOK n) (S (N.to_nat n)) 0%N) fuel 1%N.

(** The largest number of lines for which the comparisons are compared. *)
Definition shareBound : nat := 300.

(** A line with a run: five equal code units in a row that are no line
    terminator.  A line with trailing white space: its last code unit is
    white space and some code unit of it is not. *)
Definition runShape (l : str) : Prop :=
  exists a c b, l = a ++ repeat c 5 ++ b /\ isLineTerminator c = false.

Definition trailingShape (l : str) : Prop :=
  (exists body c, l = body ++ [c] /\ isSpace c = true)
  /\ exists d, In d l /\ isSpace d = false.

(** The five shapes of a code-like line.  It opens with a tab or with two
    white-space code units; it ends in a semicolon and optional white
    space; one of the eleven words stands in it between code units that
    are no word characters; it holds a brace or a backtick; it holds
    [Exception:] or a stack-frame [at name (location)] after a code unit
    that is no word character. *)
Definition codeWords : list string :=
  ["function"; "class"; "import"; "export"; "const"; "let"; "var"; "def";
   "if"; "for"; "while"].

Definition indented (l : str) : Prop :=
  (exists rest, l = 9%N :: rest)
  \/ exists c d rest, l = c :: d :: rest /\ isSpace c = true /\ isSpace d = true.

Definition endsStatement (l : str) : Prop :=
  exists a ws, l = a ++ cu ";" :: ws /\ forallb isSpace ws = true.

Definition keywordShape (l : str) : Prop :=
  exists a kw b,
    l = a ++ lit kw ++ b /\ In kw codeWords
    /\ isWordAt (lastOr None a) = false /\ isWordAt (hd_error b) = false.

Definition hasBrace (l : str) : Prop :=
  exists c, In c l /\ In c (lit "{}`").

Definition traceShape (l : str) : Prop :=
  (exists a b, l = a ++ lit "Exception:" ++ b
               /\ isWordAt (lastOr None a) = false)
  \/ exists a ws name loc b,
       l = a ++ lit "at" ++ ws ++ name ++ lit " (" ++ loc ++ lit ")" ++ b
       /\ isWordAt (lastOr None a) = false
       /\ ws <> [] /\ forallb isSpace ws = true
       /\ name <> []
       /\ forallb (fun c => isWord c || N.eqb c (cu ".")) name = true
       /\ loc <> []
       /\ forallb (fun c => isWord c || has (lit "/.:-") c) loc = true.



(** The shapes of a text [raw] that seven patterns of the markdown catalog
    look for.  A line starts at the start of the text and after a line
    terminator. *)
Definition lineStart (a : str) : Prop :=
  a = [] \/ exists b c, a = b ++ [c] /\ isLineTerminator c = true.

(** One to six [#] at the start of a line, white space, and a code unit
    that is no white space. *)
Definition headingShape (raw : str) : Prop :=
  exists a k ws c rest,
    raw = a ++ repeat (cu "#") k ++ ws ++ c :: rest
    /\ lineStart a /\ (1 <= k <= 6)%nat
    /\ ws <> [] /\ forallb isSpace ws = true /\ isSpace c = false.

(** At the start of a line at most three white-space code units, then
    [-], [*] or [+], or digits and a full stop, then white space. *)
Definition listShape (raw : str) : Prop :=
  exists a ind marker c rest,
    raw = a ++ ind ++ marker ++ c :: rest
    /\ lineStart a
    /\ (List.length ind <= 3)%nat /\ forallb isSpace ind = true
    /\ isSpace c = true
    /\ ((exists m, marker = [m] /\ In m (lit "-*+"))
        \/ exists ds, marker = ds ++ [cu "."] /\ ds <> []
                      /\ forallb isDigit ds = true).

(** [>] at the start of a line, then white space. *)
Definition quoteShape (raw : str) : Prop :=
  exists a c rest,
    raw = a ++ cu ">" :: c :: rest /\ lineStart a /\ isSpace c = true.

(** A line [---], anything, and a line [---] that a line feed ends. *)
Definition frontMatterShape (raw : str) : Prop :=
  exists a body rest,
    raw = a ++ lit "---" ++ [LF] ++ body ++ [LF] ++ lit "---" ++ [LF] ++ rest
    /\ lineStart a.

(** A text in square brackets and a target in round brackets; for an
    image an exclamation mark stands before, and the text may be empty. *)
Definition linkShape (raw : str) : Prop :=
  exists a txt url rest,
    raw = a ++ cu "[" :: txt ++ cu "]" :: cu "(" :: url ++ cu ")" :: rest
    /\ txt <> [] /\ ~ In (cu "]") txt
    /\ url <> [] /\ ~ In (cu ")") url.

Definition imageShape (raw : str) : Prop :=
  exists a alt url rest,
    raw = a ++ cu "!" :: cu "[" :: alt ++ cu "]" :: cu "(" :: url
            ++ cu ")" :: rest
    /\ ~ In (cu "]") alt
    /\ url <> [] /\ ~ In (cu ")") url.

(** Code units other than the backtick between two backticks, the first
    of which no backtick precedes. *)
Definition inlineCodeShape (raw : str) : Prop :=
  exists a code rest,
    raw = a ++ cu "`" :: code ++ cu "`" :: rest
    /\ lastOr None a <> Some (cu "`")
    /\ code <> [] /\ ~ In (cu "`") code.

(** The end of a line: the end of the text, or a line terminator next. *)
Definition lineEnd (rest : str) : Prop :=
  rest = [] \/ exists c r, rest = c :: r /\ isLineTerminator c = true.

(** A line of at least one code unit, a line feed, and a bar of [=] or of
    [-] that only white space follows up to the end of a line. *)
Definition setextShape (raw : str) : Prop :=
  exists a title bar ws rest,
    raw = a ++ title ++ LF :: bar ++ ws ++ rest
    /\ lineStart a
    /\ title <> [] /\ (forall c, In c title -> isLineTerminator c = false)
    /\ bar <> []
    /\ (bar = repeat (cu "=") (List.length bar)
        \/ bar = repeat (cu "-") (List.length bar))
    /\ forallb isSpace ws = true
    /\ lineEnd rest.

(** At the start of a line an optional [|], a cell, [|], and the first
    code unit of another cell; a cell holds no [|] and no line feed. *)
Definition cellUnit (c : char) : bool := negb (has [cu "|"; LF] c).

Definition tableRowShape (raw : str) : Prop :=
  exists a pre cell c rest,
    raw = a ++ pre ++ cell ++ cu "|" :: c :: rest
    /\ lineStart a
    /\ (pre = [] \/ pre = [cu "|"])
    /\ cell <> [] /\ forallb cellUnit cell = true
    /\ cellUnit c = true.

(** One or two [*], code units other than [*] and line feed, and one or
    two [*] that no [*] follows; before the first [*] a line starts or a
    code unit stands that is neither a word character nor [*]. *)
Definition emphasisShape (raw : str) : Prop :=
  exists a j body k rest,
    raw = a ++ repeat (cu "*") j ++ body ++ repeat (cu "*") k ++ rest
    /\ (lineStart a
        \/ exists b c, a = b ++ [c] /\ isWord c = false /\ c <> cu "*")
    /\ (1 <= j <= 2)%nat /\ (1 <= k <= 2)%nat
    /\ body <> []
    /\ (forall c, In c body -> c <> cu "*" /\ c <> LF)
    /\ hd_error rest <> Some (cu "*").

(** A rule: at the start of a line at least three [-], three [*] or three
    [_], each followed by at most one white-space code unit, up to the end
    of a line. *)
Definition ruleUnit (m : char) (s : str) : Prop :=
  s = [m] \/ exists c, s = [m; c] /\ isSpace c = true.

Definition hrShape (raw : str) : Prop :=
  exists a m segs rest,
    raw = a ++ concat segs ++ rest
    /\ lineStart a /\ lineEnd rest
    /\ In m (lit "-*_")
    /\ (3 <= List.length segs)%nat /\ Forall (ruleUnit m) segs.

(** An opening or closing tag whose name starts, in either case, with one
    of eleven names or with [h] and a digit from 1 to 6; anything but [>]
    may follow the name. *)
Definition htmlNames : list string :=
  ["div"; "span"; "br"; "img"; "a"; "p"; "ul"; "ol"; "li"; "code"; "pre"].

Definition anyCase (w name : str) : Prop :=
  Forall2 (fun c x => x = c \/ x = swapCase c) w name.

Definition tagName (name : str) : Prop :=
  (exists w, In w htmlNames /\ anyCase (lit w) name)
  \/ exists h d, name = [h; d] /\ (h = cu "h" \/ h = cu "H")
                 /\ inRange (cu "1") (cu "6") d = true.

Definition htmlTagShape (raw : str) : Prop :=
  exists a slash name attrs rest,
    raw = a ++ cu "<" :: slash ++ name ++ attrs ++ cu ">" :: rest
    /\ (slash = [] \/ slash = [cu "/"])
    /\ tagName name
    /\ ~ In (cu ">") attrs.

(** A text that holds a code unit other than white space. *)
Definition inked (raw : str) : Prop :=
  exists c, In c raw /\ isSpace c = false.

(* ================================================================== *)
(** ** The state monad and the shared objects *)

Section PureComputations.

Lemma Pure_ret {A} (x : A) : Pure (ret x) x.
Proof. intros st; reflexivity. Qed.

Lemma Pure_bind {A B} (c : M A) (k : A -> M B) v w :
  Pure c v -> Pure (k v) w -> Pure (bind c k) w.
Proof.
  intros Hc Hk st. unfold bind. rewrite Hc. apply Hk.
Qed.

Lemma exec_stateless R i S :
  stateless R = true -> exec R i S = (test R S, None).
Proof.
  unfold stateless, test, exec. intros H.
  apply negb_true_iff in H. rewrite H.
  apply orb_false_iff in H. destruct H as [_ Hs]. rewrite Hs.
  cbn. destruct (searchFrom _ _ _ _); reflexivity.
Qed.

Lemma Pure_testOn o R S :
  stateless R = true -> Pure (testOn o R S) (test R S).
Proof.
  intros H st. unfold testOn. rewrite (exec_stateless R (st o) S H).
  reflexivity.
Qed.

Lemma Pure_orM a b x y : Pure a x -> Pure b y -> Pure (orM a b) (x || y).
Proof.
  intros Ha Hb. unfold orM. eapply Pure_bind; [exact Ha|].
  destruct x; [apply Pure_ret | exact Hb].
Qed.

End PureComputations.

Lemma asciiArtScore_pure text : Pure (asciiArtScore text) (asciiArtValue text).
Proof.
  unfold asciiArtScore, asciiArtValue.
  destruct (List.length (split_nl (normalize text)) <? 3)%nat.
  - apply Pure_ret.
  - eapply Pure_bind.
    + repeat apply Pure_orM; apply Pure_testOn; reflexivity.
    + eapply Pure_bind; [apply Pure_testOn; reflexivity | apply Pure_ret].
Qed.

Lemma scanFeatures_pure features raw :
  forallb (fun f => stateless (snd f)) features = true ->
  forall hits score,
    Pure (scanFeatures features raw hits score)
         (scanBits (outcomesOf features raw) hits score).
Proof.
  induction features as [|[name R] rest IH]; intros Hs hits score.
  - apply Pure_ret.
  - cbn in Hs. apply andb_true_iff in Hs. destruct Hs as [HR Hrest].
    cbn [scanFeatures outcomesOf map fst snd scanBits].
    eapply Pure_bind; [apply Pure_testOn; exact HR|].
    destruct (test R raw); apply IH; exact Hrest.
Qed.

Lemma markdownScore_pure text : Pure (markdownScore text) (markdownValue text).
Proof.
  unfold markdownScore, markdownValue.
  eapply Pure_bind; [apply scanFeatures_pure; reflexivity|].
  eapply Pure_bind.
  - repeat apply Pure_orM; apply Pure_testOn; reflexivity.
  - apply Pure_ret.
Qed.

Lemma detectTextFormat_pure v : Pure (detectTextFormat v) (valueOf v).
Proof.
  destruct v as [text|]; cbn [detectTextFormat valueOf]; [|apply Pure_ret].
  destruct (trim text); [apply Pure_ret|].
  eapply Pure_bind; [apply asciiArtScore_pure|].
  eapply Pure_bind; [apply markdownScore_pure|].
  apply Pure_ret.
Qed.

(* ================================================================== *)
(** ** Scores and format tags *)

Lemma allBits_complete bs : In bs (allBits (List.length bs)).
Proof.
  induction bs as [|b bs IH]; cbn; [left; reflexivity|].
  apply in_or_app. destruct b; [left | right]; apply in_map; exact IH.
Qed.

Lemma codeLikePenalty_cases text : In (codeLikePenalty text) penalties.
Proof.
  unfold codeLikePenalty, penalties.
  destruct (_ <=? _); cbn; auto.
Qed.

Lemma asciiFinal_checked :
  forallb (fun bs =>
             Num.in01 (asciiScoreOf bs)
             && forallb (fun p => Num.in01 (Num.toFixed3 (asciiFinalOf bs p)))
                        penalties)
          (allBits 9) = true.
Proof. vm_compute. reflexivity. Qed.

Lemma asciiFinal_in01 c1 c2 c3 c4 c5 c6 c7 c8 c9 :
  let score := clamp01 (fst (asciiAccum c1 c2 c3 c4 c5 c6 c7 c8 c9)) in
  Num.in01 score = true
  /\ forall p, In p penalties ->
               Num.in01 (Num.toFixed3 (Num.max 0 (score - p))) = true.
Proof.
  pose proof asciiFinal_checked as H.
  rewrite forallb_forall in H.
  specialize (H [c1; c2; c3; c4; c5; c6; c7; c8; c9]
                (allBits_complete [c1; c2; c3; c4; c5; c6; c7; c8; c9])).
  apply andb_true_iff in H. destruct H as [Hs Hp].
  split; [exact Hs|].
  intros p Hin. rewrite forallb_forall in Hp. exact (Hp p Hin).
Qed.

Lemma asciiArtValue_cases text :
  asciiArtValue text = AScore.mk 0 ["too_few_lines"] None
  \/ exists c1 c2 c3 c4 c5 c6 c7 c8 c9 st,
      asciiArtValue text =
      AScore.mk (clamp01 (fst (asciiAccum c1 c2 c3 c4 c5 c6 c7 c8 c9)))
                (snd (asciiAccum c1 c2 c3 c4 c5 c6 c7 c8 c9)) (Some st).
Proof.
  unfold asciiArtValue.
  destruct (List.length (split_nl (normalize text)) <? 3)%nat; [left; reflexivity|].
  right. unfold asciiFinish. do 10 eexists. reflexivity.
Qed.

Lemma asciiFinal_result_in01 text :
  Num.in01 (AScore.score (asciiArtValue text)) = true
  /\ Num.in01
       (Num.toFixed3
          (Num.max 0 (AScore.score (asciiArtValue text)
                      - codeLikePenalty text)))
     = true.
Proof.
  pose proof (codeLikePenalty_cases text) as Hp.
  destruct (asciiArtValue_cases text)
    as [E | (c1 & c2 & c3 & c4 & c5 & c6 & c7 & c8 & c9 & st & E)];
    rewrite E; cbn [AScore.score].
  - split; [reflexivity|].
    destruct Hp as [<- | [<- | []]]; vm_compute; reflexivity.
  - destruct (asciiFinal_in01 c1 c2 c3 c4 c5 c6 c7 c8 c9) as [Hs Hf].
    split; [exact Hs | apply Hf; exact Hp].
Qed.

Lemma mdScore_checked :
  forallb (fun bs =>
             forallb (fun l =>
                        forallb (fun a =>
                                   let score := mdScoreOf (map fst MD) bs l a in
                                   Num.in01 score
                                   && Num.in01 (Num.toFixed3 score))
                                [true; false])
                     [true; false])
          (allBits (List.length MD)) = true.
Proof. vm_compute. reflexivity. Qed.

Lemma outcomesOf_combine features raw :
  outcomesOf features raw =
  combine (map fst features) (map (fun f => test (snd f) raw) features).
Proof.
  induction features as [|f rest IH]; cbn; [reflexivity|].
  f_equal. exact IH.
Qed.

Lemma in_bools (b : bool) : In b [true; false].
Proof. destruct b; cbn; auto. Qed.

Lemma markdown_result_in01 text :
  Num.in01 (MScore.score (markdownValue text)) = true
  /\ Num.in01 (Num.toFixed3 (MScore.score (markdownValue text))) = true.
Proof.
  unfold markdownValue. rewrite outcomesOf_combine.
  set (bs := map (fun f => test (snd f) (normalize text)) MD).
  set (l := (2 <=? _)%nat). set (a := unicodeArtMd _).
  pose proof mdScore_checked as H.
  rewrite forallb_forall in H.
  assert (Hlen : List.length bs = List.length MD)
    by (unfold bs; apply length_map).
  specialize (H bs). rewrite <- Hlen in H.
  specialize (H (allBits_complete bs)).
  rewrite forallb_forall in H. specialize (H l (in_bools l)).
  rewrite forallb_forall in H. specialize (H a (in_bools a)).
  cbv zeta in H. apply andb_true_iff in H. exact H.
Qed.

Lemma chooseFormat_tag text x y : In (chooseFormat text x y) sevenTags.
Proof.
  unfold chooseFormat, sevenTags.
  repeat match goal with
         | |- context [if ?b then _ else _] => destruct b
         end; cbn; tauto.
Qed.

(** C1: for every input value (any string, the empty one included, and any
    value that is not a string) and whatever the state of the shared
    objects, both scores of the result of [detectTextFormat] lie in [0,1]
    and the format is one of the seven tags plain, markdown, ascii, code,
    html, json and xml.  So do the scores that [asciiArtScore] and
    [markdownScore] return, which are clamped. *)
Theorem detect_scores_bounded_and_tag (v : value) (st : Store) :
  let r := fst (detectTextFormat v st) in
  Num.in01 (Result.asciiArt r) = true
  /\ Num.in01 (Result.markdown r) = true
  /\ In (Result.text_format r) sevenTags
  /\ (forall text,
        Num.in01 (AScore.score (fst (asciiArtScore text st))) = true
        /\ Num.in01 (MScore.score (fst (markdownScore text st))) = true).
Proof.
  cbv zeta.
  assert (Hs : forall text,
             Num.in01 (AScore.score (fst (asciiArtScore text st))) = true
             /\ Num.in01 (MScore.score (fst (markdownScore text st))) = true).
  { intros text.
    rewrite (asciiArtScore_pure text st), (markdownScore_pure text st).
    cbn [fst]. split.
    - apply asciiFinal_result_in01.
    - apply markdown_result_in01. }
  rewrite (detectTextFormat_pure v st). cbn [fst].
  assert (He : Num.in01 (Result.asciiArt emptyResult) = true
               /\ Num.in01 (Result.markdown emptyResult) = true
               /\ In (Result.text_format emptyResult) sevenTags)
    by (repeat split; cbn; auto).
  destruct v as [text|]; cbn [valueOf].
  - destruct (trim text); [tauto|].
    unfold resultOf.
    cbn [Result.asciiArt Result.markdown Result.text_format].
    split; [apply asciiFinal_result_in01|].
    split; [apply markdown_result_in01|].
    split; [apply chooseFormat_tag | exact Hs].
  - tauto.
Qed.

(* ================================================================== *)
(** ** The matcher and the meaning of patterns *)

Section Matcher.

Local Open Scope nat_scope.

Variable ml : bool.

Lemma isSome_orElse x y : isSome (orElse x y) = isSome x || isSome y.
Proof. destruct x; reflexivity. Qed.

Lemma last_app_cons (a : str) c b d : last (a ++ c :: b) d = last (c :: b) d.
Proof.
  induction a as [|x a IH]; [reflexivity|].
  cbn [app]. destruct (a ++ c :: b) eqn:E.
  - destruct a; discriminate.
  - rewrite <- IH. reflexivity.
Qed.

Lemma lastOr_app prev a b : lastOr prev (a ++ b) = lastOr (lastOr prev a) b.
Proof.
  destruct b as [|c b]; [rewrite app_nil_r; reflexivity|].
  cbn [lastOr]. destruct (a ++ c :: b) eqn:E.
  - destruct a; discriminate.
  - cbn [lastOr]. rewrite <- E, last_app_cons. reflexivity.
Qed.

(** A match consumes a prefix of the input, and the code unit on the left
    of the position it reaches is the last one consumed. *)
Lemma Match_consumes r : forall x y,
  Match ml r x y ->
  exists w, snd x = w ++ snd y /\ fst y = lastOr (fst x) w.
Proof.
  induction r as [|p|a IHa b IHb|a IHa b IHb|g a IHa| | | |a IHa];
    intros x y H; cbn [Match] in H.
  - subst y. exists []. split; reflexivity.
  - destruct H as (c & Hs & _ & Hp). exists [c]. split; assumption.
  - destruct H as (z & Ha & Hb).
    destruct (IHa _ _ Ha) as (w1 & E1 & P1).
    destruct (IHb _ _ Hb) as (w2 & E2 & P2).
    exists (w1 ++ w2). rewrite E1, E2, P2, P1, app_assoc, lastOr_app.
    split; reflexivity.
  - destruct H as [H | H]; [apply IHa | apply IHb]; exact H.
  - induction H as [x | x y z Hxy _ IH].
    + exists []. split; reflexivity.
    + destruct (IHa _ _ Hxy) as (w1 & E1 & P1).
      destruct IH as (w2 & E2 & P2).
      exists (w1 ++ w2). rewrite E1, E2, P2, P1, app_assoc, lastOr_app.
      split; reflexivity.
  - destruct H as [_ ->]. exists []. split; reflexivity.
  - destruct H as [_ ->]. exists []. split; reflexivity.
  - destruct H as [_ ->]. exists []. split; reflexivity.
  - destruct H as [_ ->]. exists []. split; reflexivity.
Qed.

Lemma Match_shorter r x y :
  Match ml r x y -> List.length (snd y) <= List.length (snd x).
Proof.
  intros H. destruct (Match_consumes r x y H) as (w & E & _).
  rewrite E, length_app. lia.
Qed.

Lemma Match_empty r x y :
  Match ml r x y -> List.length (snd y) = List.length (snd x) -> y = x.
Proof.
  intros H L. destruct (Match_consumes r x y H) as (w & E & P).
  rewrite E, length_app in L.
  destruct w as [|c w]; [|cbn in L; lia].
  destruct x, y; cbn in *. subst. reflexivity.
Qed.

Lemma Iter_at_end a u v :
  Iter (Match ml a) u v -> List.length (snd u) = 0 -> v = u.
Proof.
  intros Huv. induction Huv as [|u v w Huv _ IHw]; intros L0.
  - reflexivity.
  - pose proof (Match_shorter _ _ _ Huv) as L1.
    assert (v = u) by (apply (Match_empty a); [exact Huv | lia]).
    subst v. apply IHw. exact L0.
Qed.

(** The loop of a starred pattern computes the iteration of the meaning of
    its body, provided the matcher of the body computes that meaning. *)
Lemma starLoop_correct (a : regex)
  (ma : option char -> str -> cont -> option nat) :
  (forall prev s k,
      isSome (ma prev s k) = true <->
      exists y, Match ml a (prev, s) y /\ isSome (k (fst y) (snd y)) = true) ->
  forall g k n prev s,
    List.length s <= n ->
    (isSome (starLoop ma g k n prev s) = true <->
     exists y, Iter (Match ml a) (prev, s) y
               /\ isSome (k (fst y) (snd y)) = true).
Proof.
  intros Hma g k.
  assert (Hstep : forall n prev s,
    isSome (starLoop ma g k (S n) prev s) =
    isSome (ma prev s (fun p' s' =>
              if List.length s' <? List.length s
              then starLoop ma g k n p' s' else None))
    || isSome (k prev s)).
  { intros n prev s. cbn [starLoop].
    destruct g; rewrite isSome_orElse; [reflexivity | apply orb_comm]. }
  induction n as [|n IH]; intros prev s Hn.
  - cbn [starLoop]. split.
    + intros H. exists (prev, s). split; [apply Iter_done | exact H].
    + intros (y & Hy & Hk).
      assert (E : y = (prev, s))
        by (apply (Iter_at_end a); [exact Hy | cbn [snd]; lia]).
      subst y. exact Hk.
  - rewrite Hstep, orb_true_iff, Hma. split.
    + intros [(y & Hy & Hk) | Hk].
      * destruct (List.length (snd y) <? List.length s) eqn:L; [|discriminate].
        apply Nat.ltb_lt in L.
        destruct y as [p' s']. cbn [fst snd] in *.
        apply IH in Hk; [|lia].
        destruct Hk as (z & Hz & Hkz).
        exists z. split; [eapply Iter_step; eassumption | exact Hkz].
      * exists (prev, s). split; [apply Iter_done | exact Hk].
    + intros (y & Hy & Hk).
      remember (prev, s) as x eqn:Ex.
      revert prev s Hn Ex.
      induction Hy as [x | x y z Hxy Hyz IHyz]; intros prev s Hn Ex; subst x.
      * right. exact Hk.
      * pose proof (Match_shorter _ _ _ Hxy) as L. cbn [snd] in L.
        destruct (Nat.eq_dec (List.length (snd y)) (List.length s)) as [E | NE].
        -- assert (y = (prev, s)) by (apply (Match_empty a); assumption).
           subst y. apply (IHyz Hk prev s Hn eq_refl).
        -- left. exists y. split; [exact Hxy|].
           assert (Hlt : List.length (snd y) < List.length s) by lia.
           apply Nat.ltb_lt in Hlt. rewrite Hlt.
           apply IH; [lia|].
           exists z. destruct y. split; assumption.
Qed.

(** The matcher succeeds exactly when the pattern matches up to a position
    that the continuation accepts. *)
Theorem m_correct r : forall prev s k,
  isSome (m ml r prev s k) = true <->
  exists y, Match ml r (prev, s) y /\ isSome (k (fst y) (snd y)) = true.
Proof.
  induction r as [|p|a IHa b IHb|a IHa b IHb|g a IHa| | | |a IHa];
    intros prev s k; cbn [m Match].
  - split.
    + intros H. exists (prev, s). split; [reflexivity | exact H].
    + intros (y & -> & H). exact H.
  - destruct s as [|c s'].
    + split; [discriminate|].
      intros (y & (c & E & _) & _). discriminate.
    + destruct (p c) eqn:Hp.
      * split.
        -- intros H. exists (Some c, s'). split; [|exact H].
           exists c. repeat split; assumption.
        -- intros ([p' s''] & (d & E & _ & Hf) & H). cbn [fst snd] in *.
           inversion E; subst. exact H.
      * split; [discriminate|].
        intros (y & (d & E & Hd & _) & _). cbn [snd] in E.
        inversion E; subst. congruence.
  - rewrite IHa. split.
    + intros ([p1 s1] & Ha & H). cbn [fst snd] in H. apply IHb in H.
      destruct H as (y & Hb & H). exists y. split; [|exact H].
      exists (p1, s1). split; assumption.
    + intros (y & ([p1 s1] & Ha & Hb) & H).
      exists (p1, s1). split; [exact Ha|]. cbn [fst snd]. apply IHb.
      exists y. split; assumption.
  - rewrite isSome_orElse, orb_true_iff, IHa, IHb. split.
    + intros [(y & Hy & H) | (y & Hy & H)]; exists y; tauto.
    + intros (y & [Hy | Hy] & H); [left | right]; exists y; tauto.
  - apply (starLoop_correct a (m ml a) IHa). apply Nat.le_refl.
  - destruct (atBol ml prev) eqn:E.
    + split.
      * intros H. exists (prev, s). repeat split; assumption.
      * intros (y & (_ & ->) & H). exact H.
    + split; [discriminate|]. intros (y & (F & _) & _). cbn in F. congruence.
  - destruct (atEol ml s) eqn:E.
    + split.
      * intros H. exists (prev, s). repeat split; assumption.
      * intros (y & (_ & ->) & H). exact H.
    + split; [discriminate|]. intros (y & (F & _) & _). cbn in F. congruence.
  - destruct (xorb (isWordAt prev) (isWordAt (hd_error s))) eqn:E.
    + split.
      * intros H. exists (prev, s). repeat split; assumption.
      * intros (y & (_ & ->) & H). exact H.
    + split; [discriminate|]. intros (y & (F & _) & _). cbn in F. congruence.
  - destruct (m ml a prev s (fun _ _ => Some 0)) eqn:E.
    + split; [discriminate|].
      intros (y & (Hno & _) & _).
      assert (Hs : isSome (m ml a prev s (fun _ _ => Some 0)) = true)
        by (rewrite E; reflexivity).
      apply IHa in Hs. destruct Hs as (z & Hz & _). elim (Hno z Hz).
    + split.
      * intros H. exists (prev, s). split; [|exact H]. split; [|reflexivity].
        intros z Hz.
        assert (Hs : isSome (m ml a prev s (fun _ _ => Some 0)) = true)
          by (apply IHa; exists z; split; [exact Hz | reflexivity]).
        rewrite E in Hs. discriminate.
      * intros (y & (_ & ->) & H). exact H.
Qed.

Lemma matchAt_correct r prev s :
  isSome (matchAt ml r prev s) = true <-> exists y, Match ml r (prev, s) y.
Proof.
  unfold matchAt. rewrite m_correct. split.
  - intros (y & H & _). exists y. exact H.
  - intros (y & H). exists y. split; [exact H | reflexivity].
Qed.

Lemma searchFrom_correct r : forall s prev,
  isSome (searchFrom ml r prev s) = true <->
  exists a w y, s = a ++ w /\ Match ml r (lastOr prev a, w) y.
Proof.
  induction s as [|c s IH]; intros prev; cbn [searchFrom];
    rewrite isSome_orElse, orb_true_iff, matchAt_correct.
  - split.
    + intros [(y & H) | H]; [|discriminate].
      exists [], [], y. split; [reflexivity | exact H].
    + intros (a & w & y & E & H). left.
      symmetry in E. apply app_eq_nil in E. destruct E; subst.
      exists y. exact H.
  - rewrite IH. split.
    + intros [(y & H) | (a & w & y & E & H)].
      * exists [], (c :: s), y. split; [reflexivity | exact H].
      * exists (c :: a), w, y. split; [cbn; rewrite E; reflexivity|].
        change (c :: a) with ([c] ++ a). rewrite lastOr_app. exact H.
    + intros (a & w & y & E & H).
      destruct a as [|d a]; cbn in E.
      * left. subst w. exists y. exact H.
      * right. inversion E; subst. exists a, w, y. split; [reflexivity|].
        change (d :: a) with ([d] ++ a) in H. rewrite lastOr_app in H.
        exact H.
Qed.

End Matcher.

(** [test] on a literal without the [g] and [y] flags: some match starts
    somewhere in the input. *)
Lemma test_correct R S :
  stateless R = true ->
  (test R S = true <-> Found (multiline R) (source R) S).
Proof.
  intros H. unfold test, exec, stateless in *.
  apply negb_true_iff in H. rewrite H.
  apply orb_false_iff in H. destruct H as [_ ->].
  cbn [Nat.ltb Nat.leb skipn]. unfold Found.
  rewrite <- searchFrom_correct.
  destruct (searchFrom _ _ _ _); cbn; split; auto; discriminate.
Qed.

(* ================================================================== *)
(** ** Blank input, and the independence from the shared objects *)

Lemma dropWhile_nil p s : dropWhile p s = [] <-> forallb p s = true.
Proof.
  induction s as [|c s IH]; cbn; [tauto|].
  destruct (p c); cbn; [exact IH|]. split; discriminate.
Qed.

Lemma dropWhile_stops p s c r : dropWhile p s = c :: r -> p c = false.
Proof.
  induction s as [|d s IH]; cbn; [discriminate|].
  destruct (p d) eqn:E; [exact IH|].
  intros H. inversion H; subst. exact E.
Qed.

Lemma forallb_rev {A} (p : A -> bool) l : forallb p (rev l) = forallb p l.
Proof.
  induction l as [|x l IH]; [reflexivity|].
  cbn. rewrite forallb_app, IH. cbn. rewrite andb_true_r. apply andb_comm.
Qed.

(** [s.trim()] is empty exactly when [s] holds white space only. *)
Lemma trim_nil_iff s : trim s = [] <-> forallb isSpace s = true.
Proof.
  unfold trim. split.
  - intros H.
    apply (f_equal (@rev char)) in H. rewrite rev_involutive in H. cbn in H.
    apply dropWhile_nil in H. rewrite forallb_rev in H.
    destruct (dropWhile isSpace s) as [|c r] eqn:E.
    + apply dropWhile_nil. exact E.
    + apply dropWhile_stops in E. cbn in H. rewrite E in H. discriminate.
  - intros H. apply dropWhile_nil in H. rewrite H. reflexivity.
Qed.

(** C2: on an input that is not a string, or whose trimmed form is empty
    (all of it is white space), [detectTextFormat] returns the format plain,
    both scores 0, the ASCII reasons [empty], no markdown reason, no
    [codePenaltyApplied] and no [stats]; no test on a shared object runs: the
    store is left as it was. *)
Theorem detect_blank_input (v : value) (st : Store) :
  match v with
  | VOther => True
  | VString s => trim s = []
  end ->
  detectTextFormat v st
  = (Result.mk "plain" 0 0 (Reasons.mk ["empty"] [] None) None, st).
Proof.
  destruct v as [s|]; cbn [detectTextFormat]; intros H.
  - rewrite H. reflexivity.
  - reflexivity.
Qed.

Lemma detect_blank_input_witness :
  let s := [32; 32; 32; 10; 9; 32]%N in
  trim s = []
  /\ detectTextFormat (VString s) freshStore
     = (Result.mk "plain" 0 0 (Reasons.mk ["empty"] [] None) None, freshStore)
  /\ detectTextFormat (VString []) freshStore
     = (Result.mk "plain" 0 0 (Reasons.mk ["empty"] [] None) None, freshStore)
  /\ detectTextFormat VOther freshStore
     = (Result.mk "plain" 0 0 (Reasons.mk ["empty"] [] None) None, freshStore).
Proof.
  cbv zeta. split; [reflexivity|]. split; [|split].
  - apply (detect_blank_input (VString [32; 32; 32; 10; 9; 32]%N)).
    reflexivity.
  - apply (detect_blank_input (VString [])). reflexivity.
  - apply (detect_blank_input VOther). exact I.
Defined.

(** C9: [detectTextFormat] is deterministic.  Whatever the state of the
    shared objects, a call returns the same result (format, scores, reason
    lists in the same order, stats) and leaves the state as it was, so a
    second call on the same input returns the same result again. *)
Theorem detect_deterministic (v : value) (st st' : Store) :
  fst (detectTextFormat v st) = fst (detectTextFormat v st')
  /\ snd (detectTextFormat v st) = st
  /\ (let (r1, st1) := detectTextFormat v st in
      let (r2, st2) := detectTextFormat v st1 in
      r1 = r2 /\ st2 = st).
Proof.
  rewrite (detectTextFormat_pure v st), (detectTextFormat_pure v st').
  cbn [fst snd]. rewrite (detectTextFormat_pure v st). auto.
Qed.

(* ================================================================== *)
(** ** Matches of literal words and of starred character classes *)

Section Shapes.

Local Open Scope nat_scope.

Variable ml : bool.

Lemma Match_star_chr g p x y :
  Match ml (Star g (Chr p)) x y <->
  exists b, snd x = b ++ snd y /\ forallb p b = true
            /\ fst y = lastOr (fst x) b.
Proof.
  cbn [Match]. split.
  - induction 1 as [x | x y z Hxy _ IH].
    + exists []. repeat split.
    + destruct Hxy as (c & E & Hp & Hf).
      destruct IH as (b & Eb & Hb & Hl).
      exists (c :: b). rewrite E, Eb. split; [reflexivity|].
      split; [cbn; rewrite Hp, Hb; reflexivity|].
      rewrite Hl, Hf. change (c :: b) with ([c] ++ b).
      rewrite lastOr_app. reflexivity.
  - intros (b & E & Hb & Hl). revert x E Hl Hb.
    induction b as [|c b IH]; intros [px sx] E Hl Hb; cbn [fst snd] in *.
    + destruct y as [py sy]. cbn [fst snd lastOr app] in *. subst.
      apply Iter_done.
    + cbn in Hb. apply andb_true_iff in Hb. destruct Hb as [Hc Hb].
      apply Iter_step with (y := (Some c, b ++ snd y)).
      * exists c. cbn [fst snd]. repeat split; assumption.
      * apply IH; cbn [fst snd]; [reflexivity | | exact Hb].
        rewrite Hl. change (c :: b) with ([c] ++ b).
        rewrite lastOr_app. reflexivity.
Qed.

Lemma Match_chars w : forall x y,
  Match ml (chars w) x y <->
  snd x = w ++ snd y /\ fst y = lastOr (fst x) w.
Proof.
  induction w as [|c w IH]; intros [px sx] [py sy]; cbn [chars Match fst snd].
  - cbn. split.
    + intros H. inversion H. split; reflexivity.
    + intros [-> ->]. reflexivity.
  - split.
    + intros ([pz sz] & (d & E & Hd & Hf) & Hw).
      apply IH in Hw. cbn [fst snd] in *. destruct Hw as [E' Hl].
      apply N.eqb_eq in Hd. subst.
      split; [reflexivity|].
      change (d :: w) with ([d] ++ w). rewrite lastOr_app. reflexivity.
    + intros [E Hl]. exists (Some c, w ++ sy). split.
      * exists c. cbn [fst snd]. repeat split; [exact E | apply N.eqb_refl].
      * apply IH. cbn [fst snd]. split; [reflexivity|].
        rewrite Hl. change (c :: w) with ([c] ++ w).
        rewrite lastOr_app. reflexivity.
Qed.

Lemma Match_seq a b x y :
  Match ml (Seq a b) x y <-> exists z, Match ml a x z /\ Match ml b z y.
Proof. reflexivity. Qed.

End Shapes.

(* ================================================================== *)
(** ** Fenced blocks *)

Lemma forallb_any (b : str) : forallb (fun _ => true) b = true.
Proof. induction b; [reflexivity | assumption]. Qed.

Lemma Match_fence ml F x y :
  Match ml (cat [chars F; starLazy any; chars F]) x y <->
  exists b, snd x = F ++ b ++ F ++ snd y
            /\ fst y = lastOr (fst x) (F ++ b ++ F).
Proof.
  unfold cat, starLazy, any. cbn [fold_right].
  rewrite Match_seq. split.
  - intros (z1 & H1 & H). rewrite Match_seq in H.
    destruct H as (z2 & H2 & H). rewrite Match_seq in H.
    destruct H as (z3 & H3 & H). cbn [Match] in H. subst z3.
    apply Match_chars in H1. apply Match_star_chr in H2.
    apply Match_chars in H3.
    destruct H1 as [E1 L1], H2 as (b & E2 & _ & L2), H3 as [E3 L3].
    exists b. rewrite E1, E2, E3, L3, L2, L1, !lastOr_app.
    split; reflexivity.
  - intros (b & E & L).
    exists (lastOr (fst x) F, b ++ F ++ snd y).
    split; [apply Match_chars; split; [exact E | reflexivity]|].
    rewrite Match_seq.
    exists (lastOr (lastOr (fst x) F) b, F ++ snd y).
    split.
    { apply Match_star_chr. exists b. cbn [fst snd].
      repeat split. apply forallb_any. }
    rewrite Match_seq. exists y. split; [|reflexivity].
    apply Match_chars. cbn [fst snd]. split; [reflexivity|].
    rewrite L, !lastOr_app. reflexivity.
Qed.

(** The fenced fast path fires exactly on the texts that hold a balanced
    fenced block. *)
Lemma fenced_test_iff text : test fencedRe text = true <-> fencedBlock text.
Proof.
  rewrite test_correct by reflexivity.
  unfold Found, fencedBlock, fences. cbn [source multiline fencedRe re_m].
  unfold word. split.
  - intros (a & w & y & E & H). cbn [Match] in H.
    destruct H as [H | H]; apply Match_fence in H;
      destruct H as (b & Ew & _); cbn [snd] in Ew.
    + exists (lit "```"), a, b, (snd y). split; [left; reflexivity|].
      rewrite E, Ew. reflexivity.
    + exists (lit "~~~"), a, b, (snd y). split; [right; left; reflexivity|].
      rewrite E, Ew. reflexivity.
  - intros (F & a & b & c & HF & E).
    exists a, (F ++ b ++ F ++ c), (lastOr (lastOr None a) (F ++ b ++ F), c).
    split; [exact E|].
    destruct HF as [<- | [<- | []]].
    + left. apply Match_fence. exists b. split; reflexivity.
    + right. apply Match_fence. exists b. split; reflexivity.
Qed.

Lemma fencedBlock_not_blank text : fencedBlock text -> trim text <> [].
Proof.
  intros (F & a & b & c & HF & E) H.
  apply trim_nil_iff in H. rewrite E, !forallb_app in H.
  apply andb_true_iff in H. destruct H as [_ H].
  apply andb_true_iff in H. destruct H as [H _].
  destruct HF as [<- | [<- | []]]; discriminate H.
Qed.

Lemma valueOf_not_blank text :
  trim text <> [] -> valueOf (VString text) = resultOf text.
Proof.
  intros H. cbn [valueOf]. destruct (trim text); [contradiction | reflexivity].
Qed.

(** C3: a string that holds a balanced fenced block (a pair of triple
    backticks or of triple tildes, with anything between them, line feeds
    included) is classified as code, whatever the two scores are: the test
    for a fenced block comes first in the chain that chooses the format,
    before the xml, html and json tests and before the scores are
    compared. *)
Theorem fenced_block_is_code (text : str) (st : Store) :
  fencedBlock text ->
  (forall asciiFinal mdFinal, chooseFormat text asciiFinal mdFinal = "code")
  /\ Result.text_format (fst (detectTextFormat (VString text) st)) = "code".
Proof.
  intros H.
  assert (Hc : forall x y, chooseFormat text x y = "code").
  { intros x y. unfold chooseFormat.
    apply fenced_test_iff in H. rewrite H. reflexivity. }
  split; [exact Hc|].
  rewrite (detectTextFormat_pure _ st). cbn [fst].
  rewrite (valueOf_not_blank text (fencedBlock_not_blank text H)).
  apply Hc.
Qed.

(** A heading, then a fenced block that spans lines and wraps a line on
    which the json test fires. *)
Lemma fenced_block_is_code_witness :
  let text := lit "# T" ++ [LF] ++ lit "```" ++ [LF] ++ lit "{}" ++ [LF]
              ++ lit "```" in
  fencedBlock text
  /\ Result.text_format (fst (detectTextFormat (VString text) freshStore))
     = "code".
Proof.
  cbv zeta.
  assert (H : fencedBlock (lit "# T" ++ [LF] ++ lit "```" ++ [LF] ++ lit "{}"
                           ++ [LF] ++ lit "```")).
  { exists (lit "```"), (lit "# T" ++ [LF]), ([LF] ++ lit "{}" ++ [LF]), [].
    split; [left; reflexivity | reflexivity]. }
  split; [exact H|].
  exact (proj2 (fenced_block_is_code _ freshStore H)).
Defined.

(* ================================================================== *)
(** ** The comparison of the scores *)

Lemma detect_not_blank text st :
  trim text <> [] ->
  fst (detectTextFormat (VString text) st) = resultOf text.
Proof.
  intros H. rewrite (detectTextFormat_pure _ st). cbn [fst].
  apply valueOf_not_blank. exact H.
Qed.

Lemma asciiArtScore_value text st :
  fst (asciiArtScore text st) = asciiArtValue text.
Proof. rewrite (asciiArtScore_pure text st). reflexivity. Qed.

Lemma markdownScore_value text st :
  fst (markdownScore text st) = markdownValue text.
Proof. rewrite (markdownScore_pure text st). reflexivity. Qed.

(** C4: on a string that is not blank and on which none of the four quick
    detections fires, the format is ascii exactly when the final ASCII score
    (the score less the code penalty, not below 0) is at least 0.35 and
    greater than the markdown score plus 0.1; failing that it is markdown
    exactly when the markdown score is at least 0.08 and at least the final
    ASCII score; failing both it is plain. *)
Theorem score_comparison (text : str) (st : Store) :
  trim text <> [] ->
  test fencedRe text = false ->
  test xmlRe text = false ->
  test htmlRe text = false ->
  test jsonRe text = false ->
  let asciiFinal :=
    Num.max 0 (AScore.score (fst (asciiArtScore text st))
               - codeLikePenalty text) in
  let mdFinal := MScore.score (fst (markdownScore text st)) in
  let isAscii := (0.35 <=? asciiFinal) && (mdFinal + 0.1 <? asciiFinal) in
  let isMarkdown := (0.08 <=? mdFinal) && (asciiFinal <=? mdFinal) in
  let format := Result.text_format (fst (detectTextFormat (VString text) st)) in
  (format = "ascii" <-> isAscii = true)
  /\ (format = "markdown" <-> isAscii = false /\ isMarkdown = true)
  /\ (format = "plain" <-> isAscii = false /\ isMarkdown = false).
Proof.
  intros Hb Hf Hx Hh Hj. cbv zeta.
  rewrite (detect_not_blank text st Hb).
  rewrite asciiArtScore_value, markdownScore_value.
  unfold resultOf. cbn [Result.text_format].
  unfold chooseFormat, ASCII_TH, MD_TH. rewrite Hf, Hx, Hh, Hj.
  destruct (_ && _); [|destruct (_ && _)];
    repeat split; intros; try discriminate; try reflexivity;
    try (destruct H; discriminate).
Qed.

Lemma score_comparison_witness :
  let text := lit "# Title" ++ [LF; LF] ++ lit "Some content here" in
  trim text <> []
  /\ Result.text_format (fst (detectTextFormat (VString text) freshStore))
     = "markdown".
Proof.
  cbv zeta.
  assert (Hb : trim (lit "# Title" ++ [LF; LF] ++ lit "Some content here")
               <> []) by (vm_compute; discriminate).
  split; [exact Hb|].
  apply (proj1 (proj2 (score_comparison _ freshStore Hb
                         eq_refl eq_refl eq_refl eq_refl))).
  vm_compute. split; reflexivity.
Defined.

(** The thresholds are compared with the scores as computed in binary64,
    before they are rounded for the result.  A heading and two lines of 141
    letters give the markdown score [0.18 - 0.1], which is less than [0.08]
    in binary64 and which the result shows as 0.08; the format is plain. *)
Example score_comparison_before_rounding :
  let text := lit "# T" ++ [LF] ++ repeat (cu "a") 141 ++ [LF]
              ++ repeat (cu "a") 141 in
  let r := detect (VString text) in
  (MScore.score (fst (markdownScore text freshStore)) <? MD_TH) = true
  /\ Result.markdown r = 0.08
  /\ Result.asciiArt r = 0.05
  /\ Result.text_format r = "plain".
Proof. cbv zeta. repeat split; vm_compute; reflexivity. Qed.

(* ================================================================== *)
(** ** Texts of fewer than three lines *)

Lemma asciiArtValue_few text :
  fewLines text -> asciiArtValue text = AScore.mk 0 ["too_few_lines"] None.
Proof.
  unfold fewLines, asciiArtValue. intros H.
  apply Nat.ltb_lt in H. rewrite H. reflexivity.
Qed.

Lemma final_of_zero p : In p penalties -> Num.max 0 (0 - p) = 0.
Proof. intros [<- | [<- | []]]; vm_compute; reflexivity. Qed.

Lemma chooseFormat_zero text y :
  In (chooseFormat text 0 y) otherTags.
Proof.
  unfold chooseFormat, otherTags.
  replace (ASCII_TH <=? 0) with false by (vm_compute; reflexivity).
  cbn [andb].
  repeat match goal with
         | |- context [if ?b then _ else _] => destruct b
         end; cbn; tauto.
Qed.

Lemma few_lines_example (text : str) (tag : string) :
  (List.length (split_nl (normalize text)) <? 3)%nat = true ->
  Result.text_format (valueOf (VString text)) = tag ->
  negb (String.eqb tag "plain") = true ->
  exists t, trim t <> [] /\ fewLines t
            /\ forall st, Result.text_format
                            (fst (detectTextFormat (VString t) st)) = tag.
Proof.
  intros Hl Ht Hn. exists text.
  assert (Hb : trim text <> []).
  { intros E. cbn [valueOf] in Ht. rewrite E in Ht. cbn in Ht.
    subst tag. discriminate Hn. }
  split; [exact Hb|]. split; [apply Nat.ltb_lt; exact Hl|].
  intros st. rewrite (detectTextFormat_pure _ st). exact Ht.
Qed.

(** C10: on a string that is not blank and has fewer than three lines once
    its line endings are unified, [asciiArtScore] returns the score 0 with
    the sole reason [too_few_lines] and no stats; the final ASCII score is 0
    whatever the penalty, so the format is never ascii.  Each of the six
    other formats is returned on some such string. *)
Theorem few_lines_never_ascii (text : str) (st : Store) :
  trim text <> [] ->
  fewLines text ->
  let r := fst (detectTextFormat (VString text) st) in
  fst (asciiArtScore text st) = AScore.mk 0 ["too_few_lines"] None
  /\ Num.max 0 (AScore.score (fst (asciiArtScore text st))
                - codeLikePenalty text) = 0
  /\ Result.asciiArt r = 0
  /\ Reasons.ascii (Result.reasons r) = ["too_few_lines"]
  /\ Result.stats r = None
  /\ Result.text_format r <> "ascii"
  /\ In (Result.text_format r) otherTags
  /\ (forall tag, In tag otherTags ->
        exists t, trim t <> [] /\ fewLines t
                  /\ forall st', Result.text_format
                                   (fst (detectTextFormat (VString t) st'))
                                 = tag).
Proof.
  intros Hb Hf. cbv zeta.
  rewrite (detect_not_blank text st Hb), asciiArtScore_value.
  unfold resultOf. rewrite (asciiArtValue_few text Hf).
  cbn [AScore.score AScore.reasons AScore.stats Result.asciiArt
       Result.reasons Result.stats Result.text_format Reasons.ascii].
  rewrite (final_of_zero _ (codeLikePenalty_cases text)).
  pose proof (chooseFormat_zero text (MScore.score (markdownValue text))) as Hc.
  repeat split; try reflexivity.
  - intros E. rewrite E in Hc. cbn in Hc. intuition discriminate.
  - exact Hc.
  - intros tag Ht. cbn in Ht.
    destruct Ht as [<- | [<- | [<- | [<- | [<- | [<- | []]]]]]].
    + apply (few_lines_example (lit "```a```")); reflexivity.
    + apply (few_lines_example (lit "<?xml?>")); reflexivity.
    + apply (few_lines_example (lit "<p>")); reflexivity.
    + apply (few_lines_example (lit "[1]")); reflexivity.
    + apply (few_lines_example (lit "# T")); reflexivity.
    + exists (lit "Hi"). split; [vm_compute; discriminate|].
      split; [vm_compute; lia|].
      intros st'. rewrite (detectTextFormat_pure _ st'). reflexivity.
Qed.

Lemma few_lines_never_ascii_witness :
  let text := lit "+--+" ++ [LF] ++ lit "+--+" in
  trim text <> [] /\ fewLines text
  /\ Result.text_format (fst (detectTextFormat (VString text) freshStore))
     <> "ascii"
  /\ exists t, trim t <> [] /\ fewLines t
               /\ forall st, Result.text_format
                               (fst (detectTextFormat (VString t) st))
                             = "json".
Proof.
  cbv zeta.
  assert (Hb : trim (lit "+--+" ++ [LF] ++ lit "+--+") <> [])
    by (vm_compute; discriminate).
  assert (Hf : fewLines (lit "+--+" ++ [LF] ++ lit "+--+"))
    by (vm_compute; lia).
  pose proof (few_lines_never_ascii _ freshStore Hb Hf) as H.
  cbv zeta in H.
  destruct H as (_ & _ & _ & _ & _ & Hn & _ & Hex).
  split; [exact Hb|]. split; [exact Hf|]. split; [exact Hn|].
  apply Hex. cbn. tauto.
Defined.

(* ================================================================== *)
(** ** The code penalty *)

Lemma codeHits_from ls : forall k,
  fold_left (fun acc l => (acc + (if codeLine l then 1 else 0))%nat) ls k
  = (k + count codeLine ls)%nat.
Proof.
  unfold count.
  induction ls as [|l ls IH]; intros k; cbn [fold_left filter].
  - cbn. lia.
  - rewrite IH. destruct (codeLine l); cbn [List.length]; lia.
Qed.

(** The number added up by [reduce] is the number of lines that match at
    least one hint. *)
Lemma codeHits_count ls : codeHits ls = count codeLine ls.
Proof. unfold codeHits. rewrite codeHits_from. reflexivity. Qed.

Lemma penalty_values_differ : (0.15 : float) <> 0.
Proof.
  intros E. apply (f_equal (fun x => 0 <? x)) in E.
  vm_compute in E. discriminate E.
Qed.

Lemma checkFrom_spec f : forall fuel i j,
  checkFrom f fuel i = true ->
  (i <= j)%N -> (j < i + N.of_nat fuel)%N -> f j = true.
Proof.
  induction fuel as [|k IH]; intros i j H Hi Hj; [lia|].
  cbn [checkFrom] in H. apply andb_true_iff in H. destruct H as [Hf Hr].
  destruct (N.eq_dec i j) as [<- | Hne]; [exact Hf|].
  apply (IH (N.succ i)); [exact Hr | lia | lia].
Qed.



(* ================================================================== *)
(** ** The order of the markdown reasons *)

Lemma scanBits_hits outcomes : forall hits score,
  fst (scanBits outcomes hits score)
  = hits ++ map fst (filter snd outcomes).
Proof.
  induction outcomes as [|[name b] rest IH]; intros hits score;
    cbn [scanBits filter snd map fst].
  - rewrite app_nil_r. reflexivity.
  - destruct b; rewrite IH; [|reflexivity].
    cbn [map fst]. rewrite <- app_assoc. reflexivity.
Qed.

Lemma testIn_head name R rest raw :
  testIn ((name, R) :: rest) name raw = test R raw.
Proof. unfold testIn. cbn. rewrite String.eqb_refl. reflexivity. Qed.

Lemma testIn_tail name R rest n raw :
  n <> name -> testIn ((name, R) :: rest) n raw = testIn rest n raw.
Proof.
  intros H. unfold testIn. cbn [find fst].
  destruct (String.eqb name n) eqn:E; [|reflexivity].
  apply String.eqb_eq in E. congruence.
Qed.

(** The names of the patterns that match, in the order of the catalog. *)
Lemma matched_names features raw :
  NoDup (map fst features) ->
  map fst (filter snd (outcomesOf features raw))
  = filter (fun n => testIn features n raw) (map fst features).
Proof.
  induction features as [|[name R] rest IH]; intros Hnd; [reflexivity|].
  cbn [map fst] in Hnd. inversion Hnd as [|? ? Hnotin Hrest]; subst.
  cbn [outcomesOf map filter fst snd]. rewrite testIn_head.
  assert (E : filter (fun n => testIn ((name, R) :: rest) n raw) (map fst rest)
              = filter (fun n => testIn rest n raw) (map fst rest)).
  { apply filter_ext_in. intros n Hn. apply testIn_tail.
    intros ->. contradiction. }
  fold (outcomesOf rest raw).
  destruct (test R raw); cbn [map fst]; rewrite E, (IH Hrest); reflexivity.
Qed.

Lemma MD_names : map fst MD = catalogOrder.
Proof. reflexivity. Qed.

Lemma catalogOrder_NoDup : NoDup catalogOrder.
Proof.
  unfold catalogOrder.
  repeat (constructor; [cbn; intuition discriminate|]). constructor.
Qed.

Lemma markdownValue_reasons text :
  MScore.reasons (markdownValue text)
  = filter (fun n => mdTest n (normalize text)) catalogOrder.
Proof.
  unfold markdownValue, mdFinish. cbn [MScore.reasons].
  rewrite scanBits_hits. cbn [app].
  rewrite matched_names by (rewrite MD_names; apply catalogOrder_NoDup).
  rewrite MD_names. reflexivity.
Qed.

Lemma filter_before {A} (p : A -> bool) (x y : A) l1 l2 l3 :
  p x = true -> p y = true ->
  exists k1 k2 k3,
    filter p (l1 ++ x :: l2 ++ y :: l3) = k1 ++ x :: k2 ++ y :: k3.
Proof.
  intros Hx Hy.
  exists (filter p l1), (filter p l2), (filter p l3).
  rewrite filter_app. cbn [filter]. rewrite Hx.
  rewrite filter_app. cbn [filter]. rewrite Hy. reflexivity.
Qed.

(** C8, as the code has it: the markdown reasons of the result are the
    names of the patterns that match the text (line endings unified), in the
    order in which the catalog [MD] declares them: heading, setext, list,
    blockquote, fenced, inlineCode, link, image, tableRow, hr, emphasis,
    html, frontMatter.  On a text that matches both the list and the setext
    pattern, setext comes before list. *)
Theorem markdown_reasons_in_catalog_order (text : str) (st : Store) :
  trim text <> [] ->
  let raw := normalize text in
  let reasons :=
    Reasons.markdown
      (Result.reasons (fst (detectTextFormat (VString text) st))) in
  reasons = MScore.reasons (fst (markdownScore text st))
  /\ reasons = filter (fun name => mdTest name raw) catalogOrder
  /\ (mdTest "list" raw = true -> mdTest "setext" raw = true ->
      before "setext" "list" reasons).
Proof.
  intros Hb. cbv zeta.
  rewrite (detect_not_blank text st Hb), markdownScore_value.
  unfold resultOf. cbn [Result.reasons Reasons.markdown].
  split; [reflexivity|].
  split; [apply markdownValue_reasons|].
  intros Hl Hs. rewrite markdownValue_reasons.
  apply (filter_before (fun name => mdTest name (normalize text))
           "setext" "list" ["heading"] []
           ["blockquote"; "fenced"; "inlineCode"; "link"; "image";
            "tableRow"; "hr"; "emphasis"; "html"; "frontMatter"]);
    assumption.
Qed.

Lemma markdown_reasons_in_catalog_order_witness :
  let text := lit "- a" ++ [LF] ++ lit "---" in
  trim text <> []
  /\ mdTest "list" (normalize text) = true
  /\ mdTest "setext" (normalize text) = true
  /\ before "setext" "list"
       (Reasons.markdown
          (Result.reasons (fst (detectTextFormat (VString text) freshStore)))).
Proof.
  cbv zeta.
  assert (Hb : trim (lit "- a" ++ [LF] ++ lit "---") <> [])
    by (vm_compute; discriminate).
  split; [exact Hb|]. split; [reflexivity|]. split; [reflexivity|].
  apply (proj2 (proj2 (markdown_reasons_in_catalog_order _ freshStore Hb)));
    reflexivity.
Defined.

Ltac split_list_eq :=
  repeat match goal with
    | H : _ :: _ = _ :: _ |- _ => injection H; clear H; intros
    | H : [] = _ ++ _ :: _ |- _ => destruct (app_cons_not_nil _ _ _ H)
    | H : _ :: _ = ?l ++ _ :: _ |- _ => destruct l; cbn [app] in H
    | H : _ :: _ = [] |- _ => discriminate H
    end.

Lemma list_not_before_setext :
  ~ before "list" "setext" ["setext"; "list"; "hr"].
Proof.
  intros (l1 & l2 & l3 & E).
  split_list_eq; congruence.
Qed.

(** C8, as stated, fails: on the two lines [- a] and [---] the list, setext
    and hr patterns match, and the reasons are setext, list, hr; they are
    not the matched features in the order of the specification, in which
    list comes before setext. *)
Lemma markdown_reasons_spec_order_fails :
  let text := lit "- a" ++ [LF] ++ lit "---" in
  let raw := normalize text in
  let reasons :=
    Reasons.markdown (Result.reasons (detect (VString text))) in
  mdTest "list" raw = true
  /\ mdTest "setext" raw = true
  /\ reasons = ["setext"; "list"; "hr"]
  /\ filter (fun name => mdTest name raw) specOrder = ["list"; "setext"; "hr"]
  /\ reasons <> filter (fun name => mdTest name raw) specOrder
  /\ ~ before "list" "setext" reasons.
Proof.
  cbv zeta.
  assert (Hr : Reasons.markdown
                 (Result.reasons
                    (detect (VString (lit "- a" ++ [LF] ++ lit "---"))))
               = ["setext"; "list"; "hr"]) by (vm_compute; reflexivity).
  assert (Hs : filter (fun name =>
                         mdTest name (normalize (lit "- a" ++ [LF] ++ lit "---")))
                      specOrder
               = ["list"; "setext"; "hr"]) by (vm_compute; reflexivity).
  rewrite Hr, Hs.
  repeat split; try reflexivity.
  - discriminate.
  - apply list_not_before_setext.
Qed.

(* ================================================================== *)
(** ** Border-like lines *)

Lemma has_In set c : has set c = true <-> In c set.
Proof.
  unfold has. rewrite existsb_exists. split.
  - intros (x & Hx & E). apply N.eqb_eq in E. subst. exact Hx.
  - intros H. exists c. split; [exact H | apply N.eqb_refl].
Qed.

Lemma allSame_iff t : allSame t = true <-> forall x, In x t -> x = hd 0%N t.
Proof.
  unfold allSame. rewrite forallb_forall. split; intros H x Hx.
  - apply N.eqb_eq. apply H. exact Hx.
  - apply N.eqb_eq. apply H. exact Hx.
Qed.

Lemma ratioCheck_spec (bound : nat) (n c : N) :
  ratioCheck bound = true ->
  (1 <= n)%N -> (n <= N.of_nat bound)%N -> (c <= n)%N ->
  ratioOK n c = true.
Proof.
  unfold ratioCheck. intros H H1 Hn Hc.
  apply (checkFrom_spec _ _ _ n) in H; [|lia|lia].
  apply (checkFrom_spec _ _ _ c) in H; [exact H|lia|lia].
Qed.

Lemma ratio_checked : ratioCheck ratioBound = true.
Proof. vm_compute. reflexivity. Qed.

(** On a trimmed line of up to 300 code units the test of the code, a
    division and a comparison in binary64, is the test on the integers:
    four times the length is at most five times the number of border
    characters. *)
Lemma mostlyBorder_exact t :
  (1 <= List.length t <= ratioBound)%nat ->
  mostlyBorder t
  = (4 * List.length t <=? 5 * count (has BORDER_CHARS) t)%nat.
Proof.
  intros Hl. unfold mostlyBorder, Num.ofNat.
  set (n := List.length t) in *. set (c := count (has BORDER_CHARS) t).
  assert (Hc : (c <= n)%nat) by apply filter_length_le.
  assert (H : ratioOK (N.of_nat n) (N.of_nat c) = true)
    by (apply (ratioCheck_spec ratioBound); [apply ratio_checked|lia|lia|lia]).
  unfold ratioOK in H. apply Bool.eqb_prop in H.
  rewrite !nat_N_Z in H. rewrite H.
  destruct (4 * n <=? 5 * c)%nat eqn:E.
  - apply Nat.leb_le in E. apply N.leb_le. lia.
  - apply Nat.leb_gt in E. apply N.leb_gt. lia.
Qed.

(** C6, as the code has it: a line counts as border-like exactly when its
    trimmed form has three code units or more, its first and its last code
    unit are border characters, and either at least 80% of its code units
    are border characters or all of them are identical.  That is the test
    of the specification on the lines that begin and end with a border
    character; a line of identical characters counts only if that
    character is a border character. *)
Theorem border_like_iff (c : Counts) (line : str) :
  let t := trim line in
  (borders (lineStep c line) = S (borders c) <->
   (3 <= List.length t)%nat
   /\ In (hd 0%N t) BORDER_CHARS
   /\ In (last t 0%N) BORDER_CHARS
   /\ ((0.8 <=? Num.ofNat (count (has BORDER_CHARS) t)
                / Num.ofNat (List.length t)) = true
       \/ forall x, In x t -> x = hd 0%N t))
  /\ (borders (lineStep c line) <> S (borders c) ->
      borders (lineStep c line) = borders c)
  /\ (borderLike t = true <->
      specBorderLike t = true
      /\ In (hd 0%N t) BORDER_CHARS /\ In (last t 0%N) BORDER_CHARS)
  /\ ((List.length t <= ratioBound)%nat ->
      (borders (lineStep c line) = S (borders c) <->
       (3 <= List.length t)%nat
       /\ In (hd 0%N t) BORDER_CHARS
       /\ In (last t 0%N) BORDER_CHARS
       /\ ((4 * List.length t <= 5 * count (has BORDER_CHARS) t)%nat
           \/ forall x, In x t -> x = hd 0%N t))).
Proof.
  cbv zeta. set (t := trim line).
  assert (Hstep : borders (lineStep c line) = incrIf (borderLike t) (borders c))
    by reflexivity.
  assert (Hincr : borders (lineStep c line) = S (borders c)
                  <-> borderLike t = true).
  { rewrite Hstep. unfold incrIf. destruct (borderLike t); split; intros H;
      try reflexivity; try discriminate. lia. }
  assert (Hcode : borderLike t = true <->
                  (3 <= List.length t)%nat
                  /\ In (hd 0%N t) BORDER_CHARS
                  /\ In (last t 0%N) BORDER_CHARS
                  /\ (mostlyBorder t = true
                      \/ forall x, In x t -> x = hd 0%N t)).
  { unfold borderLike.
    rewrite !andb_true_iff, orb_true_iff, Nat.leb_le, !has_In, allSame_iff.
    tauto. }
  split; [rewrite Hincr; exact Hcode|].
  split.
  { rewrite Hstep. unfold incrIf. destruct (borderLike t); [|reflexivity].
    intros H. elim H. reflexivity. }
  split.
  { rewrite Hcode. unfold specBorderLike.
    rewrite !andb_true_iff, !orb_true_iff, !andb_true_iff, Nat.leb_le,
      !has_In, allSame_iff.
    tauto. }
  intros Hl. rewrite Hincr, Hcode. split.
  - intros (H3 & Hf & Hla & Hm). repeat split; try assumption.
    rewrite mostlyBorder_exact in Hm by lia.
    rewrite Nat.leb_le in Hm. exact Hm.
  - intros (H3 & Hf & Hla & Hm). repeat split; try assumption.
    rewrite mostlyBorder_exact by lia.
    rewrite Nat.leb_le. exact Hm.
Qed.

(** A rule of dashes between two plus signs, and a line of letters. *)
Lemma border_like_iff_witness :
  borders (lineStep noCounts (lit "  +--+ ")) = 1%nat
  /\ borders (lineStep noCounts (lit "aaaa")) = 0%nat
  /\ (4 * List.length (trim (lit "  +--+ "))
      <= 5 * count (has BORDER_CHARS) (trim (lit "  +--+ ")))%nat.
Proof.
  split; [|split].
  - apply (proj1 (border_like_iff noCounts (lit "  +--+ "))).
    split; [vm_compute; lia|].
    split; [vm_compute; tauto|]. split; [vm_compute; tauto|].
    left. vm_compute. reflexivity.
  - apply (proj1 (proj2 (border_like_iff noCounts (lit "aaaa")))).
    vm_compute. discriminate.
  - assert (Hl : (List.length (trim (lit "  +--+ ")) <= ratioBound)%nat)
      by (apply Nat.leb_le; reflexivity).
    pose proof (proj2 (proj2 (proj2
                  (border_like_iff noCounts (lit "  +--+ "))))) as H.
    cbv zeta in H.
    destruct (proj1 (H Hl) eq_refl) as (_ & _ & _ & [Hm | Hs]); [exact Hm|].
    apply Nat.leb_le. reflexivity.
Defined.

(** C6, as stated, fails on the line [aaaa]: it passes the test of the
    specification, all its characters being identical, and the code does
    not count it; three such lines do not earn [border_like_lines]. *)
Lemma border_like_spec_fails :
  let line := lit "aaaa" in
  let text := line ++ [LF] ++ line ++ [LF] ++ line in
  specBorderLike (trim line) = true
  /\ borderLike (trim line) = false
  /\ borders (lineStep noCounts line) = 0%nat
  /\ borders (lineCounts (split_nl (normalize text))) = 0%nat
  /\ AScore.reasons (fst (asciiArtScore text freshStore)) = ["very_text_heavy"].
Proof. cbv zeta. repeat split; vm_compute; reflexivity. Qed.

(* ================================================================== *)
(** ** The json test *)

Lemma Match_star_chr_intro ml g p prev b s :
  forallb p b = true ->
  Match ml (Star g (Chr p)) (prev, b ++ s) (lastOr prev b, s).
Proof.
  intros H. apply Match_star_chr. exists b. repeat split. exact H.
Qed.

Lemma Match_chr_intro ml (p : char -> bool) prev c s :
  p c = true -> Match ml (Chr p) (prev, c :: s) (Some c, s).
Proof. intros H. exists c. repeat split. exact H. Qed.

Lemma Match_json x post :
  (exists y, snd y = post /\ Match true (source jsonRe) x y) <->
  exists ws o body c ws',
    snd x = ws ++ o :: body ++ c :: ws' ++ post
    /\ atBol true (fst x) = true
    /\ forallb isSpace ws = true
    /\ In o (lit "{[")
    /\ In c (lit "]}")
    /\ forallb isSpace ws' = true
    /\ atEol true post = true.
Proof.
  cbn [source jsonRe re_m]. unfold cat, star, space, any, oneOf.
  cbn [fold_right]. split.
  - intros (y & <- & H).
    apply Match_seq in H. destruct H as (z1 & (Hbol & ->) & H).
    apply Match_seq in H. destruct H as (z2 & H2 & H).
    apply Match_seq in H. destruct H as (z3 & H3 & H).
    apply Match_seq in H. destruct H as (z4 & H4 & H).
    apply Match_seq in H. destruct H as (z5 & H5 & H).
    apply Match_seq in H. destruct H as (z6 & H6 & H).
    apply Match_seq in H. destruct H as (z7 & (Heol & ->) & H).
    cbn [Match] in H. subst z6.
    apply Match_star_chr in H2. destruct H2 as (ws & E2 & Hws & _).
    destruct H3 as (o & E3 & Ho & _).
    apply Match_star_chr in H4. destruct H4 as (body & E4 & _ & _).
    destruct H5 as (c & E5 & Hc & _).
    apply Match_star_chr in H6. destruct H6 as (ws' & E6 & Hws' & _).
    exists ws, o, body, c, ws'.
    rewrite E2, E3, E4, E5, E6.
    apply has_In in Ho. apply has_In in Hc.
    repeat split; assumption.
  - intros (ws & o & body & c & ws' & E & Hbol & Hws & Ho & Hc & Hws' & Heol).
    destruct x as [px sx]. cbn [fst snd] in *. subst sx.
    apply has_In in Ho. apply has_In in Hc.
    exists (lastOr (Some c) ws', post). split; [reflexivity|].
    apply Match_seq. exists (px, ws ++ o :: body ++ c :: ws' ++ post).
    split; [split; [exact Hbol | reflexivity]|].
    apply Match_seq. eexists. split; [apply Match_star_chr_intro; exact Hws|].
    apply Match_seq. eexists. split; [apply Match_chr_intro; exact Ho|].
    apply Match_seq. eexists.
    split; [apply Match_star_chr_intro; apply forallb_any|].
    apply Match_seq. eexists. split; [apply Match_chr_intro; exact Hc|].
    apply Match_seq. eexists. split; [apply Match_star_chr_intro; exact Hws'|].
    apply Match_seq. eexists. split; [split; [exact Heol | reflexivity]|].
    reflexivity.
Qed.

(** The json test fires exactly on the texts of that shape. *)
Lemma json_test_iff text : test jsonRe text = true <-> jsonShape text.
Proof.
  rewrite test_correct by reflexivity.
  unfold Found, jsonShape. cbn [multiline jsonRe re_m]. split.
  - intros (a & w & y & E & H).
    assert (Hy : exists y', snd y' = snd y
                            /\ Match true (source jsonRe) (lastOr None a, w) y')
      by (exists y; split; [reflexivity | exact H]).
    apply Match_json in Hy.
    destruct Hy as (ws & o & body & c & ws' & Ew & Hrest).
    cbn [fst snd] in *.
    exists a, ws, o, body, c, ws', (snd y).
    split; [rewrite E, Ew; reflexivity | exact Hrest].
  - intros (pre & ws & o & body & c & ws' & post & E & Hrest).
    assert (Hy : exists y, snd y = post
                           /\ Match true (source jsonRe)
                                (lastOr None pre,
                                 ws ++ o :: body ++ c :: ws' ++ post) y).
    { apply Match_json. exists ws, o, body, c, ws'.
      split; [reflexivity | exact Hrest]. }
    destruct Hy as (y & _ & H).
    exists pre, (ws ++ o :: body ++ c :: ws' ++ post), y.
    split; [exact E | exact H].
Qed.

(** A line of [split_nl] sits in the text at the start of a line. *)
Lemma splitOn_In s : forall acc line,
  In line (splitOn acc s) ->
  exists pre rest,
    rev acc ++ s = pre ++ line ++ rest
    /\ atBol true (lastOr None pre) = true.
Proof.
  induction s as [|c r IH]; intros acc line Hin; cbn [splitOn] in Hin.
  - destruct Hin as [<- | []]. exists [], [].
    rewrite !app_nil_r. split; reflexivity.
  - destruct (N.eqb c 10) eqn:Ec.
    + apply N.eqb_eq in Ec. subst c. destruct Hin as [<- | Hin].
      * exists [], (10%N :: r). split; reflexivity.
      * destruct (IH [] line Hin) as (pre & rest & E & Hb).
        cbn [rev app] in E.
        exists (rev acc ++ [10%N] ++ pre), rest. split.
        -- rewrite E, <- !app_assoc. reflexivity.
        -- rewrite !lastOr_app. destruct pre as [|d pre]; [reflexivity|].
           exact Hb.
    + destruct (IH (c :: acc) line Hin) as (pre & rest & E & Hb).
      exists pre, rest. split; [|exact Hb].
      rewrite <- E. cbn [rev]. rewrite <- app_assoc. reflexivity.
Qed.

Lemma dropWhile_prefix p s :
  exists ws, s = ws ++ dropWhile p s /\ forallb p ws = true.
Proof.
  induction s as [|c s (ws & E & Hws)]; [exists []; split; reflexivity|].
  cbn [dropWhile]. destruct (p c) eqn:Hc.
  - exists (c :: ws). cbn. rewrite Hc, Hws, <- E. split; reflexivity.
  - exists []. split; reflexivity.
Qed.

Lemma opens_ends_shape text line o c :
  In line (split_nl text) ->
  lineOpensWith o line = true ->
  endsWith c text = true ->
  o <> c ->
  exists pre ws body,
    text = pre ++ ws ++ o :: body ++ [c]
    /\ atBol true (lastOr None pre) = true
    /\ forallb isSpace ws = true.
Proof.
  intros Hin Ho Hc Hne.
  destruct (splitOn_In text [] line Hin) as (pre & rest & E & Hb).
  cbn [rev app] in E.
  unfold lineOpensWith in Ho.
  destruct (dropWhile_prefix isSpace line) as (ws & El & Hws).
  destruct (dropWhile isSpace line) as [|d tl]; [discriminate|].
  apply N.eqb_eq in Ho. subst d.
  unfold endsWith in Hc.
  destruct (rev text) as [|x front] eqn:Er; [discriminate|].
  apply N.eqb_eq in Hc. subst x.
  apply (f_equal (@rev char)) in Er. rewrite rev_involutive in Er.
  cbn [rev] in Er.
  assert (Et : text = pre ++ ws ++ o :: (tl ++ rest)).
  { rewrite E, El, <- !app_assoc. reflexivity. }
  destruct (tl ++ rest) as [|y l] eqn:Etl.
  - exfalso. rewrite Et in Er.
    replace (pre ++ ws ++ [o]) with ((pre ++ ws) ++ [o]) in Er
      by (rewrite <- app_assoc; reflexivity).
    apply app_inj_tail in Er. destruct Er as [_ Er]. congruence.
  - destruct (exists_last (l := y :: l)) as (body & z & Eb); [discriminate|].
    rewrite Eb in Et.
    exists pre, ws, body. split; [|split; assumption].
    rewrite Et. repeat f_equal.
    rewrite Et in Er.
    replace (pre ++ ws ++ o :: body ++ [z])
      with ((pre ++ ws ++ o :: body) ++ [z]) in Er
      by (rewrite <- !app_assoc; reflexivity).
    apply app_inj_tail in Er. destruct Er as [_ Er]. exact Er.
Qed.

(** The condition of the specification is enough for the json test to
    fire. *)
Lemma specJson_shape text : specJson text = true -> jsonShape text.
Proof.
  unfold specJson. intros H.
  apply orb_true_iff in H.
  destruct H as [H | H]; apply andb_true_iff in H; destruct H as [Hl He];
    apply existsb_exists in Hl; destruct Hl as (line & Hin & Ho).
  - destruct (opens_ends_shape text line _ _ Hin Ho He)
      as (pre & ws & body & E & Hb & Hws); [discriminate|].
    exists pre, ws, (cu "{"), body, (cu "}"), [], [].
    repeat split; try assumption; cbn; auto.
  - destruct (opens_ends_shape text line _ _ Hin Ho He)
      as (pre & ws & body & E & Hb & Hws); [discriminate|].
    exists pre, ws, (cu "["), body, (cu "]"), [], [].
    repeat split; try assumption; cbn; auto.
Qed.

(** C5, as the code has it: the json test fires exactly when, at the start
    of some line, optional white space is followed by a brace or a bracket,
    and further on a closing brace or bracket, whichever of the two, is
    followed by optional white space and the end of a line, which need not
    be the end of the text.  When the text is not blank and none of the
    earlier quick detections fires, the format is json exactly then.  A
    line that opens with a brace or a bracket in a text that ends with the
    matching closing character is one way to have that shape. *)
Theorem json_fast_path (text : str) (st : Store) :
  trim text <> [] ->
  test fencedRe text = false ->
  test xmlRe text = false ->
  test htmlRe text = false ->
  (test jsonRe text = true <-> jsonShape text)
  /\ (Result.text_format (fst (detectTextFormat (VString text) st)) = "json"
      <-> jsonShape text)
  /\ (specJson text = true -> jsonShape text).
Proof.
  intros Hb Hf Hx Hh.
  split; [apply json_test_iff|].
  split; [|apply specJson_shape].
  rewrite <- json_test_iff, (detect_not_blank text st Hb).
  unfold resultOf. cbn [Result.text_format].
  unfold chooseFormat. rewrite Hf, Hx, Hh.
  destruct (test jsonRe text); [split; reflexivity|].
  split; [|discriminate].
  repeat match goal with
         | |- context [if ?b then _ else _] => destruct b
         end; discriminate.
Qed.

(** A brace closed by a bracket, then a second line; and an object. *)
Lemma json_fast_path_witness :
  let text := lit "{a]" ++ [LF] ++ lit "b" in
  let object := lit "{x: 1}" in
  trim text <> []
  /\ jsonShape text
  /\ Result.text_format (fst (detectTextFormat (VString text) freshStore))
     = "json"
  /\ specJson object = true
  /\ jsonShape object.
Proof.
  cbv zeta.
  assert (Hb : trim (lit "{a]" ++ [LF] ++ lit "b") <> [])
    by (vm_compute; discriminate).
  assert (Hs : jsonShape (lit "{a]" ++ [LF] ++ lit "b")).
  { exists [], [], (cu "{"), (lit "a"), (cu "]"), [], ([LF] ++ lit "b").
    repeat split; try reflexivity; cbn; auto. }
  assert (Ho : trim (lit "{x: 1}") <> []) by (vm_compute; discriminate).
  split; [exact Hb|]. split; [exact Hs|]. split; [|split].
  - apply (proj1 (proj2 (json_fast_path _ freshStore Hb
                           eq_refl eq_refl eq_refl))).
    exact Hs.
  - reflexivity.
  - apply (proj2 (proj2 (json_fast_path _ freshStore Ho
                           eq_refl eq_refl eq_refl))).
    reflexivity.
Defined.

(** C5, as stated, fails: [{a]] opens with a brace, does not end with the
    matching brace, and is classified as json; so is [[1]] followed by a
    second line, which does not end with a bracket at all. *)
Lemma json_matching_bracket_fails :
  let t1 := lit "{a]" in
  let t2 := lit "[1]" ++ [LF] ++ lit "x" in
  (test jsonRe t1 = true /\ specJson t1 = false
   /\ lineOpensWith (cu "{") t1 = true /\ endsWith (cu "}") t1 = false
   /\ Result.text_format (detect (VString t1)) = "json")
  /\ (test jsonRe t2 = true /\ specJson t2 = false
      /\ Result.text_format (detect (VString t2)) = "json").
Proof. cbv zeta. repeat split; vm_compute; reflexivity. Qed.

(* ================================================================== *)
(** ** Line endings *)

Section LineEndings.

Local Open Scope nat_scope.

(** Induction along the cases of [normalize]. *)
Lemma normalize_ind (P : str -> Prop) :
  P [] ->
  (forall c r, c <> CR -> P r -> P (c :: r)) ->
  P [CR] ->
  (forall r, P r -> P (CR :: LF :: r)) ->
  (forall d r, d <> LF -> P (d :: r) -> P (CR :: d :: r)) ->
  forall s, P s.
Proof.
  intros Hnil Hc Hcr Hcrlf Hcrd s.
  assert (H : forall n s, List.length s <= n -> P s).
  { induction n as [|n IH]; intros t Hn.
    - destruct t; [exact Hnil | cbn in Hn; lia].
    - destruct t as [|c r]; [exact Hnil|].
      cbn in Hn. destruct (N.eq_dec c CR) as [-> | Hne].
      + destruct r as [|d r']; [exact Hcr|].
        destruct (N.eq_dec d LF) as [-> | Hd].
        * apply Hcrlf. apply IH. cbn in Hn. lia.
        * apply Hcrd; [exact Hd|]. apply IH. lia.
      + apply Hc; [exact Hne|]. apply IH. lia. }
  apply (H (List.length s)). apply Nat.le_refl.
Qed.

Lemma normalize_cons c r : c <> CR -> normalize (c :: r) = c :: normalize r.
Proof.
  intros H. cbn [normalize].
  destruct (N.eqb c 13) eqn:E; [|reflexivity].
  apply N.eqb_eq in E. contradiction.
Qed.

Lemma normalize_crlf r : normalize (CR :: LF :: r) = LF :: normalize r.
Proof. reflexivity. Qed.

Lemma normalize_cr d r :
  d <> LF -> normalize (CR :: d :: r) = LF :: normalize (d :: r).
Proof.
  intros H. unfold CR. cbn [normalize N.eqb Pos.eqb].
  destruct (N.eqb d 10) eqn:E; [|reflexivity].
  apply N.eqb_eq in E. contradiction.
Qed.

(** No carriage return is left. *)
Lemma normalize_no_cr s : ~ In CR (normalize s).
Proof.
  induction s as [|c r Hc IH| |r IH|d r Hd IH] using normalize_ind.
  - intros [].
  - rewrite normalize_cons by exact Hc. intros [E | H]; [congruence | tauto].
  - cbn. intros [E | []]. discriminate E.
  - rewrite normalize_crlf. intros [E | H]; [discriminate E | tauto].
  - rewrite normalize_cr by exact Hd.
    intros [E | H]; [discriminate E | tauto].
Qed.

(** A text without carriage return is left as it is. *)
Lemma normalize_fixed s : ~ In CR s -> normalize s = s.
Proof.
  induction s as [|c r IH]; intros H; [reflexivity|].
  rewrite normalize_cons by (intros ->; apply H; left; reflexivity).
  f_equal. apply IH. intros Hin. apply H. right. exact Hin.
Qed.

Lemma normalize_idem s : normalize (normalize s) = normalize s.
Proof. apply normalize_fixed. apply normalize_no_cr. Qed.

(** [split('\n')] gives one line more than there are line feeds. *)
Lemma splitOn_length s : forall acc,
  List.length (splitOn acc s) = S (lineFeeds s).
Proof.
  unfold lineFeeds, count.
  induction s as [|c r IH]; intros acc; cbn [splitOn filter]; [reflexivity|].
  rewrite (N.eqb_sym LF c). unfold LF.
  destruct (N.eqb c 10); cbn [List.length]; rewrite IH; reflexivity.
Qed.

Lemma split_nl_length s : List.length (split_nl s) = S (lineFeeds s).
Proof. apply splitOn_length. Qed.

(** The lines joined by line feeds are the text. *)
Lemma splitOn_join s : forall acc,
  concat (map (fun l => LF :: l) (splitOn acc s)) = LF :: rev acc ++ s.
Proof.
  induction s as [|c r IH]; intros acc; cbn [splitOn].
  - cbn. rewrite !app_nil_r. reflexivity.
  - destruct (N.eqb c 10) eqn:E.
    + apply N.eqb_eq in E. subst c. cbn [map concat]. rewrite IH.
      reflexivity.
    + rewrite IH. cbn [rev]. rewrite <- app_assoc. reflexivity.
Qed.

(** No line holds a line feed. *)
Lemma splitOn_no_lf s : forall acc line,
  ~ In LF acc -> In line (splitOn acc s) -> ~ In LF line.
Proof.
  induction s as [|c r IH]; intros acc line Hacc Hin; cbn [splitOn] in Hin.
  - destruct Hin as [<- | []]. rewrite <- in_rev. exact Hacc.
  - destruct (N.eqb c 10) eqn:E.
    + destruct Hin as [<- | Hin]; [rewrite <- in_rev; exact Hacc|].
      apply (IH [] line); [intros [] | exact Hin].
    + apply (IH (c :: acc) line); [|exact Hin].
      intros [Ec | H]; [|tauto]. subst c. discriminate E.
Qed.

End LineEndings.

(* ================================================================== *)
(** ** The two scorers and the style of the line endings *)

(** X1: [asciiArtScore] and [markdownScore] work on the text with its line
    endings unified, in which no carriage return is left and which
    unifying again leaves as it is: the two scorers return the same on a
    text and on its unified form.  [detectTextFormat] does not: the code
    penalty splits the text as given, where a lone carriage return ends no
    line. *)
Theorem scorers_ignore_line_ending_style (text : str) (st : Store) :
  ~ In CR (normalize text)
  /\ normalize (normalize text) = normalize text
  /\ fst (asciiArtScore (normalize text) st) = fst (asciiArtScore text st)
  /\ fst (markdownScore (normalize text) st) = fst (markdownScore text st)
  /\ (exists t,
        Reasons.codePenaltyApplied
          (Result.reasons (fst (detectTextFormat (VString t) st)))
        = Some false
        /\ Reasons.codePenaltyApplied
             (Result.reasons
                (fst (detectTextFormat (VString (normalize t)) st)))
           = Some true).
Proof.
  split; [apply normalize_no_cr|].
  split; [apply normalize_idem|].
  rewrite !asciiArtScore_value, !markdownScore_value.
  unfold asciiArtValue, markdownValue. rewrite normalize_idem.
  split; [reflexivity|]. split; [reflexivity|].
  exists (lit "a;" ++ [CR] ++ lit "b;" ++ [CR] ++ lit "c;").
  rewrite !(detectTextFormat_pure _ st). split; reflexivity.
Qed.

(* ================================================================== *)
(** ** The reasons and the score of [asciiArtScore] *)

Lemma asciiAccum_reasons c1 c2 c3 c4 c5 c6 c7 c8 c9 :
  snd (asciiAccum c1 c2 c3 c4 c5 c6 c7 c8 c9)
  = map fst (filter snd (combine asciiTags [c1; c2; c3; c4; c5; c6; c7; c8; c9])).
Proof.
  destruct c1, c2, c3, c4, c5, c6, c7, c8, c9; reflexivity.
Qed.

Lemma asciiAccum_score c1 c2 c3 c4 c5 c6 c7 c8 c9 :
  fst (asciiAccum c1 c2 c3 c4 c5 c6 c7 c8 c9)
  = fold_left applyTag (snd (asciiAccum c1 c2 c3 c4 c5 c6 c7 c8 c9)) 0.
Proof.
  destruct c1, c2, c3, c4, c5, c6, c7, c8, c9; reflexivity.
Qed.

Lemma asciiAccum_ordered c1 c2 c3 c4 c5 c6 c7 c8 c9 :
  let reasons := snd (asciiAccum c1 c2 c3 c4 c5 c6 c7 c8 c9) in
  reasons = filter (fun t => isOneOf t reasons) asciiTags.
Proof.
  destruct c1, c2, c3, c4, c5, c6, c7, c8, c9; reflexivity.
Qed.

(** X2: the reasons that [asciiArtScore] returns are either the single tag
    [too_few_lines], with the score 0, or tags of its nine tests, each at
    most once and in the order of the tests; and the score is the sum, kept
    within [0,1], of what the listed reasons add or take off, added up in
    that order. *)
Theorem ascii_score_explained_by_reasons (text : str) (st : Store) :
  let a := fst (asciiArtScore text st) in
  (AScore.reasons a = ["too_few_lines"]
   \/ AScore.reasons a
      = filter (fun t => isOneOf t (AScore.reasons a)) asciiTags)
  /\ AScore.score a = clamp01 (fold_left applyTag (AScore.reasons a) 0).
Proof.
  cbv zeta. rewrite asciiArtScore_value.
  destruct (asciiArtValue_cases text)
    as [E | (c1 & c2 & c3 & c4 & c5 & c6 & c7 & c8 & c9 & s & E)];
    rewrite E; cbn [AScore.reasons AScore.score].
  - split; [left; reflexivity | reflexivity].
  - split; [right; apply asciiAccum_ordered|].
    rewrite <- asciiAccum_score. reflexivity.
Qed.

Lemma asciiAccum_tags c1 c2 c3 c4 c5 c6 c7 c8 c9 tag :
  In tag (snd (asciiAccum c1 c2 c3 c4 c5 c6 c7 c8 c9)) -> In tag asciiTags.
Proof.
  rewrite (asciiAccum_ordered c1 c2 c3 c4 c5 c6 c7 c8 c9).
  intros H. apply filter_In in H. exact (proj1 H).
Qed.

Lemma asciiArtValue_many text :
  (3 <= List.length (split_nl (normalize text)))%nat ->
  exists c1 c2 c3 c4 c5 c6 c7 c8 c9 mean std symD alpha,
    asciiArtValue text
    = AScore.mk (clamp01 (fst (asciiAccum c1 c2 c3 c4 c5 c6 c7 c8 c9)))
        (snd (asciiAccum c1 c2 c3 c4 c5 c6 c7 c8 c9))
        (Some (mkStats (List.length (split_nl (normalize text)))
                 mean std symD alpha)).
Proof.
  intros H. unfold asciiArtValue.
  destruct (List.length (split_nl (normalize text)) <? 3)%nat eqn:E.
  - apply Nat.ltb_lt in E. lia.
  - unfold asciiFinish. do 13 eexists. reflexivity.
Qed.

(** X3: on a string that is not blank, the result has no stats exactly
    when the text, line endings unified, has fewer than two line feeds,
    that is fewer than three lines, and exactly then the ASCII reasons are
    the single tag [too_few_lines]; stats that are there give the number of
    lines, one more than the number of line feeds and at least 3. *)
Theorem stats_from_three_lines (text : str) (st : Store) :
  trim text <> [] ->
  let r := fst (detectTextFormat (VString text) st) in
  let n := S (lineFeeds (normalize text)) in
  (Result.stats r = None <-> (n < 3)%nat)
  /\ (Reasons.ascii (Result.reasons r) = ["too_few_lines"] <-> (n < 3)%nat)
  /\ (forall s, Result.stats r = Some s -> lines s = n /\ (3 <= n)%nat).
Proof.
  intros Hb. cbv zeta. rewrite (detect_not_blank text st Hb).
  unfold resultOf.
  cbn [Result.stats Result.reasons Reasons.ascii].
  rewrite <- split_nl_length.
  destruct (Nat.lt_ge_cases (List.length (split_nl (normalize text))) 3)
    as [Hlt | Hge].
  - rewrite (asciiArtValue_few text Hlt). cbn [AScore.stats AScore.reasons].
    repeat split; auto; discriminate.
  - destruct (asciiArtValue_many text Hge)
      as (c1 & c2 & c3 & c4 & c5 & c6 & c7 & c8 & c9 & m & sd & sy & al & E).
    rewrite E. cbn [AScore.stats AScore.reasons].
    split; [split; [discriminate | lia]|].
    split.
    + split; [|lia]. intros Hr.
      assert (Hin : In "too_few_lines"
                       (snd (asciiAccum c1 c2 c3 c4 c5 c6 c7 c8 c9)))
        by (rewrite Hr; left; reflexivity).
      apply asciiAccum_tags in Hin. cbn in Hin. intuition discriminate.
    + intros s Hs. inversion Hs. cbn [lines]. split; [reflexivity | exact Hge].
Qed.

Lemma stats_from_three_lines_witness :
  let text := lit "a" ++ [CR; LF] ++ lit "b" ++ [CR] ++ lit "c" in
  trim text <> []
  /\ Result.stats (fst (detectTextFormat (VString text) freshStore)) <> None.
Proof.
  cbv zeta.
  assert (Hb : trim (lit "a" ++ [CR; LF] ++ lit "b" ++ [CR] ++ lit "c") <> [])
    by (vm_compute; discriminate).
  split; [exact Hb|].
  intros H.
  apply (proj1 (stats_from_three_lines _ freshStore Hb)) in H.
  vm_compute in H. lia.
Defined.

(** X4: [detectTextFormat] returns its result for empty input, the one
    with the ASCII reason [empty] and without [codePenaltyApplied], exactly
    on the values that are not strings and on the strings that hold white
    space only. *)
Theorem empty_result_iff_blank (v : value) (st : Store) :
  let r := fst (detectTextFormat v st) in
  (r = emptyResult <-> blankValue v)
  /\ (Reasons.ascii (Result.reasons r) = ["empty"] <-> blankValue v)
  /\ (Reasons.codePenaltyApplied (Result.reasons r) = None <-> blankValue v).
Proof.
  cbv zeta. rewrite (detectTextFormat_pure v st). cbn [fst].
  destruct v as [text|]; cbn [valueOf blankValue].
  - rewrite <- trim_nil_iff. destruct (trim text) as [|c t] eqn:E.
    + repeat split; auto.
    + unfold resultOf, emptyResult.
      cbn [Result.reasons Reasons.ascii Reasons.codePenaltyApplied].
      split; [split; [intros H; inversion H | discriminate]|].
      split; [|split; discriminate].
      split; [|discriminate]. intros Hr.
      destruct (asciiArtValue_cases text)
        as [Ea | (c1 & c2 & c3 & c4 & c5 & c6 & c7 & c8 & c9 & s & Ea)];
        rewrite Ea in Hr; cbn [AScore.reasons] in Hr; [discriminate|].
      assert (Hin : In "empty" (snd (asciiAccum c1 c2 c3 c4 c5 c6 c7 c8 c9)))
        by (rewrite Hr; left; reflexivity).
      apply asciiAccum_tags in Hin. cbn in Hin. intuition discriminate.
  - repeat split; auto.
Qed.

(* ================================================================== *)
(** ** What unifying the line endings keeps *)

Section NormalizeKeeps.

Local Open Scope nat_scope.

Lemma normalize_app (a : str) c r :
  c <> LF -> normalize (a ++ c :: r) = normalize a ++ normalize (c :: r).
Proof.
  intros Hc.
  induction a as [|x a' Hx IH| |a' IH|d a' Hd IH] using normalize_ind.
  - reflexivity.
  - cbn [app]. rewrite !normalize_cons by exact Hx. rewrite IH. reflexivity.
  - cbn [app]. rewrite normalize_cr by exact Hc. reflexivity.
  - cbn [app]. rewrite !normalize_crlf, IH. reflexivity.
  - cbn [app] in *. rewrite !normalize_cr by exact Hd. rewrite IH.
    reflexivity.
Qed.

Lemma normalize_word w r :
  plainWord w -> normalize (w ++ r) = w ++ normalize r.
Proof.
  induction w as [|c w IH]; intros Hw; [reflexivity|].
  cbn [app]. rewrite normalize_cons by (apply Hw; left; reflexivity).
  rewrite IH; [reflexivity|].
  intros x Hx. apply Hw. right. exact Hx.
Qed.

Lemma normalize_nil s : normalize s = [] -> s = [].
Proof.
  destruct s as [|c r]; [reflexivity|]. cbn [normalize].
  destruct (N.eqb c 13); [|discriminate].
  destruct r as [|d r']; [discriminate|].
  destruct (N.eqb d 10); discriminate.
Qed.

(** A code unit of the unified text that is no line feed comes from the
    text, and so do what is before it and what is after it. *)
Lemma normalize_split c : c <> LF -> c <> CR ->
  forall t a' r',
    normalize t = a' ++ c :: r' ->
    exists a r, t = a ++ c :: r /\ normalize a = a' /\ normalize r = r'.
Proof.
  intros Hl Hr t.
  induction t as [|x t' Hx IH| |t' IH|d t' Hd IH] using normalize_ind;
    intros a' r' E.
  - destruct a'; discriminate E.
  - rewrite normalize_cons in E by exact Hx.
    destruct a' as [|y a'']; cbn [app] in E; injection E as E1 E2.
    + exists [], t'. rewrite E1, E2. repeat split.
    + destruct (IH a'' r' E2) as (a & r & Et & Ea & Er).
      exists (x :: a), r. rewrite Et, normalize_cons, Ea, E1 by exact Hx.
      repeat split. exact Er.
  - cbn in E. destruct a' as [|y a'']; cbn [app] in E; injection E as E1 E2.
    + elim Hl. symmetry. exact E1.
    + destruct a''; discriminate.
  - rewrite normalize_crlf in E.
    destruct a' as [|y a'']; cbn [app] in E; injection E as E1 E2;
      [elim Hl; symmetry; exact E1|].
    destruct (IH a'' r' E2) as (a & r & Et & Ea & Er).
    exists (CR :: LF :: a), r. rewrite Et, normalize_crlf, Ea, E1.
    repeat split. exact Er.
  - rewrite normalize_cr in E by exact Hd.
    destruct a' as [|y a'']; cbn [app] in E; injection E as E1 E2;
      [elim Hl; symmetry; exact E1|].
    destruct (IH a'' r' E2) as (a & r & Et & Ea & Er).
    exists (CR :: a), r. split; [cbn [app]; rewrite Et; reflexivity|].
    split; [|exact Er]. rewrite <- E1.
    destruct a as [|e a2]; cbn [app] in Et.
    + cbn in Ea. subst a''. reflexivity.
    + injection Et as Ee Et. subst e. rewrite normalize_cr by exact Hd.
      rewrite Ea. reflexivity.
Qed.

Lemma normalize_word_head w : plainWord w ->
  forall t r', normalize t = w ++ r' ->
               exists r, t = w ++ r /\ normalize r = r'.
Proof.
  induction w as [|c w IH]; intros Hw t r' E.
  - exists t. split; [reflexivity | exact E].
  - destruct (Hw c (or_introl eq_refl)) as [Hl Hr].
    destruct (normalize_split c Hl Hr t [] (w ++ r') E)
      as (a & r0 & Et & Ea & Er0).
    apply normalize_nil in Ea. subst a.
    destruct (IH (fun x Hx => Hw x (or_intror Hx)) r0 r' Er0)
      as (r & Er & En).
    exists r. split; [rewrite Et, Er; reflexivity | exact En].
Qed.

(** A plain word occurs in the unified text where it occurs in the text. *)
Lemma normalize_word_split w : plainWord w -> w <> [] ->
  forall t a' r',
    normalize t = a' ++ w ++ r' ->
    exists a r, t = a ++ w ++ r /\ normalize a = a' /\ normalize r = r'.
Proof.
  intros Hw Hne t a' r' E.
  destruct w as [|c w]; [contradiction|].
  destruct (Hw c (or_introl eq_refl)) as [Hl Hr].
  destruct (normalize_split c Hl Hr t a' (w ++ r') E)
    as (a & r0 & Et & Ea & Er0).
  destruct (normalize_word_head w (fun x Hx => Hw x (or_intror Hx)) r0 r' Er0)
    as (r & Er & En).
  exists a, r. split; [rewrite Et, Er; reflexivity|]. split; assumption.
Qed.

Lemma normalize_app_word a w r :
  plainWord w -> w <> [] ->
  normalize (a ++ w ++ r) = normalize a ++ w ++ normalize r.
Proof.
  intros Hw Hne. destruct w as [|c w]; [contradiction|].
  cbn [app]. rewrite normalize_app by (apply Hw; left; reflexivity).
  change (c :: w ++ r) with ((c :: w) ++ r).
  rewrite normalize_word by exact Hw. reflexivity.
Qed.

Lemma existsb_normalize (p : char -> bool) s :
  p LF = false -> p CR = false ->
  existsb p (normalize s) = existsb p s.
Proof.
  intros Hl Hr.
  induction s as [|x t Hx IH| |t IH|d t Hd IH] using normalize_ind.
  - reflexivity.
  - rewrite normalize_cons by exact Hx. cbn [existsb]. rewrite IH.
    reflexivity.
  - change (p LF || false = (p CR || false)). rewrite Hl, Hr. reflexivity.
  - rewrite normalize_crlf. cbn [existsb]. rewrite IH, Hl, Hr. reflexivity.
  - rewrite normalize_cr by exact Hd. cbn [existsb] in *.
    rewrite IH, Hl, Hr. reflexivity.
Qed.

End NormalizeKeeps.

(* ================================================================== *)
(** ** Unicode art and ANSI sequences *)

Lemma test_chr_iff p s :
  test (re (Chr p)) s = true <-> exists c, In c s /\ p c = true.
Proof.
  rewrite test_correct by reflexivity. unfold Found.
  cbn [source multiline re Match]. split.
  - intros (a & w & y & E & c & Ew & Hp & _). cbn [snd] in Ew.
    exists c. split; [|exact Hp]. rewrite E, Ew.
    apply in_or_app. right. left. reflexivity.
  - intros (c & Hin & Hp). apply in_split in Hin.
    destruct Hin as (l1 & l2 & E).
    exists l1, (c :: l2), (Some c, l2). split; [exact E|].
    exists c. repeat split. exact Hp.
Qed.

Lemma inArt_ranges c :
  inArt c = (inRange 0x2500 0x257F c
             || (inRange 0x2580 0x259F c
                 || (inRange 0x2800 0x28FF c || inRange 0x25A0 0x25FF c)))%N.
Proof.
  unfold inArt, inRange.
  repeat match goal with
         | |- context [(?a <=? ?b)%N] => destruct (N.leb_spec a b)
         end; cbn; try reflexivity; lia.
Qed.


Lemma existsb_orb {A} (p q : A -> bool) l :
  existsb (fun x => p x || q x) l = existsb p l || existsb q l.
Proof.
  induction l as [|x l IH]; [reflexivity|]. cbn. rewrite IH.
  destruct (p x), (q x), (existsb p l), (existsb q l); reflexivity.
Qed.

Lemma existsb_same {A} (p q : A -> bool) l :
  (forall x, p x = q x) -> existsb p l = existsb q l.
Proof.
  intros H. induction l as [|x l IH]; [reflexivity|].
  cbn. rewrite H, IH. reflexivity.
Qed.

Lemma test_chr p s : test (re (Chr p)) s = existsb p s.
Proof.
  apply Bool.eq_true_iff_eq. rewrite test_chr_iff, existsb_exists.
  reflexivity.
Qed.

Lemma unicodeArt_existsb raw : unicodeArt raw = existsb inArt raw.
Proof.
  unfold unicodeArt, BOX_DRAWING_RE, BLOCK_ELEMS_RE, BRAILLE_RE, GEOM_RE.
  rewrite !test_chr, <- !existsb_orb.
  apply existsb_same. intros c. symmetry. apply inArt_ranges.
Qed.


Lemma ansi_test_iff s : test ANSI_RE s = true <-> ansiShape s.
Proof.
  rewrite test_correct by reflexivity. unfold Found, ansiShape.
  cbn [source multiline ANSI_RE re]. unfold cat, star, chN, ch.
  cbn [fold_right]. split.
  - intros (a & w & y & E & H).
    apply Match_seq in H. destruct H as (z1 & (c1 & E1 & H1 & _) & H).
    apply Match_seq in H. destruct H as (z2 & (c2 & E2 & H2 & _) & H).
    apply Match_seq in H. destruct H as (z3 & H3 & H).
    apply Match_seq in H. destruct H as (z4 & (c4 & E4 & H4 & _) & H).
    apply Match_star_chr in H3. destruct H3 as (params & E3 & Hp & _).
    apply N.eqb_eq in H1, H2, H4. subst c1 c2 c4.
    cbn [snd] in E1.
    exists a, params, (snd z4). split; [|exact Hp].
    rewrite E, E1, E2, E3, E4. reflexivity.
  - intros (a & params & b & E & Hp).
    exists a, ([0x1B%N; cu "["] ++ params ++ [cu "m"] ++ b),
      (Some (cu "m"), b).
    split; [exact E|].
    apply Match_seq. eexists. split; [apply Match_chr_intro; reflexivity|].
    apply Match_seq. eexists. split; [apply Match_chr_intro; reflexivity|].
    apply Match_seq. eexists. split; [apply Match_star_chr_intro; exact Hp|].
    apply Match_seq. eexists. split; [apply Match_chr_intro; reflexivity|].
    reflexivity.
Qed.

Lemma ansi_word_plain params :
  forallb (fun c => isDigit c || N.eqb c (cu ";")) params = true ->
  plainWord ([0x1B%N; cu "["] ++ params ++ [cu "m"]).
Proof.
  intros Hp c Hin. cbn [app] in Hin.
  destruct Hin as [<- | [<- | Hin]]; [split; discriminate ..|].
  apply in_app_or in Hin. destruct Hin as [Hin | [<- | []]];
    [|split; discriminate].
  rewrite forallb_forall in Hp. specialize (Hp c Hin).
  split; intros ->; discriminate Hp.
Qed.

(** An ANSI sequence is in the unified text where it is in the text. *)
Lemma ansiShape_normalize text : ansiShape (normalize text) <-> ansiShape text.
Proof.
  unfold ansiShape. split.
  - intros (a' & params & b' & E & Hp).
    replace (a' ++ [0x1B%N; cu "["] ++ params ++ [cu "m"] ++ b')
      with (a' ++ ([0x1B%N; cu "["] ++ params ++ [cu "m"]) ++ b') in E
      by (cbn [app]; rewrite <- !app_assoc; reflexivity).
    apply normalize_word_split in E;
      [|apply ansi_word_plain; exact Hp | discriminate].
    destruct E as (a & b & E & _ & _).
    exists a, params, b. split; [|exact Hp].
    rewrite E. cbn [app]. rewrite <- !app_assoc. reflexivity.
  - intros (a & params & b & E & Hp).
    exists (normalize a), params, (normalize b). split; [|exact Hp].
    rewrite E.
    replace (a ++ [0x1B%N; cu "["] ++ params ++ [cu "m"] ++ b)
      with (a ++ ([0x1B%N; cu "["] ++ params ++ [cu "m"]) ++ b)
      by (cbn [app]; rewrite <- !app_assoc; reflexivity).
    rewrite normalize_app_word;
      [|apply ansi_word_plain; exact Hp | discriminate].
    cbn [app]. rewrite <- !app_assoc. reflexivity.
Qed.

Lemma In_selected (tags : list string) : forall flags tag,
  In tag (map fst (filter snd (combine tags flags)))
  <-> In (tag, true) (combine tags flags).
Proof.
  induction tags as [|t tags IH]; intros flags tag; [cbn; tauto|].
  destruct flags as [|b flags]; [cbn; tauto|].
  cbn [combine filter snd]. destruct b; cbn [map fst In]; rewrite IH.
  - split; intros [H | H]; auto; left; congruence.
  - split; [auto | intros [H | H]; [discriminate | exact H]].
Qed.

(** X5: [asciiArtScore] gives the reason [unicode_art_chars] exactly when
    the text has three lines or more and holds a code unit from U+2500 to
    U+25FF or from U+2800 to U+28FF, and the reason [ansi_sequences]
    exactly when it has three lines or more and holds an escape character,
    a bracket, digits and semicolons, and an [m]. *)
Theorem art_reasons (text : str) (st : Store) :
  let a := fst (asciiArtScore text st) in
  let manyLines := (3 <= S (lineFeeds (normalize text)))%nat in
  (In "unicode_art_chars" (AScore.reasons a)
   <-> manyLines /\ existsb inArt text = true)
  /\ (In "ansi_sequences" (AScore.reasons a) <-> manyLines /\ ansiShape text).
Proof.
  cbv zeta. rewrite asciiArtScore_value, <- split_nl_length.
  rewrite <- ansiShape_normalize, <- ansi_test_iff.
  rewrite <- (existsb_normalize inArt text) by reflexivity.
  rewrite <- unicodeArt_existsb.
  unfold asciiArtValue.
  destruct (List.length (split_nl (normalize text)) <? 3)%nat eqn:E.
  - apply Nat.ltb_lt in E. cbn [AScore.reasons].
    split; (split; [intros [H | []]; discriminate H | lia]).
  - apply Nat.ltb_ge in E. unfold asciiFinish. cbn [AScore.reasons].
    rewrite asciiAccum_reasons, !In_selected. cbn [asciiTags combine In].
    split; (split; [intros H | intros [_ H]; rewrite H; tauto]);
      (split; [exact E|]);
      repeat (destruct H as [H | H]; [try discriminate H|]);
      try contradiction; inversion H; reflexivity.
Qed.

(* ================================================================== *)
(** ** The score of [markdownScore] *)



(* ================================================================== *)
(** ** The format code and the reason fenced *)

Lemma fence_plain F : In F fences -> plainWord F /\ F <> [].
Proof.
  intros [<- | [<- | []]]; (split; [|discriminate]);
    intros c Hin; cbn in Hin;
    repeat (destruct Hin as [<- | Hin]; [split; discriminate|]);
    contradiction.
Qed.

(** A fenced block is in the unified text where it is in the text. *)
Lemma fencedBlock_normalize text :
  fencedBlock (normalize text) <-> fencedBlock text.
Proof.
  unfold fencedBlock. split.
  - intros (F & a' & b' & c' & HF & E).
    destruct (fence_plain F HF) as [Hp Hne].
    apply normalize_word_split in E; [|exact Hp | exact Hne].
    destruct E as (a & r & E & _ & Er).
    apply (normalize_word_split F Hp Hne r b' c') in Er.
    destruct Er as (b & c & Er & _ & _).
    exists F, a, b, c. split; [exact HF|]. rewrite E, Er. reflexivity.
  - intros (F & a & b & c & HF & E).
    destruct (fence_plain F HF) as [Hp Hne].
    exists F, (normalize a), (normalize b), (normalize c).
    split; [exact HF|].
    rewrite E, normalize_app_word, normalize_app_word by assumption.
    reflexivity.
Qed.

Lemma chooseFormat_code text x y :
  chooseFormat text x y = "code" <-> test fencedRe text = true.
Proof.
  unfold chooseFormat. destruct (test fencedRe text); [tauto|].
  split; [|discriminate].
  repeat match goal with
         | |- context [if ?b then _ else _] => destruct b
         end; discriminate.
Qed.

(** X7: the format is code exactly when the text holds a balanced fenced
    block, and exactly then the markdown reasons hold [fenced]: the quick
    detection reads the text as given and the markdown pattern the unified
    text, and unifying the line endings neither makes nor breaks a fence. *)
Theorem code_iff_fenced_reason (text : str) (st : Store) :
  let r := fst (detectTextFormat (VString text) st) in
  (Result.text_format r = "code" <-> fencedBlock text)
  /\ (In "fenced" (Reasons.markdown (Result.reasons r)) <-> fencedBlock text).
Proof.
  cbv zeta. rewrite (detectTextFormat_pure _ st). cbn [fst valueOf].
  destruct (trim text) as [|c t] eqn:E.
  - assert (Hn : ~ fencedBlock text).
    { intros H. apply fencedBlock_not_blank in H. contradiction. }
    cbn. split; split; try tauto; discriminate.
  - unfold resultOf.
    cbn [Result.text_format Result.reasons Reasons.markdown].
    split; [rewrite chooseFormat_code; apply fenced_test_iff|].
    rewrite markdownValue_reasons, filter_In.
    rewrite <- fencedBlock_normalize, <- fenced_test_iff.
    change (mdTest "fenced" (normalize text))
      with (test fencedRe (normalize text)).
    split; [tauto|]. intros H. split; [|exact H].
    cbn. tauto.
Qed.

(* ================================================================== *)
(** ** The xml and html detections *)

Lemma atBol_start (a : str) : atBol false (lastOr None a) = true -> a = [].
Proof. destruct a; [reflexivity | discriminate]. Qed.

Lemma chI_iff c x :
  (N.eqb x c || N.eqb x (swapCase c)) = true <-> x = c \/ x = swapCase c.
Proof. rewrite orb_true_iff, !N.eqb_eq. reflexivity. Qed.

Lemma xml_test_iff text : test xmlRe text = true <-> xmlShape text.
Proof.
  rewrite test_correct by reflexivity. unfold Found, xmlShape.
  cbn [source multiline xmlRe re_i]. unfold cat, star, space, ch, chN, wordI.
  cbn [fold_right lit charsI]. unfold chI. split.
  - intros (a & w & y & E & H).
    apply Match_seq in H. destruct H as (z0 & (Hb & ->) & H).
    cbn [fst] in Hb. apply atBol_start in Hb. subst a.
    apply Match_seq in H. destruct H as (z1 & H1 & H).
    apply Match_seq in H. destruct H as (z2 & (c2 & E2 & H2 & _) & H).
    apply Match_seq in H. destruct H as (z3 & (c3 & E3 & H3 & _) & H).
    apply Match_seq in H. destruct H as (zw & H & _).
    apply Match_seq in H. destruct H as (z4 & (c4 & E4 & H4 & _) & H).
    apply Match_seq in H. destruct H as (z5 & (c5 & E5 & H5 & _) & H).
    apply Match_seq in H. destruct H as (z6 & (c6 & E6 & H6 & _) & _).
    apply Match_star_chr in H1. destruct H1 as (ws & E1 & Hws & _).
    apply N.eqb_eq in H2, H3. subst c2 c3.
    apply chI_iff in H4, H5, H6. cbn [snd] in E1.
    exists ws, c4, c5, c6, (snd z6).
    split; [cbn [app] in E; rewrite E, E1, E2, E3, E4, E5, E6; reflexivity|].
    split; [exact Hws|].
    cbn. unfold swapCase in *. cbn in H4, H5, H6. intuition.
  - intros (ws & x & m & l & rest & E & Hws & Hx & Hm & Hl).
    exists [], text, (Some l, rest). split; [reflexivity|].
    rewrite E.
    apply Match_seq. eexists. split; [split; reflexivity|].
    apply Match_seq. eexists. split; [apply Match_star_chr_intro; exact Hws|].
    apply Match_seq. eexists. split; [apply Match_chr_intro; reflexivity|].
    apply Match_seq. eexists. split; [apply Match_chr_intro; reflexivity|].
    apply Match_seq. eexists. split; [|reflexivity].
    apply Match_seq. eexists. split.
    { apply Match_chr_intro. apply chI_iff. cbn in Hx |- *.
      unfold swapCase. cbn. intuition. }
    apply Match_seq. eexists. split.
    { apply Match_chr_intro. apply chI_iff. cbn in Hm |- *.
      unfold swapCase. cbn. intuition. }
    apply Match_seq. eexists. split.
    { apply Match_chr_intro. apply chI_iff. cbn in Hl |- *.
      unfold swapCase. cbn. intuition. }
    reflexivity.
Qed.

Lemma forallb_noneOf (set : string) (tag : str) :
  forallb (fun c => negb (has (lit set) c)) tag = true <->
  forall c, In c tag -> ~ In c (lit set).
Proof.
  rewrite forallb_forall. split; intros H c Hin.
  - specialize (H c Hin). apply negb_true_iff in H.
    intros Hc. apply has_In in Hc. congruence.
  - apply negb_true_iff. destruct (has (lit set) c) eqn:E; [|reflexivity].
    apply has_In in E. elim (H c Hin E).
Qed.

Lemma html_test_iff text : test htmlRe text = true <-> htmlShape text.
Proof.
  rewrite test_correct by reflexivity. unfold Found, htmlShape.
  cbn [source multiline htmlRe re]. unfold cat, star, plus, space, ch, chN,
    noneOf.
  cbn [fold_right]. split.
  - intros (a & w & y & E & H).
    apply Match_seq in H. destruct H as (z0 & (Hb & ->) & H).
    cbn [fst] in Hb. apply atBol_start in Hb. subst a.
    apply Match_seq in H. destruct H as (z1 & H1 & H).
    apply Match_seq in H. destruct H as (z2 & (c2 & E2 & H2 & _) & H).
    apply Match_seq in H. destruct H as (z3 & H3 & H).
    apply Match_seq in H. destruct H as (z4 & (c4 & E4 & H4 & _) & H).
    apply Match_seq in H3. destruct H3 as (z5 & (c5 & E5 & H5 & _) & H6).
    apply Match_star_chr in H1. destruct H1 as (ws & E1 & Hws & _).
    apply Match_star_chr in H6. destruct H6 as (b & E6 & Hb & _).
    apply N.eqb_eq in H2, H4. subst c2 c4. cbn [snd] in E1.
    exists ws, (c5 :: b), (snd z4).
    split; [cbn [app] in E |- *; rewrite E, E1, E2, E5, E6, E4; reflexivity|].
    split; [exact Hws|]. split; [discriminate|].
    assert (Hall : forallb (fun c => negb (has (lit ">") c)) (c5 :: b) = true)
      by (cbn [forallb]; rewrite H5, Hb; reflexivity).
    rewrite forallb_noneOf in Hall.
    intros Hin. apply (Hall _ Hin). left. reflexivity.
  - intros (ws & tag & rest & E & Hws & Hne & Hno).
    destruct tag as [|c b]; [contradiction|].
    assert (Hall : forallb (fun c => negb (has (lit ">") c)) (c :: b) = true).
    { apply forallb_noneOf. intros x Hx [Hc | []]. subst x.
      exact (Hno Hx). }
    cbn [forallb] in Hall. apply andb_true_iff in Hall.
    destruct Hall as [Hc Hb].
    exists [], text, (Some (cu ">"), rest). split; [reflexivity|].
    rewrite E.
    apply Match_seq. eexists. split; [split; reflexivity|].
    apply Match_seq. eexists. split; [apply Match_star_chr_intro; exact Hws|].
    apply Match_seq. eexists. split; [apply Match_chr_intro; reflexivity|].
    apply Match_seq. eexists. split.
    { apply Match_seq. eexists. split; [apply Match_chr_intro; exact Hc|].
      apply Match_star_chr_intro. exact Hb. }
    apply Match_seq. eexists. split; [apply Match_chr_intro; reflexivity|].
    reflexivity.
Qed.

Lemma blank_no_tests text :
  trim text = [] ->
  test fencedRe text = false /\ test xmlRe text = false
  /\ test htmlRe text = false /\ test jsonRe text = false.
Proof.
  intros Hb. apply trim_nil_iff in Hb. rewrite forallb_forall in Hb.
  assert (Hsp : forall c, In c text -> isSpace c = true) by exact Hb.
  repeat split; apply not_true_is_false; intros H.
  - apply fenced_test_iff, fencedBlock_not_blank in H. apply H.
    apply trim_nil_iff, forallb_forall. exact Hb.
  - apply xml_test_iff in H. destruct H as (ws & x & m & l & rest & E & _).
    assert (Hin : In (cu "<") text)
      by (rewrite E; apply in_or_app; right; left; reflexivity).
    apply Hsp in Hin. discriminate Hin.
  - apply html_test_iff in H. destruct H as (ws & tag & rest & E & _).
    assert (Hin : In (cu "<") text)
      by (rewrite E; apply in_or_app; right; left; reflexivity).
    apply Hsp in Hin. discriminate Hin.
  - apply json_test_iff in H.
    destruct H as (pre & ws & o & body & c & ws' & post & E & _ & _ & Ho & _).
    assert (Hin : In o text).
    { rewrite E. apply in_or_app. right. apply in_or_app. right.
      left. reflexivity. }
    apply Hsp in Hin. cbn in Ho.
    destruct Ho as [<- | [<- | []]]; discriminate Hin.
Qed.

(** The format as the chain of tests on the text chooses it, blank text
    included, on which none of the tests fires. *)
Lemma format_chosen text st :
  exists x y,
    Result.text_format (fst (detectTextFormat (VString text) st))
    = chooseFormat text x y.
Proof.
  rewrite (detectTextFormat_pure _ st). cbn [fst valueOf].
  destruct (trim text) eqn:E.
  - destruct (blank_no_tests text E) as (Hf & Hx & Hh & Hj).
    exists 0, 0. unfold chooseFormat. rewrite Hf, Hx, Hh, Hj. reflexivity.
  - unfold resultOf. cbn [Result.text_format]. eauto.
Qed.

(** X8: the format is xml exactly when the text holds no fenced block and
    opens, after optional white space, with [<?xml] in any case; and html
    exactly when it holds no fenced block, does not open so, and opens,
    after optional white space, with an angle bracket, one code unit or
    more other than the closing bracket, and the closing bracket. *)
Theorem xml_html_by_shape (text : str) (st : Store) :
  let format := Result.text_format (fst (detectTextFormat (VString text) st)) in
  (format = "xml" <-> ~ fencedBlock text /\ xmlShape text)
  /\ (format = "html"
      <-> ~ fencedBlock text /\ ~ xmlShape text /\ htmlShape text).
Proof.
  cbv zeta. destruct (format_chosen text st) as (x & y & ->).
  rewrite <- fenced_test_iff, <- xml_test_iff, <- html_test_iff.
  unfold chooseFormat.
  destruct (test fencedRe text), (test xmlRe text), (test htmlRe text);
    repeat match goal with
           | |- context [if ?b then _ else _] => destruct b
           end;
    split; split; intros H; try discriminate H; try reflexivity;
    try (repeat split; congruence);
    try (destruct H as (H1 & H2); try destruct H2 as (H2 & H3); congruence).
Qed.

(** X9: the format is one of ascii, markdown and plain, the formats chosen
    by the scores, exactly when the text has none of the four shapes of the
    quick detections; and it is json exactly when it has the json shape and
    none of the three others. *)
Theorem scored_formats_by_shape (text : str) (st : Store) :
  let format := Result.text_format (fst (detectTextFormat (VString text) st)) in
  (In format scoredTags
   <-> ~ fencedBlock text /\ ~ xmlShape text /\ ~ htmlShape text
       /\ ~ jsonShape text)
  /\ (format = "json"
      <-> ~ fencedBlock text /\ ~ xmlShape text /\ ~ htmlShape text
          /\ jsonShape text).
Proof.
  cbv zeta. destruct (format_chosen text st) as (x & y & ->).
  rewrite <- fenced_test_iff, <- xml_test_iff, <- html_test_iff,
    <- json_test_iff.
  unfold chooseFormat, scoredTags.
  destruct (test fencedRe text), (test xmlRe text), (test htmlRe text),
    (test jsonRe text);
    repeat match goal with
           | |- context [if ?b then _ else _] => destruct b
           end;
    cbn [In]; split; split; intros H;
    try discriminate H; try reflexivity;
    try (repeat split; congruence);
    try (destruct H as (H1 & H2 & H3 & H4); congruence);
    try (repeat destruct H as [H | H]; try discriminate H; contradiction);
    auto.
Qed.

(* ================================================================== *)
(** ** The code penalty and the number of code-like lines *)

(** The order of two positive finite numbers, read off their mantissas and
    exponents: a number above [a * 2^e] is not at most [b * 2^e'] when
    [e' <= e] and, for equal exponents, [b <= a]. *)
Lemma sf_above (a b : positive) (e e' : Z) (X : spec_float) :
  (e' <= e)%Z -> (e' = e -> (b <= a)%positive) ->
  SFltb (S754_finite false a e) X = true ->
  SFleb X (S754_finite false b e') = false.
Proof.
  intros He Hm L.
  destruct X as [sx | sx | | sx mx ex]; unfold SFltb, SFleb, SFcompare in *;
    try destruct sx; try discriminate L; try reflexivity.
  destruct (Z.compare_spec e ex) as [Ee | Ee | Ee]; try discriminate L.
  - subst ex. destruct (Z.compare_spec e e') as [E2 | E2 | E2];
      try lia; try reflexivity.
    specialize (Hm (eq_sym E2)).
    change (Pos.compare_cont Eq a mx) with (Pos.compare a mx) in L.
    change (Pos.compare_cont Eq mx b) with (Pos.compare mx b).
    destruct (Pos.compare_spec a mx); try discriminate L.
    destruct (Pos.compare_spec mx b); try lia; reflexivity.
  - destruct (Z.compare_spec ex e') as [E2 | E2 | E2]; try lia; reflexivity.
Qed.

Lemma sf_above_zero (a : positive) (e : Z) (X : spec_float) :
  SFltb (S754_finite false a e) X = true ->
  SFleb X (S754_zero false) = false.
Proof.
  intros L.
  destruct X as [sx | sx | | sx mx ex]; unfold SFltb, SFleb, SFcompare in *;
    try destruct sx; try discriminate L; reflexivity.
Qed.

(** Whatever [x] is, [Math.max(3, x)] is not at most 0, 1 or 2. *)
Lemma max3_above (x : float) (h : nat) :
  (h < 3)%nat -> (Num.max 3 x <=? Num.ofNat h) = false.
Proof.
  intros Hh.
  assert (H3 : (3 <=? Num.ofNat h) = false /\ (nan <=? Num.ofNat h) = false).
  { destruct h as [|[|[|h]]]; [| | |lia]; split; reflexivity. }
  destruct H3 as [H3 Hnan].
  unfold Num.max. change (is_nan 3) with false. cbn [orb].
  destruct (is_nan x); [exact Hnan|].
  destruct (3 <? x) eqn:L.
  - rewrite leb_spec. rewrite ltb_spec in L.
    change (Prim2SF 3) with (S754_finite false 6755399441055744 (-51)) in L.
    destruct h as [|[|[|h]]]; [| | |lia].
    + change (Prim2SF (Num.ofNat 0)) with (S754_zero false).
      exact (sf_above_zero _ _ _ L).
    + change (Prim2SF (Num.ofNat 1))
        with (S754_finite false 4503599627370496 (-52)).
      apply (fun He Hm => sf_above _ _ _ _ _ He Hm L);
        [lia | intros E; discriminate E].
    + change (Prim2SF (Num.ofNat 2))
        with (S754_finite false 4503599627370496 (-51)).
      apply (fun He Hm => sf_above _ _ _ _ _ He Hm L);
        [lia | intros _; apply Pos.leb_le; reflexivity].
  - destruct (x <? 3); [exact H3|].
    change (is_zero 3) with false. cbn [andb]. exact H3.
Qed.

Lemma count_le {A} (p : A -> bool) (l : list A) :
  (count p l <= List.length l)%nat.
Proof. unfold count. apply filter_length_le. Qed.

Lemma penalty_checked :
  checkFrom (fun n => checkFrom (penaltyOK n) (S smallText) 0%N)
            (S smallText) 0%N = true.
Proof. vm_compute. reflexivity. Qed.

(** X10: a text is penalised as code only if at least three of its lines
    are code-like, however long it is; and a text of at most 49 lines is
    penalised exactly when at least three of its lines are code-like. *)
Theorem penalty_needs_three_code_lines (text : str) :
  let ls := split_crlf text in
  let hits := count codeLine ls in
  (codeLikePenalty text = 0.15 -> (3 <= hits)%nat)
  /\ ((List.length ls <= smallText)%nat ->
      (codeLikePenalty text = 0.15 <-> (3 <= hits)%nat)).
Proof.
  cbv zeta. unfold codeLikePenalty, codeThreshold.
  rewrite codeHits_count.
  split.
  - intros H. destruct (Nat.lt_ge_cases (count codeLine (split_crlf text)) 3)
      as [Hlt | Hge]; [|exact Hge].
    rewrite (max3_above _ _ Hlt) in H.
    elim penalty_values_differ. symmetry. exact H.
  - intros Hn.
    pose proof (count_le codeLine (split_crlf text)) as Hc.
    pose proof penalty_checked as H.
    apply (checkFrom_spec _ _ _ (N.of_nat (List.length (split_crlf text))))
      in H; [|lia|unfold smallText in *; lia].
    apply (checkFrom_spec _ _ _ (N.of_nat (count codeLine (split_crlf text))))
      in H; [|lia|unfold smallText in *; lia].
    unfold penaltyOK in H. rewrite !nat_N_Z in H.
    apply eqb_prop in H. unfold Num.ofNat. rewrite H.
    destruct (N.leb_spec 3 (N.of_nat (count codeLine (split_crlf text))));
      split; intros H'; try reflexivity; try lia.
    elim penalty_values_differ. symmetry. exact H'.
Qed.

(** The five-line function of the test suite: every line is code-like. *)
Lemma penalty_needs_three_code_lines_witness :
  let text := lit "function test() {" ++ [LF] ++ lit "  const x = 1;" ++ [LF]
              ++ lit "  const y = 2;" ++ [LF] ++ lit "  return x + y;"
              ++ [LF] ++ lit "}" in
  (List.length (split_crlf text) <= smallText)%nat
  /\ codeLikePenalty text = 0.15
  /\ (3 <= count codeLine (split_crlf text))%nat.
Proof.
  cbv zeta.
  split; [apply Nat.leb_le; reflexivity|].
  split; [vm_compute; reflexivity|].
  apply (proj1 (penalty_needs_three_code_lines _)).
  vm_compute. reflexivity.
Defined.

(* ================================================================== *)
(** ** The reasons of the ASCII score that count lines *)

Lemma lineCounts_from ls : forall c,
  let r := fold_left lineStep ls c in
  wide r = (wide c + count wideLine ls)%nat
  /\ runs r = (runs c + count hasRun ls)%nat
  /\ borders r = (borders c + count borderLine ls)%nat
  /\ trailing r = (trailing c + count trailingLine ls)%nat.
Proof.
  unfold count.
  induction ls as [|l ls IH]; intros c; cbn zeta; cbn [fold_left filter].
  - cbn [List.length]. repeat split; lia.
  - destruct (IH (lineStep c l)) as (Hw & Hr & Hb & Ht).
    rewrite Hw, Hr, Hb, Ht.
    unfold lineStep; cbn [wide runs borders trailing].
    fold (wideLine l). fold (borderLine l). fold (trailingLine l).
    unfold incrIf.
    destruct (wideLine l), (hasRun l), (borderLine l), (trailingLine l);
      cbn [List.length]; repeat split; lia.
Qed.

(** The counters of the loop are numbers of lines. *)
Lemma lineCounts_count ls :
  wide (lineCounts ls) = count wideLine ls
  /\ runs (lineCounts ls) = count hasRun ls
  /\ borders (lineCounts ls) = count borderLine ls
  /\ trailing (lineCounts ls) = count trailingLine ls.
Proof. exact (lineCounts_from ls noCounts). Qed.

Lemma share_checked : shareCheck shareBound = true.
Proof. vm_compute. reflexivity. Qed.

Lemma shareCheck_spec (bound : nat) (n c : N) :
  shareCheck bound = true ->
  (1 <= n)%N -> (n <= N.of_nat bound)%N -> (c <= n)%N ->
  shareOK n c = true.
Proof.
  unfold shareCheck. intros H H1 Hn Hc.
  apply (checkFrom_spec _ _ _ n) in H; [|lia|lia].
  apply (checkFrom_spec _ _ _ c) in H; [exact H|lia|lia].
Qed.

Lemma shares_exact (n c : nat) :
  (1 <= n <= shareBound)%nat -> (c <= n)%nat ->
  (0.7 <=? Num.ofNat c / Num.ofNat n) = (7 * n <=? 10 * c)%nat
  /\ (0.08 <=? Num.ofNat c / Num.ofNat n) = (2 * n <=? 25 * c)%nat
  /\ (0.1 <=? Num.ofNat c / Num.ofNat n) = (n <=? 10 * c)%nat
  /\ (Num.max 2 (Num.floor (Num.ofNat n * 0.05)) <=? Num.ofNat c)
     = (Nat.max 2 (n / 20) <=? c)%nat.
Proof.
  intros Hn Hc.
  assert (H : shareOK (N.of_nat n) (N.of_nat c) = true)
    by (apply (shareCheck_spec shareBound); [apply share_checked|lia|lia|lia]).
  unfold shareOK in H. cbv zeta in H. rewrite !nat_N_Z in H.
  apply andb_true_iff in H. destruct H as [H H4].
  apply andb_true_iff in H. destruct H as [H H3].
  apply andb_true_iff in H. destruct H as [H1 H2].
  apply Bool.eqb_prop in H1, H2, H3, H4.
  unfold Num.ofNat. rewrite H1, H2, H3, H4.
  assert (Hd : N.of_nat (n / 20) = (N.of_nat n / 20)%N).
  { apply N2Z.inj. rewrite N2Z.inj_div, !nat_N_Z, Nat2Z.inj_div. reflexivity. }
  repeat split.
  - destruct (Nat.leb_spec (7 * n) (10 * c));
      [apply N.leb_le | apply N.leb_gt]; lia.
  - destruct (Nat.leb_spec (2 * n) (25 * c));
      [apply N.leb_le | apply N.leb_gt]; lia.
  - destruct (Nat.leb_spec n (10 * c));
      [apply N.leb_le | apply N.leb_gt]; lia.
  - rewrite <- Hd.
    destruct (Nat.leb_spec (Nat.max 2 (n / 20)) c);
      [apply N.leb_le | apply N.leb_gt]; lia.
Qed.

(** X11: on a text of 3 to 300 lines the four reasons that count lines
    compare whole numbers: [many_wide_lines] is given exactly when at least
    7 in 10 lines have 20 code units or more, [long_same_char_runs] when
    the lines with a run are at least 2 and at least a twentieth of the
    lines, rounded down, [border_like_lines] when at least 2 in 25 lines
    are border-like, and [trailing_spaces] when at least 1 in 10 lines
    ends in white space without being blank. *)
Theorem line_reasons_by_share (text : str) (st : Store) :
  let ls := split_nl (normalize text) in
  let n := List.length ls in
  let rs := AScore.reasons (fst (asciiArtScore text st)) in
  (3 <= n <= shareBound)%nat ->
  (In "many_wide_lines" rs <-> (7 * n <= 10 * count wideLine ls)%nat)
  /\ (In "long_same_char_runs" rs
      <-> (Nat.max 2 (n / 20) <= count hasRun ls)%nat)
  /\ (In "border_like_lines" rs <-> (2 * n <= 25 * count borderLine ls)%nat)
  /\ (In "trailing_spaces" rs <-> (n <= 10 * count trailingLine ls)%nat).
Proof.
  cbv zeta. intros [H3 Hn]. rewrite asciiArtScore_value.
  unfold asciiArtValue.
  destruct (List.length (split_nl (normalize text)) <? 3)%nat eqn:E;
    [apply Nat.ltb_lt in E; lia|].
  unfold asciiFinish. cbn [AScore.reasons].
  set (ls := split_nl (normalize text)) in *.
  destruct (lineCounts_count ls) as (Hw & Hr & Hb & Ht).
  rewrite Hw, Hr, Hb, Ht.
  destruct (shares_exact (List.length ls) (count wideLine ls))
    as (-> & _ & _ & _); [lia | apply count_le |].
  destruct (shares_exact (List.length ls) (count hasRun ls))
    as (_ & _ & _ & ->); [lia | apply count_le |].
  destruct (shares_exact (List.length ls) (count borderLine ls))
    as (_ & -> & _ & _); [lia | apply count_le |].
  destruct (shares_exact (List.length ls) (count trailingLine ls))
    as (_ & _ & -> & _); [lia | apply count_le |].
  rewrite asciiAccum_reasons. rewrite !In_selected.
  cbn [asciiTags combine In].
  rewrite <- !Nat.leb_le.
  repeat split; intros H;
    repeat (destruct H as [H | H]; [try discriminate H|]);
    try contradiction;
    first [ injection H; intros; congruence | rewrite H; tauto ].
Qed.

(** Three lines of which two are wide and carry a run, a border and
    trailing white space. *)
Lemma line_reasons_by_share_witness :
  let text := lit "+--------------------+ " ++ [LF] ++ lit "x" ++ [LF]
              ++ lit "+--------------------+ " in
  (3 <= List.length (split_nl (normalize text)) <= shareBound)%nat
  /\ In "border_like_lines"
       (AScore.reasons (fst (asciiArtScore text freshStore)))
  /\ ~ In "many_wide_lines"
       (AScore.reasons (fst (asciiArtScore text freshStore))).
Proof.
  cbv zeta.
  match goal with |- ?H /\ _ => assert (Hn : H) end.
  { split; apply Nat.leb_le; reflexivity. }
  split; [exact Hn|].
  destruct (line_reasons_by_share _ freshStore Hn) as (Hw & _ & Hb & _).
  split.
  - apply (proj2 Hb). apply Nat.leb_le. vm_compute. reflexivity.
  - intros H. pose proof (proj2 (Nat.leb_le _ _) (proj1 Hw H)) as H'.
    vm_compute in H'. discriminate H'.
Defined.
(* ================================================================== *)
(** ** The lines that the ASCII score counts *)

Lemma copies_iff c : forall n r,
  copies c n r = true <-> exists b, r = repeat c n ++ b.
Proof.
  induction n as [|n IH]; intros r; cbn [copies repeat app].
  - split; [intros _; exists r; reflexivity | reflexivity].
  - destruct r as [|d r].
    + split; [discriminate | intros (b & E); discriminate E].
    + rewrite andb_true_iff, N.eqb_eq, IH. split.
      * intros (-> & b & ->). exists b. reflexivity.
      * intros (b & E). injection E as -> ->. split; [reflexivity|].
        exists b. reflexivity.
Qed.

Lemma hasRun_iff l : hasRun l = true <-> runShape l.
Proof.
  unfold runShape. split.
  - induction l as [|c r IH]; cbn [hasRun]; [discriminate|].
    intros H. apply orb_true_iff in H. destruct H as [H | H].
    + apply andb_true_iff in H. destruct H as [Hc H].
      apply copies_iff in H. destruct H as (b & ->).
      exists [], c, b. apply negb_true_iff in Hc. split; [reflexivity|exact Hc].
    + destruct (IH H) as (a & d & b & -> & Hd).
      exists (c :: a), d, b. split; [reflexivity | exact Hd].
  - intros (a & c & b & -> & Hc).
    induction a as [|x a IH]; cbn [app hasRun repeat].
    + rewrite Hc. cbn [negb andb].
      replace (copies c 4 (c :: c :: c :: c :: b)) with true; [reflexivity|].
      symmetry. apply copies_iff. exists b. reflexivity.
    + cbn [app repeat] in IH. rewrite IH. apply orb_true_r.
Qed.

Lemma forallb_last (p : char -> bool) c b :
  forallb p (c :: b) = true -> p (last (c :: b) 0%N) = true.
Proof.
  revert c. induction b as [|d b IH]; intros c H.
  - cbn in *. apply andb_true_iff in H. exact (proj1 H).
  - change (last (c :: d :: b) 0%N) with (last (d :: b) 0%N).
    apply IH. cbn [forallb] in H. apply andb_true_iff in H. exact (proj2 H).
Qed.

Lemma ends_in_space_iff l :
  test (re (cat [plus space; Eol])) l = true
  <-> exists body c, l = body ++ [c] /\ isSpace c = true.
Proof.
  rewrite test_correct by reflexivity. unfold Found.
  cbn [source multiline re]. unfold cat, plus, space. cbn [fold_right].
  split.
  - intros (a & w & y & E & H).
    apply Match_seq in H. destruct H as (z & H1 & H).
    apply Match_seq in H1. destruct H1 as (z1 & (c & E1 & Hc & _) & H2).
    apply Match_star_chr in H2. destruct H2 as (b & E2 & Hb & _).
    apply Match_seq in H. destruct H as (z2 & (He & ->) & H).
    cbn [Match] in H. subst y.
    cbn [snd] in E1. unfold atEol in He. cbn [andb] in He.
    destruct (snd z) as [|? ?]; [|discriminate He].
    rewrite app_nil_r in E2. rewrite E1, E2 in E. clear E1 E2.
    assert (Hs : forallb isSpace (c :: b) = true)
      by (cbn [forallb]; rewrite Hc, Hb; reflexivity).
    destruct (@exists_last _ (c :: b)) as (body & d & Ed); [discriminate|].
    exists (a ++ body), d. split.
    + rewrite E, Ed, app_assoc. reflexivity.
    + apply forallb_last in Hs. rewrite Ed, last_last in Hs. exact Hs.
  - intros (body & c & -> & Hc).
    exists body, [c], (Some c, []). split; [reflexivity|].
    apply Match_seq. exists (Some c, []). split.
    + apply Match_seq. exists (Some c, []). split.
      * apply Match_chr_intro. exact Hc.
      * apply (Match_star_chr_intro false true isSpace (Some c) [] []).
        reflexivity.
    + apply Match_seq. exists (Some c, []).
      split; [split; reflexivity | reflexivity].
Qed.

Lemma not_blank_iff l :
  negb (Nat.eqb (List.length (trim l)) 0) = true
  <-> exists d, In d l /\ isSpace d = false.
Proof.
  rewrite negb_true_iff, Nat.eqb_neq, length_zero_iff_nil, trim_nil_iff.
  split.
  - intros H. induction l as [|c l IH]; [elim H; reflexivity|].
    destruct (isSpace c) eqn:E.
    + destruct IH as (d & Hd & Hs).
      * intros Hl. apply H. cbn [forallb]. rewrite E, Hl. reflexivity.
      * exists d. split; [right; exact Hd | exact Hs].
    + exists c. split; [left; reflexivity | exact E].
  - intros (d & Hd & Hs) H. rewrite forallb_forall in H.
    rewrite (H d Hd) in Hs. discriminate Hs.
Qed.

(** X12: the lines counted for the ASCII score.  A line is wide when it
    has at least 20 code units; it has a run when five equal code units
    that are no line terminator stand in a row; it has trailing white
    space when its last code unit is white space and it is not blank. *)
Theorem counted_line_shapes (l : str) :
  (wideLine l = true <-> (20 <= List.length l)%nat)
  /\ (hasRun l = true <-> runShape l)
  /\ (trailingLine l = true <-> trailingShape l).
Proof.
  split; [apply Nat.leb_le|]. split; [apply hasRun_iff|].
  unfold trailingLine, trailingShape.
  rewrite andb_true_iff, ends_in_space_iff, not_blank_iff. reflexivity.
Qed.
(* ================================================================== *)
(** ** The code-like lines *)

Lemma Match_plus_chr ml p x y :
  Match ml (plus (Chr p)) x y <->
  exists b, b <> [] /\ snd x = b ++ snd y /\ forallb p b = true
            /\ fst y = lastOr (fst x) b.
Proof.
  unfold plus. rewrite Match_seq. split.
  - intros (z & (c & E & Hc & Hf) & H).
    apply Match_star_chr in H. destruct H as (b & Eb & Hb & Hl).
    exists (c :: b). split; [discriminate|].
    split; [rewrite E, Eb; reflexivity|].
    split; [cbn [forallb]; rewrite Hc, Hb; reflexivity|].
    rewrite Hl, Hf. change (c :: b) with ([c] ++ b).
    rewrite lastOr_app. reflexivity.
  - intros (b & Hne & E & Hb & Hl).
    destruct b as [|c b]; [elim Hne; reflexivity|].
    cbn [forallb] in Hb. apply andb_true_iff in Hb. destruct Hb as [Hc Hb].
    exists (Some c, b ++ snd y). split.
    + exists c. repeat split; assumption.
    + apply Match_star_chr. exists b. cbn [fst snd].
      split; [reflexivity|]. split; [exact Hb|].
      rewrite Hl. change (c :: b) with ([c] ++ b).
      rewrite lastOr_app. reflexivity.
Qed.

Lemma Match_alts_from ml x y : forall rs r,
  Match ml (fold_left Alt rs r) x y
  <-> Match ml r x y \/ exists r', In r' rs /\ Match ml r' x y.
Proof.
  induction rs as [|a rs IH]; intros r; cbn [fold_left].
  - split; [auto | intros [H | (r' & [] & _)]; exact H].
  - rewrite IH. cbn [Match]. split.
    + intros [[H | H] | (r' & Hin & H)]; auto.
      * right. exists a. split; [left; reflexivity | exact H].
      * right. exists r'. split; [right; exact Hin | exact H].
    + intros [H | (r' & [<- | Hin] & H)]; auto.
      right. exists r'. split; assumption.
Qed.

Lemma Match_alts ml r rs x y :
  Match ml (alts (r :: rs)) x y
  <-> exists r', In r' (r :: rs) /\ Match ml r' x y.
Proof.
  unfold alts. rewrite Match_alts_from. split.
  - intros [H | (r' & Hin & H)].
    + exists r. split; [left; reflexivity | exact H].
    + exists r'. split; [right; exact Hin | exact H].
  - intros (r' & [<- | Hin] & H); [left; exact H|].
    right. exists r'. split; assumption.
Qed.

Lemma indented_iff l :
  test (re (cat [Bol; Alt (repMin 2 space) (chN 9%N)])) l = true
  <-> indented l.
Proof.
  rewrite test_correct by reflexivity. unfold Found, indented.
  cbn [source multiline re]. unfold cat, repMin, space, chN.
  cbn [fold_right rep]. split.
  - intros (a & w & y & E & H).
    apply Match_seq in H. destruct H as (z0 & (Hb & ->) & H).
    cbn [fst] in Hb. apply atBol_start in Hb. subst a. cbn [app] in E.
    apply Match_seq in H. destruct H as (z1 & [H | H] & _).
    + right. apply Match_seq in H. destruct H as (z2 & H & _).
      apply Match_seq in H. destruct H as (z3 & (c & Ec & Hc & _) & H).
      apply Match_seq in H. destruct H as (z4 & (d & Ed & Hd & _) & _).
      cbn [snd] in Ec. exists c, d, (snd z4).
      rewrite E, Ec, Ed. repeat split; assumption.
    + left. destruct H as (c & Ec & Hc & _). cbn [snd] in Ec.
      apply N.eqb_eq in Hc. subst c. exists (snd z1).
      rewrite E, Ec. reflexivity.
  - intros [(rest & ->) | (c & d & rest & -> & Hc & Hd)].
    + exists [], (9%N :: rest), (Some 9%N, rest). split; [reflexivity|].
      apply Match_seq. eexists. split; [split; reflexivity|].
      apply Match_seq. eexists. split; [|reflexivity].
      right. apply Match_chr_intro. reflexivity.
    + exists [], (c :: d :: rest), (Some d, rest). split; [reflexivity|].
      apply Match_seq. eexists. split; [split; reflexivity|].
      apply Match_seq. eexists. split; [|reflexivity].
      left. apply Match_seq. exists (Some d, rest). split.
      * apply Match_seq. eexists. split; [apply Match_chr_intro; exact Hc|].
        apply Match_seq. eexists. split; [apply Match_chr_intro; exact Hd|].
        reflexivity.
      * apply (Match_star_chr_intro false true isSpace (Some d) [] rest).
        reflexivity.
Qed.

Lemma endsStatement_iff l :
  test (re (cat [ch ";"; star space; Eol])) l = true <-> endsStatement l.
Proof.
  rewrite test_correct by reflexivity. unfold Found, endsStatement.
  cbn [source multiline re]. unfold cat, star, space, ch, chN.
  cbn [fold_right]. split.
  - intros (a & w & y & E & H).
    apply Match_seq in H. destruct H as (z1 & (c & Ec & Hc & _) & H).
    apply Match_seq in H. destruct H as (z2 & H2 & H).
    apply Match_seq in H. destruct H as (z3 & (He & ->) & _).
    apply Match_star_chr in H2. destruct H2 as (ws & E2 & Hws & _).
    apply N.eqb_eq in Hc. subst c. cbn [snd] in Ec.
    unfold atEol in He. cbn [andb] in He.
    destruct (snd z2) as [|? ?]; [|discriminate He].
    rewrite app_nil_r in E2. exists a, ws.
    rewrite E, Ec, E2. split; [reflexivity | exact Hws].
  - intros (a & ws & -> & Hws).
    exists a, (cu ";" :: ws), (lastOr (Some (cu ";")) ws, []).
    split; [reflexivity|].
    apply Match_seq. eexists. split; [apply Match_chr_intro; reflexivity|].
    apply Match_seq. exists (lastOr (Some (cu ";")) ws, []). split.
    + pose proof (Match_star_chr_intro false true isSpace (Some (cu ";"))
                    ws [] Hws) as H.
      rewrite app_nil_r in H. exact H.
    + apply Match_seq. eexists. split; [split; reflexivity | reflexivity].
Qed.

Lemma codeWord_edges kw :
  In kw codeWords ->
  exists c r, lit kw = c :: r /\ isWord c = true
              /\ isWord (last (lit kw) 0%N) = true.
Proof.
  intros H. cbn [codeWords In] in H.
  repeat (destruct H as [<- | H];
          [eexists _, _; repeat split; reflexivity|]).
  contradiction.
Qed.

Lemma xorb_true_l_iff b : xorb b true = true <-> b = false.
Proof. destruct b; cbn; split; congruence. Qed.

Lemma xorb_true_r_iff b : xorb true b = true <-> b = false.
Proof. destruct b; cbn; split; congruence. Qed.

Lemma keyword_iff l :
  test (re (cat [WordB; alts (map word codeWords); WordB])) l = true
  <-> keywordShape l.
Proof.
  rewrite test_correct by reflexivity. unfold Found, keywordShape.
  cbn [source multiline re]. unfold cat. cbn [fold_right]. split.
  - intros (a & w & y & E & H).
    apply Match_seq in H. destruct H as (z0 & (Hb0 & ->) & H).
    apply Match_seq in H. destruct H as (z1 & Ha & H).
    apply Match_seq in H. destruct H as (z2 & (Hb1 & ->) & _).
    cbn [map codeWords] in Ha. apply Match_alts in Ha.
    destruct Ha as (r' & Hin & Hm).
    change (In r' (map word codeWords)) in Hin.
    apply in_map_iff in Hin. destruct Hin as (kw & <- & Hkw).
    apply Match_chars in Hm. cbn [fst snd] in Hm, Hb0.
    destruct Hm as [Ew Hl].
    destruct (codeWord_edges kw Hkw) as (c & r & Ec & Hc & Hlast).
    exists a, kw, (snd z1). split; [rewrite E, Ew; reflexivity|].
    split; [exact Hkw|]. split.
    + rewrite Ew, Ec in Hb0. cbn [app hd_error isWordAt] in Hb0.
      rewrite Hc in Hb0. apply xorb_true_l_iff in Hb0. exact Hb0.
    + rewrite Hl, Ec in Hb1. cbn [lastOr isWordAt] in Hb1.
      rewrite <- Ec, Hlast in Hb1. apply xorb_true_r_iff in Hb1. exact Hb1.
  - intros (a & kw & b & -> & Hkw & Ha & Hb).
    destruct (codeWord_edges kw Hkw) as (c & r & Ec & Hc & Hlast).
    exists a, (lit kw ++ b), (lastOr (lastOr None a) (lit kw), b).
    split; [reflexivity|].
    apply Match_seq. eexists. split.
    { split; [|reflexivity]. cbn [fst snd]. rewrite Ec.
      cbn [app hd_error isWordAt]. rewrite Ha, Hc. reflexivity. }
    apply Match_seq. exists (lastOr (lastOr None a) (lit kw), b). split.
    { cbn [map codeWords]. apply Match_alts. exists (word kw). split.
      - change (In (word kw) (map word codeWords)). apply in_map. exact Hkw.
      - apply Match_chars. split; reflexivity. }
    apply Match_seq. eexists. split; [|reflexivity].
    split; [|reflexivity]. cbn [fst snd]. rewrite Ec. cbn [lastOr isWordAt].
    rewrite <- Ec, Hlast, Hb. reflexivity.
Qed.

Lemma hasBrace_iff l : test (re (oneOf "{}`")) l = true <-> hasBrace l.
Proof.
  unfold oneOf, hasBrace. rewrite test_chr_iff.
  split; intros (c & Hc & H); exists c; (split; [exact Hc|]);
    apply has_In; exact H.
Qed.

Lemma trace_iff l :
  test (re (Alt (cat [WordB; word "Exception:"])
                (cat [WordB; word "at"; plus space;
                      plus (Chr (fun c => isWord c || N.eqb c (cu ".")));
                      ch " "; ch "(";
                      plus (Chr (fun c => isWord c || has (lit "/.:-") c));
                      ch ")"]))) l = true
  <-> traceShape l.
Proof.
  rewrite test_correct by reflexivity. unfold Found, traceShape.
  cbn [source multiline re]. unfold cat, space, ch, chN. cbn [fold_right].
  split.
  - intros (a & w & y & E & [H | H]).
    + left. apply Match_seq in H. destruct H as (z0 & (Hb & ->) & H).
      apply Match_seq in H. destruct H as (z1 & H & _).
      apply Match_chars in H. cbn [fst snd] in H, Hb. destruct H as [Ew _].
      exists a, (snd z1). split; [rewrite E, Ew; reflexivity|].
      rewrite Ew in Hb. apply xorb_true_l_iff in Hb. exact Hb.
    + right. apply Match_seq in H. destruct H as (z0 & (Hb & ->) & H).
      apply Match_seq in H. destruct H as (z1 & H1 & H).
      apply Match_seq in H. destruct H as (z2 & H2 & H).
      apply Match_seq in H. destruct H as (z3 & H3 & H).
      apply Match_seq in H. destruct H as (z4 & (c4 & E4 & H4 & _) & H).
      apply Match_seq in H. destruct H as (z5 & (c5 & E5 & H5 & _) & H).
      apply Match_seq in H. destruct H as (z6 & H6 & H).
      apply Match_seq in H. destruct H as (z7 & (c7 & E7 & H7 & _) & _).
      apply Match_chars in H1. cbn [fst snd] in H1, Hb. destruct H1 as [E1 _].
      apply Match_plus_chr in H2. destruct H2 as (ws & Nws & E2 & Hws & _).
      apply Match_plus_chr in H3. destruct H3 as (name & Nn & E3 & Hn & _).
      apply Match_plus_chr in H6. destruct H6 as (loc & Nl & E6 & Hloc & _).
      apply N.eqb_eq in H4, H5, H7. subst c4 c5 c7.
      exists a, ws, name, loc, (snd z7).
      split; [rewrite E, E1, E2, E3, E4, E5, E6, E7; reflexivity|].
      rewrite E1 in Hb. apply xorb_true_l_iff in Hb.
      repeat split; assumption.
  - intros [(a & b & -> & Ha)
           | (a & ws & name & loc & b & -> & Ha & Nws & Hws & Nn & Hn
              & Nl & Hloc)].
    + exists a, (lit "Exception:" ++ b),
        (lastOr (lastOr None a) (lit "Exception:"), b).
      split; [reflexivity|]. left.
      apply Match_seq. eexists. split.
      { split; [|reflexivity]. cbn [fst snd]. apply xorb_true_l_iff.
        exact Ha. }
      apply Match_seq. eexists. split; [|reflexivity].
      apply Match_chars. split; reflexivity.
    + eexists a, _, (Some (cu ")"), b).
      split; [reflexivity|]. right.
      set (t3 := lit " (" ++ loc ++ lit ")" ++ b).
      apply Match_seq. eexists. split.
      { split; [|reflexivity]. cbn [fst snd]. apply xorb_true_l_iff.
        exact Ha. }
      apply Match_seq.
      exists (lastOr (lastOr None a) (lit "at"), ws ++ name ++ t3). split.
      { apply Match_chars. split; reflexivity. }
      apply Match_seq.
      exists (lastOr (lastOr (lastOr None a) (lit "at")) ws, name ++ t3).
      split.
      { apply Match_plus_chr. exists ws. cbn [fst snd].
        repeat split; [exact Nws | exact Hws]. }
      apply Match_seq.
      exists (lastOr (lastOr (lastOr (lastOr None a) (lit "at")) ws) name, t3).
      split.
      { apply Match_plus_chr. exists name. cbn [fst snd].
        repeat split; [exact Nn | exact Hn]. }
      apply Match_seq. exists (Some (cu " "), cu "(" :: loc ++ lit ")" ++ b).
      split; [apply Match_chr_intro; reflexivity|].
      apply Match_seq. exists (Some (cu "("), loc ++ lit ")" ++ b).
      split; [apply Match_chr_intro; reflexivity|].
      apply Match_seq. exists (lastOr (Some (cu "(")) loc, lit ")" ++ b).
      split.
      { apply Match_plus_chr. exists loc. cbn [fst snd].
        repeat split; [exact Nl | exact Hloc]. }
      apply Match_seq. exists (Some (cu ")"), b).
      split; [apply Match_chr_intro; reflexivity|].
      reflexivity.
Qed.

(** X13: a line is code-like exactly when it has one of five shapes: it
    opens with a tab or two white-space code units; it ends in a semicolon
    and optional white space; it holds one of the eleven words
    ([function], [class], ..., [while]) between code units that are no
    word characters; it holds a brace or a backtick; it holds
    [Exception:], or [at], white space, a dotted name, a space and a
    location in parentheses, after a code unit that is no word
    character. *)
Theorem code_line_shapes (l : str) :
  codeLine l = true
  <-> indented l \/ endsStatement l \/ keywordShape l \/ hasBrace l
      \/ traceShape l.
Proof.
  unfold codeLine, codeHints. cbn [existsb].
  rewrite !orb_true_iff.
  change [word "function"; word "class"; word "import"; word "export";
          word "const"; word "let"; word "var"; word "def"; word "if";
          word "for"; word "while"] with (map word codeWords).
  rewrite indented_iff, endsStatement_iff, keyword_iff, hasBrace_iff,
    trace_iff.
  assert (F : false = true <-> False) by (split; [discriminate | tauto]).
  rewrite F. tauto.
Qed.

(** *** The penalty, stated on the shapes of the lines *)






(** Three lines of two spaces: called on this blank string,
    [codeLikePenalty] would return 0.15, but [detectTextFormat] returns
    before it calls it, and the result carries no flag. *)
Lemma blank_text_has_no_flag :
  let text := lit "  " ++ [LF] ++ lit "  " ++ [LF] ++ lit "  " in
  trim text = []
  /\ codeLikePenalty text = 0.15
  /\ fst (detectTextFormat (VString text) freshStore) = emptyResult.
Proof. cbv zeta. repeat split; vm_compute; reflexivity. Qed.
(* ================================================================== *)
(** ** What the markdown patterns look for *)

Lemma lineStart_iff a : atBol true (lastOr None a) = true <-> lineStart a.
Proof.
  unfold lineStart. destruct a as [|x a].
  - cbn. split; [left; reflexivity | reflexivity].
  - destruct (@exists_last _ (x :: a)) as (b & c & E); [discriminate|].
    rewrite E. unfold lastOr. destruct (b ++ [c]) eqn:E'.
    + destruct b; discriminate E'.
    + rewrite <- E', last_last. cbn [atBol andb]. split.
      * intros H. right. exists b, c. split; [reflexivity | exact H].
      * intros [H | (b' & c' & H & Hc)]; [destruct b; discriminate H|].
        apply app_inj_tail in H. destruct H as [_ ->]. exact Hc.
Qed.

Lemma forallb_eqb_repeat (c : char) (b : str) :
  forallb (N.eqb c) b = true <-> b = @repeat char c (@List.length char b).
Proof.
  induction b as [|d b IH]; cbn [forallb List.length repeat].
  - split; reflexivity.
  - rewrite andb_true_iff, N.eqb_eq, IH. split.
    + intros [-> E]. rewrite <- E. reflexivity.
    + intros E. injection E as -> E. split; [reflexivity | exact E].
Qed.

Lemma Match_upTo_chr ml p : forall n x y,
  Match ml (upTo n (Chr p)) x y <->
  exists b, (List.length b <= n)%nat /\ snd x = b ++ snd y
            /\ forallb p b = true /\ fst y = lastOr (fst x) b.
Proof.
  induction n as [|n IH]; intros x y; cbn [upTo].
  - cbn [Match]. split.
    + intros ->. exists []. split; [apply Nat.le_refl | repeat split].
    + intros (b & Hl & E & _ & Hf). destruct b; [|cbn in Hl; lia].
      destruct x, y. cbn in *. subst. reflexivity.
  - unfold opt. split.
    + intros [H | H].
      * apply Match_seq in H. destruct H as (z & (c & E & Hc & Hf) & H).
        apply IH in H. destruct H as (b & Hl & Eb & Hb & Hfb).
        exists (c :: b). split; [cbn; lia|].
        split; [rewrite E, Eb; reflexivity|].
        split; [cbn [forallb]; rewrite Hc, Hb; reflexivity|].
        rewrite Hfb, Hf. change (c :: b) with ([c] ++ b).
        rewrite lastOr_app. reflexivity.
      * cbn [Match] in H. subst y. exists [].
        split; [cbn; lia | repeat split].
    + intros (b & Hl & E & Hb & Hf). destruct b as [|c b].
      * right. destruct x, y. cbn in *. subst. reflexivity.
      * left. cbn [forallb] in Hb. apply andb_true_iff in Hb.
        destruct Hb as [Hc Hb].
        apply Match_seq. exists (Some c, b ++ snd y). split.
        -- exists c. repeat split; assumption.
        -- apply IH. exists b. cbn [fst snd]. cbn in Hl.
           split; [lia|]. split; [reflexivity|]. split; [exact Hb|].
           rewrite Hf. change (c :: b) with ([c] ++ b).
           rewrite lastOr_app. reflexivity.
Qed.

Lemma forallb_not (x : ascii) (b : str) :
  forallb (fun c => negb (has [cu x] c)) b = true <-> ~ In (cu x) b.
Proof.
  rewrite forallb_forall. split.
  - intros H Hin. specialize (H _ Hin). cbn in H.
    rewrite N.eqb_refl in H. discriminate H.
  - intros H c Hin. cbn. destruct (N.eqb_spec c (cu x)) as [-> | _];
      [contradiction | reflexivity].
Qed.

Lemma Match_rep_chr ml p : forall n x y,
  Match ml (rep n (Chr p)) x y <->
  exists b, List.length b = n /\ snd x = b ++ snd y
            /\ forallb p b = true /\ fst y = lastOr (fst x) b.
Proof.
  induction n as [|n IH]; intros x y; cbn [rep].
  - cbn [Match]. split.
    + intros ->. exists []. repeat split.
    + intros (b & Hl & E & _ & Hf). destruct b; [|discriminate Hl].
      destruct x, y. cbn in *. subst. reflexivity.
  - rewrite Match_seq. split.
    + intros (z & (c & E & Hc & Hf) & H).
      apply IH in H. destruct H as (b & Hl & Eb & Hb & Hfb).
      exists (c :: b). split; [cbn; rewrite Hl; reflexivity|].
      split; [rewrite E, Eb; reflexivity|].
      split; [cbn [forallb]; rewrite Hc, Hb; reflexivity|].
      rewrite Hfb, Hf. change (c :: b) with ([c] ++ b).
      rewrite lastOr_app. reflexivity.
    + intros (b & Hl & E & Hb & Hf). destruct b as [|c b]; [discriminate Hl|].
      cbn [forallb] in Hb. apply andb_true_iff in Hb. destruct Hb as [Hc Hb].
      exists (Some c, b ++ snd y). split.
      * exists c. repeat split; assumption.
      * apply IH. exists b. cbn [fst snd]. injection Hl as Hl.
        split; [exact Hl|]. split; [reflexivity|]. split; [exact Hb|].
        rewrite Hf. change (c :: b) with ([c] ++ b).
        rewrite lastOr_app. reflexivity.
Qed.

Lemma Match_repRange_chr ml p lo hi x y :
  (lo <= hi)%nat ->
  (Match ml (repRange lo hi (Chr p)) x y <->
   exists b, (lo <= List.length b <= hi)%nat /\ snd x = b ++ snd y
             /\ forallb p b = true /\ fst y = lastOr (fst x) b).
Proof.
  intros Hle. unfold repRange. rewrite Match_seq. split.
  - intros (z & H1 & H2).
    apply Match_rep_chr in H1. destruct H1 as (b1 & L1 & E1 & P1 & F1).
    apply Match_upTo_chr in H2. destruct H2 as (b2 & L2 & E2 & P2 & F2).
    exists (b1 ++ b2). rewrite length_app, forallb_app, P1, P2.
    split; [lia|]. split; [rewrite E1, E2, app_assoc; reflexivity|].
    split; [reflexivity|]. rewrite F2, F1, lastOr_app. reflexivity.
  - intros (b & Hl & E & Hb & Hf).
    rewrite <- (firstn_skipn lo b) in E, Hb, Hf.
    rewrite forallb_app in Hb. apply andb_true_iff in Hb.
    destruct Hb as [P1 P2].
    exists (lastOr (fst x) (firstn lo b), skipn lo b ++ snd y). split.
    + apply Match_rep_chr. exists (firstn lo b). cbn [fst snd].
      split; [apply firstn_length_le; lia|].
      split; [rewrite E, app_assoc; reflexivity|].
      split; [exact P1 | reflexivity].
    + apply Match_upTo_chr. exists (skipn lo b). cbn [fst snd].
      split; [rewrite length_skipn; lia|]. split; [reflexivity|].
      split; [exact P2|]. rewrite Hf, lastOr_app. reflexivity.
Qed.

Lemma Match_repRange_chr_intro ml p lo hi prev b s :
  (lo <= List.length b <= hi)%nat -> forallb p b = true ->
  Match ml (repRange lo hi (Chr p)) (prev, b ++ s) (lastOr prev b, s).
Proof.
  intros Hl Hb. apply Match_repRange_chr; [lia|].
  exists b. repeat split; try assumption; lia.
Qed.

Lemma Match_plus_chr_intro ml p prev b s :
  b <> [] -> forallb p b = true ->
  Match ml (plus (Chr p)) (prev, b ++ s) (lastOr prev b, s).
Proof.
  intros Hn Hb. apply Match_plus_chr. exists b. repeat split; assumption.
Qed.

Lemma Match_chars_intro ml w prev s :
  Match ml (chars w) (prev, w ++ s) (lastOr prev w, s).
Proof. apply Match_chars. split; reflexivity. Qed.

Lemma Match_bol_intro ml a w :
  lineStart a -> ml = true -> Match ml Bol (lastOr None a, w) (lastOr None a, w).
Proof.
  intros H ->. split; [|reflexivity]. apply lineStart_iff. exact H.
Qed.

Lemma heading_iff raw : mdTest "heading" raw = true <-> headingShape raw.
Proof.
  change (mdTest "heading" raw)
    with (test (re_m (cat [Bol; repRange 1 6 (ch "#"); plus space;
                           plus nonSpace])) raw).
  rewrite test_correct by reflexivity. unfold Found, headingShape.
  cbn [source multiline re_m]. unfold cat, space, nonSpace, ch, chN.
  cbn [fold_right]. split.
  - intros (a & w & y & E & H).
    apply Match_seq in H. destruct H as (z0 & (Hb & ->) & H).
    apply Match_seq in H. destruct H as (z1 & H1 & H).
    apply Match_seq in H. destruct H as (z2 & H2 & H).
    apply Match_seq in H. destruct H as (z3 & H3 & _).
    apply Match_repRange_chr in H1; [|lia].
    destruct H1 as (hs & Lh & E1 & Ph & _).
    apply Match_plus_chr in H2. destruct H2 as (ws & Nws & E2 & Pws & _).
    apply Match_plus_chr in H3. destruct H3 as (ns & Nns & E3 & Pns & _).
    destruct ns as [|c ns]; [elim Nns; reflexivity|].
    cbn [forallb] in Pns. apply andb_true_iff in Pns.
    destruct Pns as [Pc _]. apply negb_true_iff in Pc.
    apply forallb_eqb_repeat in Ph. cbn [fst snd] in Hb, E1.
    exists a, (List.length hs), ws, c, (ns ++ snd z3).
    split; [rewrite E, E1, E2, E3; do 2 f_equal; exact Ph|].
    split; [apply lineStart_iff; exact Hb|].
    repeat split; try assumption; lia.
  - intros (a & k & ws & c & rest & -> & Ha & Hk & Nws & Pws & Pc).
    eexists a, _, (Some c, rest). split; [reflexivity|].
    apply Match_seq. eexists. split; [apply Match_bol_intro; auto|].
    apply Match_seq. eexists. split.
    { apply Match_repRange_chr_intro.
      - rewrite repeat_length. exact Hk.
      - apply forallb_eqb_repeat. rewrite repeat_length. reflexivity. }
    apply Match_seq. eexists. split.
    { apply Match_plus_chr_intro; assumption. }
    apply Match_seq. eexists. split; [|reflexivity].
    apply (Match_plus_chr_intro true _ _ [c] rest); [discriminate|].
    cbn. rewrite Pc. reflexivity.
Qed.

Lemma quote_iff raw : mdTest "blockquote" raw = true <-> quoteShape raw.
Proof.
  change (mdTest "blockquote" raw)
    with (test (re_m (cat [Bol; ch ">"; plus space])) raw).
  rewrite test_correct by reflexivity. unfold Found, quoteShape.
  cbn [source multiline re_m]. unfold cat, space, ch, chN.
  cbn [fold_right]. split.
  - intros (a & w & y & E & H).
    apply Match_seq in H. destruct H as (z0 & (Hb & ->) & H).
    apply Match_seq in H. destruct H as (z1 & (c1 & E1 & H1 & _) & H).
    apply Match_seq in H. destruct H as (z2 & H2 & _).
    apply Match_plus_chr in H2. destruct H2 as (ws & Nws & E2 & Pws & _).
    destruct ws as [|c ws]; [elim Nws; reflexivity|].
    cbn [forallb] in Pws. apply andb_true_iff in Pws. destruct Pws as [Pc _].
    apply N.eqb_eq in H1. subst c1. cbn [fst snd] in Hb, E1.
    exists a, c, (ws ++ snd z2).
    split; [rewrite E, E1, E2; reflexivity|].
    split; [apply lineStart_iff; exact Hb | exact Pc].
  - intros (a & c & rest & -> & Ha & Pc).
    eexists a, _, (Some c, rest). split; [reflexivity|].
    apply Match_seq. eexists. split; [apply Match_bol_intro; auto|].
    apply Match_seq. eexists. split; [apply Match_chr_intro; reflexivity|].
    apply Match_seq. eexists. split; [|reflexivity].
    apply (Match_plus_chr_intro true _ _ [c] rest); [discriminate|].
    cbn. rewrite Pc. reflexivity.
Qed.

Lemma noneOf_one (x : ascii) (b : str) :
  forallb (fun c => negb (has (lit (String x EmptyString)) c)) b = true
  <-> ~ In (cu x) b.
Proof. exact (forallb_not x b). Qed.

Lemma list_iff raw : mdTest "list" raw = true <-> listShape raw.
Proof.
  change (mdTest "list" raw)
    with (test (re_m (cat [Bol;
                Alt (cat [repRange 0 3 space; oneOf "-*+"; plus space])
                    (cat [repRange 0 3 space; plus digit; ch "."; plus space])]))
               raw).
  rewrite test_correct by reflexivity. unfold Found, listShape.
  cbn [source multiline re_m]. unfold cat, space, digit, oneOf, ch, chN.
  cbn [fold_right]. split.
  - intros (a & w & y & E & H).
    apply Match_seq in H. destruct H as (z0 & (Hb & ->) & H).
    apply Match_seq in H. destruct H as (z & [H | H] & _).
    + apply Match_seq in H. destruct H as (z1 & H1 & H).
      apply Match_seq in H. destruct H as (z2 & (m & E2 & H2 & _) & H).
      apply Match_seq in H. destruct H as (z3 & H3 & _).
      apply Match_repRange_chr in H1; [|lia].
      destruct H1 as (ind & Li & E1 & Pi & _).
      apply Match_plus_chr in H3. destruct H3 as (ws & Nws & E3 & Pws & _).
      destruct ws as [|c ws]; [elim Nws; reflexivity|].
      cbn [forallb] in Pws. apply andb_true_iff in Pws.
      destruct Pws as [Pc _]. cbn [fst snd] in Hb, E1.
      exists a, ind, [m], c, (ws ++ snd z3).
      split; [rewrite E, E1, E2, E3; reflexivity|].
      split; [apply lineStart_iff; exact Hb|].
      split; [lia|]. split; [exact Pi|]. split; [exact Pc|].
      left. exists m. split; [reflexivity | apply has_In; exact H2].
    + apply Match_seq in H. destruct H as (z1 & H1 & H).
      apply Match_seq in H. destruct H as (z2 & H2 & H).
      apply Match_seq in H. destruct H as (z3 & (d & E3 & H3 & _) & H).
      apply Match_seq in H. destruct H as (z4 & H4 & _).
      apply Match_repRange_chr in H1; [|lia].
      destruct H1 as (ind & Li & E1 & Pi & _).
      apply Match_plus_chr in H2. destruct H2 as (ds & Nds & E2 & Pds & _).
      apply Match_plus_chr in H4. destruct H4 as (ws & Nws & E4 & Pws & _).
      destruct ws as [|c ws]; [elim Nws; reflexivity|].
      cbn [forallb] in Pws. apply andb_true_iff in Pws.
      destruct Pws as [Pc _]. cbn [fst snd] in Hb, E1.
      apply N.eqb_eq in H3. subst d.
      exists a, ind, (ds ++ [cu "."]), c, (ws ++ snd z4).
      split; [rewrite E, E1, E2, E3, E4, <- !app_assoc; reflexivity|].
      split; [apply lineStart_iff; exact Hb|].
      split; [lia|]. split; [exact Pi|]. split; [exact Pc|].
      right. exists ds. repeat split; assumption.
  - intros (a & ind & marker & c & rest & -> & Ha & Li & Pi & Pc
            & [(m & -> & Hm) | (ds & -> & Nds & Pds)]).
    + eexists a, _, (Some c, rest). split; [reflexivity|].
      apply Match_seq. eexists. split; [apply Match_bol_intro; auto|].
      apply Match_seq. eexists. split; [|reflexivity]. left.
      apply Match_seq. eexists. split.
      { apply Match_repRange_chr_intro; [lia | exact Pi]. }
      apply Match_seq. eexists. split.
      { apply Match_chr_intro. apply has_In. exact Hm. }
      apply Match_seq. eexists. split; [|reflexivity].
      apply (Match_plus_chr_intro true _ _ [c] rest); [discriminate|].
      cbn. rewrite Pc. reflexivity.
    + eexists a, _, (Some c, rest). split; [reflexivity|].
      apply Match_seq. eexists. split; [apply Match_bol_intro; auto|].
      apply Match_seq. eexists. split; [|reflexivity]. right.
      rewrite <- app_assoc.
      apply Match_seq. eexists. split.
      { apply Match_repRange_chr_intro; [lia | exact Pi]. }
      apply Match_seq. eexists. split.
      { apply Match_plus_chr_intro; assumption. }
      apply Match_seq. eexists. split.
      { apply Match_chr_intro. reflexivity. }
      apply Match_seq. eexists. split; [|reflexivity].
      apply (Match_plus_chr_intro true _ _ [c] rest); [discriminate|].
      cbn. rewrite Pc. reflexivity.
Qed.

Lemma frontMatter_iff raw :
  mdTest "frontMatter" raw = true <-> frontMatterShape raw.
Proof.
  change (mdTest "frontMatter" raw)
    with (test (re_m (cat [Bol; word "---"; chN LF; starLazy any; chN LF;
                           word "---"; chN LF])) raw).
  rewrite test_correct by reflexivity. unfold Found, frontMatterShape.
  cbn [source multiline re_m]. unfold cat, starLazy, any, word, chN.
  cbn [fold_right]. split.
  - intros (a & w & y & E & H).
    apply Match_seq in H. destruct H as (z0 & (Hb & ->) & H).
    apply Match_seq in H. destruct H as (z1 & H1 & H).
    apply Match_seq in H. destruct H as (z2 & (c2 & E2 & H2 & _) & H).
    apply Match_seq in H. destruct H as (z3 & H3 & H).
    apply Match_seq in H. destruct H as (z4 & (c4 & E4 & H4 & _) & H).
    apply Match_seq in H. destruct H as (z5 & H5 & H).
    apply Match_seq in H. destruct H as (z6 & (c6 & E6 & H6 & _) & _).
    apply Match_chars in H1. destruct H1 as [E1 _].
    apply Match_star_chr in H3. destruct H3 as (body & E3 & _ & _).
    apply Match_chars in H5. destruct H5 as [E5 _].
    apply N.eqb_eq in H2, H4, H6. subst c2 c4 c6. cbn [fst snd] in Hb, E1.
    exists a, body, (snd z6).
    split; [rewrite E, E1, E2, E3, E4, E5, E6; reflexivity|].
    apply lineStart_iff. exact Hb.
  - intros (a & body & rest & -> & Ha).
    eexists a, _, (Some LF, rest). split; [reflexivity|].
    apply Match_seq. eexists. split; [apply Match_bol_intro; auto|].
    apply Match_seq. eexists. split; [apply Match_chars_intro|].
    apply Match_seq. eexists. split; [apply Match_chr_intro; reflexivity|].
    apply Match_seq. eexists. split.
    { apply Match_star_chr_intro. apply forallb_any. }
    apply Match_seq. eexists. split; [apply Match_chr_intro; reflexivity|].
    apply Match_seq. eexists. split; [apply Match_chars_intro|].
    apply Match_seq. eexists. split; [apply Match_chr_intro; reflexivity|].
    reflexivity.
Qed.

Lemma link_iff raw : mdTest "link" raw = true <-> linkShape raw.
Proof.
  change (mdTest "link" raw)
    with (test (re_m (cat [ch "["; plus (noneOf "]"); ch "]"; ch "(";
                           plus (noneOf ")"); ch ")"])) raw).
  rewrite test_correct by reflexivity. unfold Found, linkShape.
  cbn [source multiline re_m]. unfold cat, noneOf, ch, chN.
  cbn [fold_right]. split.
  - intros (a & w & y & E & H).
    apply Match_seq in H. destruct H as (z1 & (c1 & E1 & H1 & _) & H).
    apply Match_seq in H. destruct H as (z2 & H2 & H).
    apply Match_seq in H. destruct H as (z3 & (c3 & E3 & H3 & _) & H).
    apply Match_seq in H. destruct H as (z4 & (c4 & E4 & H4 & _) & H).
    apply Match_seq in H. destruct H as (z5 & H5 & H).
    apply Match_seq in H. destruct H as (z6 & (c6 & E6 & H6 & _) & _).
    apply Match_plus_chr in H2. destruct H2 as (txt & Nt & E2 & Pt & _).
    apply Match_plus_chr in H5. destruct H5 as (url & Nu & E5 & Pu & _).
    apply N.eqb_eq in H1, H3, H4, H6. subst c1 c3 c4 c6. cbn [snd] in E1.
    apply (noneOf_one "]") in Pt. apply (noneOf_one ")") in Pu.
    exists a, txt, url, (snd z6).
    split; [rewrite E, E1, E2, E3, E4, E5, E6; reflexivity|].
    repeat split; assumption.
  - intros (a & txt & url & rest & -> & Nt & Pt & Nu & Pu).
    apply (noneOf_one "]") in Pt. apply (noneOf_one ")") in Pu.
    eexists a, _, (Some (cu ")"), rest). split; [reflexivity|].
    apply Match_seq. eexists. split; [apply Match_chr_intro; reflexivity|].
    apply Match_seq. eexists. split.
    { apply Match_plus_chr_intro; [exact Nt | exact Pt]. }
    apply Match_seq. eexists. split; [apply Match_chr_intro; reflexivity|].
    apply Match_seq. eexists. split; [apply Match_chr_intro; reflexivity|].
    apply Match_seq. eexists. split.
    { apply Match_plus_chr_intro; [exact Nu | exact Pu]. }
    apply Match_seq. eexists. split; [apply Match_chr_intro; reflexivity|].
    reflexivity.
Qed.

Lemma image_iff raw : mdTest "image" raw = true <-> imageShape raw.
Proof.
  change (mdTest "image" raw)
    with (test (re_m (cat [ch "!"; ch "["; star (noneOf "]"); ch "]"; ch "(";
                           plus (noneOf ")"); ch ")"])) raw).
  rewrite test_correct by reflexivity. unfold Found, imageShape.
  cbn [source multiline re_m]. unfold cat, star, noneOf, ch, chN.
  cbn [fold_right]. split.
  - intros (a & w & y & E & H).
    apply Match_seq in H. destruct H as (z0 & (c0 & E0 & H0 & _) & H).
    apply Match_seq in H. destruct H as (z1 & (c1 & E1 & H1 & _) & H).
    apply Match_seq in H. destruct H as (z2 & H2 & H).
    apply Match_seq in H. destruct H as (z3 & (c3 & E3 & H3 & _) & H).
    apply Match_seq in H. destruct H as (z4 & (c4 & E4 & H4 & _) & H).
    apply Match_seq in H. destruct H as (z5 & H5 & H).
    apply Match_seq in H. destruct H as (z6 & (c6 & E6 & H6 & _) & _).
    apply Match_star_chr in H2. destruct H2 as (alt & E2 & Pt & _).
    apply Match_plus_chr in H5. destruct H5 as (url & Nu & E5 & Pu & _).
    apply N.eqb_eq in H0, H1, H3, H4, H6. subst c0 c1 c3 c4 c6.
    cbn [snd] in E0.
    apply (noneOf_one "]") in Pt. apply (noneOf_one ")") in Pu.
    exists a, alt, url, (snd z6).
    split; [rewrite E, E0, E1, E2, E3, E4, E5, E6; reflexivity|].
    repeat split; assumption.
  - intros (a & alt & url & rest & -> & Pt & Nu & Pu).
    apply (noneOf_one "]") in Pt. apply (noneOf_one ")") in Pu.
    eexists a, _, (Some (cu ")"), rest). split; [reflexivity|].
    apply Match_seq. eexists. split; [apply Match_chr_intro; reflexivity|].
    apply Match_seq. eexists. split; [apply Match_chr_intro; reflexivity|].
    apply Match_seq. eexists. split.
    { apply Match_star_chr_intro. exact Pt. }
    apply Match_seq. eexists. split; [apply Match_chr_intro; reflexivity|].
    apply Match_seq. eexists. split; [apply Match_chr_intro; reflexivity|].
    apply Match_seq. eexists. split.
    { apply Match_plus_chr_intro; [exact Nu | exact Pu]. }
    apply Match_seq. eexists. split; [apply Match_chr_intro; reflexivity|].
    reflexivity.
Qed.

Lemma inlineCode_iff raw :
  mdTest "inlineCode" raw = true <-> inlineCodeShape raw.
Proof.
  change (mdTest "inlineCode" raw)
    with (test (re_m (cat [Alt Bol (noneOf "`"); ch "`"; plus (noneOf "`");
                           ch "`"])) raw).
  rewrite test_correct by reflexivity. unfold Found, inlineCodeShape.
  cbn [source multiline re_m]. unfold cat, noneOf, ch, chN.
  cbn [fold_right]. split.
  - intros (a & w & y & E & H).
    apply Match_seq in H. destruct H as (z0 & H0 & H).
    apply Match_seq in H. destruct H as (z1 & (c1 & E1 & H1 & _) & H).
    apply Match_seq in H. destruct H as (z2 & H2 & H).
    apply Match_seq in H. destruct H as (z3 & (c3 & E3 & H3 & _) & _).
    apply Match_plus_chr in H2. destruct H2 as (code & Nc & E2 & Pc & _).
    apply (noneOf_one "`") in Pc.
    apply N.eqb_eq in H1, H3. subst c1 c3.
    destruct H0 as [(Hb & ->) | (c & Ec & Hc & _)]; cbn [fst snd] in *.
    + exists a, code, (snd z3).
      split; [rewrite E, E1, E2, E3; reflexivity|].
      split; [|split; assumption].
      intros Hl. rewrite Hl in Hb. cbn in Hb. discriminate Hb.
    + exists (a ++ [c]), code, (snd z3).
      split; [rewrite E, Ec, E1, E2, E3, <- app_assoc; reflexivity|].
      split; [|split; assumption].
      rewrite lastOr_app. cbn [lastOr last]. intros Hl.
      injection Hl as ->. cbn in Hc. discriminate Hc.
  - intros (a & code & rest & -> & Ha & Nc & Pc).
    apply (noneOf_one "`") in Pc.
    destruct a as [|x a'].
    + eexists [], _, (Some (cu "`"), rest). split; [reflexivity|].
      apply Match_seq. eexists. split; [left; split; reflexivity|].
      apply Match_seq. eexists. split; [apply Match_chr_intro; reflexivity|].
      apply Match_seq. eexists. split.
      { apply Match_plus_chr_intro; [exact Nc | exact Pc]. }
      apply Match_seq. eexists. split; [apply Match_chr_intro; reflexivity|].
      reflexivity.
    + destruct (@exists_last _ (x :: a')) as (b & c & Eb); [discriminate|].
      rewrite Eb in Ha |- *. rewrite lastOr_app in Ha. cbn [lastOr last] in Ha.
      eexists b, _, (Some (cu "`"), rest).
      split; [rewrite <- app_assoc; reflexivity|]. cbn [app].
      apply Match_seq. eexists. split.
      { right. apply Match_chr_intro.
        assert (P : forallb (fun c => negb (has (lit "`") c)) [c] = true).
        { apply (noneOf_one "`"). intros [Hc | []]. elim Ha. rewrite Hc.
          reflexivity. }
        cbn [forallb] in P. rewrite andb_true_r in P. exact P. }
      apply Match_seq. eexists. split; [apply Match_chr_intro; reflexivity|].
      apply Match_seq. eexists. split.
      { apply Match_plus_chr_intro; [exact Nc | exact Pc]. }
      apply Match_seq. eexists. split; [apply Match_chr_intro; reflexivity|].
      reflexivity.
Qed.

Lemma lineEnd_iff rest : atEol true rest = true <-> lineEnd rest.
Proof.
  unfold lineEnd, atEol. destruct rest as [|c r]; cbn [andb].
  - split; [left; reflexivity | reflexivity].
  - split.
    + intros H. right. exists c, r. split; [reflexivity | exact H].
    + intros [H | (c' & r' & H & Hc)]; [discriminate H|].
      injection H as -> _. exact Hc.
Qed.

Lemma forallb_negb (p : char -> bool) (b : str) :
  forallb (fun c => negb (p c)) b = true
  <-> forall c, In c b -> p c = false.
Proof.
  rewrite forallb_forall.
  split; intros H c Hc; specialize (H c Hc);
    [apply negb_true_iff | apply negb_true_iff]; exact H.
Qed.

Lemma setext_iff raw : mdTest "setext" raw = true <-> setextShape raw.
Proof.
  change (mdTest "setext" raw)
    with (test (re_m (cat [Bol; plus dot; chN LF;
                           Alt (plus (ch "=")) (plus (ch "-"));
                           star space; Eol])) raw).
  rewrite test_correct by reflexivity. unfold Found, setextShape.
  cbn [source multiline re_m]. unfold cat, star, dot, space, ch, chN.
  cbn [fold_right]. split.
  - intros (a & w & y & E & H).
    apply Match_seq in H. destruct H as (z0 & (Hb & ->) & H).
    apply Match_seq in H. destruct H as (z1 & H1 & H).
    apply Match_seq in H. destruct H as (z2 & (c2 & E2 & H2 & _) & H).
    apply Match_seq in H. destruct H as (z3 & H3 & H).
    apply Match_seq in H. destruct H as (z4 & H4 & H).
    apply Match_seq in H. destruct H as (z5 & (He & ->) & _).
    apply Match_plus_chr in H1. destruct H1 as (title & Nt & E1 & Pt & _).
    pose proof (proj1 (forallb_negb isLineTerminator title) Pt) as Pt'.
    apply Match_star_chr in H4. destruct H4 as (ws & E4 & Pws & _).
    apply N.eqb_eq in H2. subst c2. cbn [fst snd] in Hb, E1.
    assert (Hbar : exists bar, bar <> [] /\ snd z2 = bar ++ snd z3
                   /\ (bar = repeat (cu "=") (List.length bar)
                       \/ bar = repeat (cu "-") (List.length bar))).
    { destruct H3 as [H3 | H3]; apply Match_plus_chr in H3;
        destruct H3 as (bar & Nb & E3 & Pb & _);
        apply forallb_eqb_repeat in Pb; exists bar; auto. }
    destruct Hbar as (bar & Nb & E3 & Hbar).
    exists a, title, bar, ws, (snd z4).
    split; [rewrite E, E1, E2, E3, E4; reflexivity|].
    split; [apply lineStart_iff; exact Hb|].
    repeat split; try assumption. apply lineEnd_iff. exact He.
  - intros (a & title & bar & ws & rest & -> & Ha & Nt & Pt & Nb & Hbar
            & Pws & He).
    pose proof (proj2 (forallb_negb isLineTerminator title) Pt) as Pt'.
    eexists a, _, (lastOr _ ws, rest). split; [reflexivity|].
    apply Match_seq. eexists. split; [apply Match_bol_intro; auto|].
    apply Match_seq. eexists. split.
    { apply Match_plus_chr_intro; [exact Nt | exact Pt']. }
    apply Match_seq. eexists. split; [apply Match_chr_intro; reflexivity|].
    apply Match_seq. eexists. split.
    { destruct Hbar as [Hbar | Hbar]; [left | right];
        (apply Match_plus_chr_intro; [exact Nb|]);
        apply forallb_eqb_repeat; exact Hbar. }
    apply Match_seq. eexists. split.
    { apply Match_star_chr_intro. exact Pws. }
    apply Match_seq. eexists. split; [|reflexivity].
    split; [|reflexivity]. apply lineEnd_iff. exact He.
Qed.

Lemma tableRow_iff raw : mdTest "tableRow" raw = true <-> tableRowShape raw.
Proof.
  change (mdTest "tableRow" raw)
    with (test (re_m (cat [Bol; opt (ch "|"); plus (Chr cellUnit); ch "|";
                           plus (Chr cellUnit)])) raw).
  rewrite test_correct by reflexivity. unfold Found, tableRowShape.
  cbn [source multiline re_m]. unfold cat, opt, ch, chN.
  cbn [fold_right]. split.
  - intros (a & w & y & E & H).
    apply Match_seq in H. destruct H as (z0 & (Hb & ->) & H).
    apply Match_seq in H. destruct H as (z1 & H1 & H).
    apply Match_seq in H. destruct H as (z2 & H2 & H).
    apply Match_seq in H. destruct H as (z3 & (c3 & E3 & H3 & _) & H).
    apply Match_seq in H. destruct H as (z4 & H4 & _).
    apply Match_plus_chr in H2. destruct H2 as (cell & Nc & E2 & Pc & _).
    apply Match_plus_chr in H4. destruct H4 as (more & Nm & E4 & Pm & _).
    destruct more as [|c more]; [elim Nm; reflexivity|].
    cbn [forallb] in Pm. apply andb_true_iff in Pm. destruct Pm as [Pm _].
    apply N.eqb_eq in H3. subst c3. cbn [fst snd] in Hb.
    assert (Hpre : exists pre, w = pre ++ snd z1
                               /\ (pre = [] \/ pre = [cu "|"])).
    { destruct H1 as [(c1 & E1 & H1 & _) | H1].
      - apply N.eqb_eq in H1. subst c1. exists [cu "|"].
        split; [exact E1 | right; reflexivity].
      - cbn [Match] in H1. subst z1. exists []. split; [reflexivity|].
        left. reflexivity. }
    destruct Hpre as (pre & E1 & Hpre).
    exists a, pre, cell, c, (more ++ snd z4).
    split; [rewrite E, E1, E2, E3, E4; reflexivity|].
    split; [apply lineStart_iff; exact Hb|].
    repeat split; assumption.
  - intros (a & pre & cell & c & rest & -> & Ha & Hpre & Nc & Pc & Pm).
    eexists a, _, (Some c, rest). split; [reflexivity|].
    apply Match_seq. eexists. split; [apply Match_bol_intro; auto|].
    apply Match_seq. exists (lastOr (lastOr None a) pre,
                             cell ++ cu "|" :: c :: rest). split.
    { destruct Hpre as [-> | ->].
      - right. reflexivity.
      - left. apply Match_chr_intro. reflexivity. }
    apply Match_seq. eexists. split.
    { apply Match_plus_chr_intro; [exact Nc | exact Pc]. }
    apply Match_seq. eexists. split; [apply Match_chr_intro; reflexivity|].
    apply Match_seq. eexists. split; [|reflexivity].
    apply (Match_plus_chr_intro true _ _ [c] rest); [discriminate|].
    cbn [forallb]. rewrite Pm. reflexivity.
Qed.

Lemma inner_iff (body : str) :
  forallb (fun c => negb (has [cu "*"; LF] c)) body = true
  <-> forall c, In c body -> c <> cu "*" /\ c <> LF.
Proof.
  rewrite forallb_forall. split; intros H c Hc; specialize (H c Hc).
  - apply negb_true_iff in H. split; intros ->; discriminate H.
  - apply negb_true_iff. destruct (has [cu "*"; LF] c) eqn:E; [|reflexivity].
    apply has_In in E. destruct H as [H1 H2].
    destruct E as [E | [E | []]]; [elim H1 | elim H2]; symmetry; exact E.
Qed.

Lemma not_ahead_chr ml c x y :
  Match ml (NotAhead (chN c)) x y <-> hd_error (snd x) <> Some c /\ y = x.
Proof.
  cbn [Match chN]. split; intros [H ->]; (split; [|reflexivity]).
  - intros E. destruct x as [p [|d r]]; [discriminate E|].
    cbn in E. injection E as ->.
    apply (H (Some c, r)). exists c. repeat split. apply N.eqb_refl.
  - intros z (d & E & Hd & _). apply N.eqb_eq in Hd. subst d.
    rewrite E in H. elim H. reflexivity.
Qed.

Lemma emphasis_iff raw : mdTest "emphasis" raw = true <-> emphasisShape raw.
Proof.
  change (mdTest "emphasis" raw)
    with (test (re_m (cat [Alt Bol (Chr (fun c =>
                                      negb (isWord c || N.eqb c (cu "*"))));
                           repRange 1 2 (ch "*");
                           plus (Chr (fun c => negb (has [cu "*"; LF] c)));
                           repRange 1 2 (ch "*"); NotAhead (ch "*")])) raw).
  rewrite test_correct by reflexivity. unfold Found, emphasisShape.
  cbn [source multiline re_m]. unfold cat, ch.
  cbn [fold_right]. split.
  - intros (a & w & y & E & H).
    apply Match_seq in H. destruct H as (z0 & H0 & H).
    apply Match_seq in H. destruct H as (z1 & H1 & H).
    apply Match_seq in H. destruct H as (z2 & H2 & H).
    apply Match_seq in H. destruct H as (z3 & H3 & H).
    apply Match_seq in H. destruct H as (z4 & H4 & _).
    unfold chN in H1, H3.
    apply Match_repRange_chr in H1; [|lia].
    destruct H1 as (s1 & L1 & E1 & P1 & _).
    apply Match_plus_chr in H2. destruct H2 as (body & Nb & E2 & Pb & _).
    apply Match_repRange_chr in H3; [|lia].
    destruct H3 as (s2 & L2 & E3 & P2 & _).
    apply not_ahead_chr in H4. destruct H4 as [H4 _].
    apply forallb_eqb_repeat in P1, P2.
    pose proof (proj1 (inner_iff body) Pb) as Pb'. clear Pb.
    remember (List.length s1) as j eqn:Ej in *.
    remember (List.length s2) as k eqn:Ek in *. clear Ej Ek.
    destruct H0 as [(Hb & ->) | (c & Ec & Hc & _)]; cbn [fst snd] in *.
    + exists a, j, body, k, (snd z3).
      split; [rewrite E, E1, E2, E3, <- P1, <- P2; reflexivity|].
      split; [left; apply lineStart_iff; exact Hb|].
      repeat split; first [assumption | lia | apply Pb'; assumption].
    + exists (a ++ [c]), j, body, k, (snd z3).
      split.
      { rewrite E, Ec, E1, E2, E3, <- P1, <- P2, <- app_assoc. reflexivity. }
      split.
      { right. exists a, c. split; [reflexivity|].
        apply negb_true_iff, orb_false_iff in Hc. destruct Hc as [Hw Hs].
        split; [exact Hw|]. intros ->. discriminate Hs. }
      repeat split; first [assumption | lia | apply Pb'; assumption].
  - intros (a & j & body & k & rest & -> & Ha & Hj & Hk & Nb & Pb & Hr).
    pose proof (proj2 (inner_iff body) Pb) as Pb'.
    assert (Hstars : forall n prev s, (1 <= n <= 2)%nat ->
              Match true (repRange 1 2 (chN (cu "*")))
                (prev, repeat (cu "*") n ++ s)
                (lastOr prev (repeat (cu "*") n), s)).
    { intros n prev s Hn. apply Match_repRange_chr_intro.
      - rewrite repeat_length. exact Hn.
      - apply forallb_eqb_repeat. rewrite repeat_length. reflexivity. }
    assert (Htail : forall prev,
              Match true
                (Seq (repRange 1 2 (chN (cu "*")))
                  (Seq (plus (Chr (fun c => negb (has [cu "*"; LF] c))))
                    (Seq (repRange 1 2 (chN (cu "*")))
                      (Seq (NotAhead (chN (cu "*"))) Eps))))
                (prev, repeat (cu "*") j ++ body ++ repeat (cu "*") k ++ rest)
                (lastOr (lastOr (lastOr prev (repeat (cu "*") j)) body)
                        (repeat (cu "*") k), rest)).
    { intros prev.
      apply Match_seq. eexists. split; [apply Hstars; exact Hj|].
      apply Match_seq. eexists. split.
      { apply Match_plus_chr_intro; [exact Nb | exact Pb']. }
      apply Match_seq. eexists. split; [apply Hstars; exact Hk|].
      apply Match_seq. eexists. split; [|reflexivity].
      apply not_ahead_chr. split; [exact Hr | reflexivity]. }
    destruct Ha as [Ha | (b & c & -> & Hw & Hs)].
    + eexists a, _, _. split; [reflexivity|].
      apply Match_seq. eexists. split; [left; apply Match_bol_intro; auto|].
      apply Htail.
    + eexists b, _, _. split; [rewrite <- app_assoc; reflexivity|].
      cbn [app].
      apply Match_seq. eexists. split.
      { right. apply Match_chr_intro. rewrite Hw. cbn [orb].
        apply negb_true_iff. apply N.eqb_neq. exact Hs. }
      apply Htail.
Qed.

Section Segments.

Variable ml : bool.
Variable r : regex.
Variable seg : str -> Prop.

Hypothesis r_seg : forall x y,
  Match ml r x y <->
  exists s, seg s /\ snd x = s ++ snd y /\ fst y = lastOr (fst x) s.

Lemma Match_star_segs g x y :
  Match ml (Star g r) x y <->
  exists segs, Forall seg segs /\ snd x = concat segs ++ snd y
               /\ fst y = lastOr (fst x) (concat segs).
Proof.
  cbn [Match]. split.
  - induction 1 as [x | x y z Hxy _ IH].
    + exists []. repeat split. constructor.
    + apply r_seg in Hxy. destruct Hxy as (s & Hs & E & Hf).
      destruct IH as (segs & Hsegs & Es & Hfs).
      exists (s :: segs). split; [constructor; assumption|].
      cbn [concat]. rewrite <- app_assoc, lastOr_app.
      split; [rewrite E, Es; reflexivity|].
      rewrite Hfs, Hf. reflexivity.
  - intros (segs & Hsegs & E & Hf). revert x E Hf.
    induction Hsegs as [|s segs Hs _ IH]; intros [px sx] E Hf;
      cbn [fst snd concat] in *.
    + destruct y as [py sy]. cbn [fst snd lastOr app] in *. subst.
      apply Iter_done.
    + rewrite <- app_assoc in E. rewrite lastOr_app in Hf.
      apply Iter_step with (y := (lastOr px s, concat segs ++ snd y)).
      * apply r_seg. exists s. cbn [fst snd].
        split; [exact Hs|]. split; [exact E | reflexivity].
      * apply IH; cbn [fst snd]; [reflexivity | exact Hf].
Qed.

Lemma Match_rep_segs : forall n x y,
  Match ml (rep n r) x y <->
  exists segs, List.length segs = n /\ Forall seg segs
               /\ snd x = concat segs ++ snd y
               /\ fst y = lastOr (fst x) (concat segs).
Proof.
  induction n as [|n IH]; intros x y; cbn [rep].
  - cbn [Match]. split.
    + intros ->. exists []. repeat split. constructor.
    + intros (segs & Hl & _ & E & Hf). destruct segs; [|discriminate Hl].
      destruct x, y. cbn in *. subst. reflexivity.
  - rewrite Match_seq. split.
    + intros (z & Hz & H). apply r_seg in Hz.
      destruct Hz as (s & Hs & E & Hf).
      apply IH in H. destruct H as (segs & Hl & Hsegs & Es & Hfs).
      exists (s :: segs). split; [cbn; rewrite Hl; reflexivity|].
      split; [constructor; assumption|].
      cbn [concat]. rewrite <- app_assoc, lastOr_app.
      split; [rewrite E, Es; reflexivity|].
      rewrite Hfs, Hf. reflexivity.
    + intros (segs & Hl & Hsegs & E & Hf).
      destruct segs as [|s segs]; [discriminate Hl|].
      inversion Hsegs as [|? ? Hs Hrest]; subst.
      cbn [concat] in E, Hf. rewrite <- app_assoc in E.
      rewrite lastOr_app in Hf.
      exists (lastOr (fst x) s, concat segs ++ snd y). split.
      * apply r_seg. exists s. cbn [fst snd].
        split; [exact Hs|]. split; [exact E | reflexivity].
      * apply IH. exists segs. cbn [fst snd]. injection Hl as Hl.
        repeat split; assumption.
Qed.

Lemma Match_repMin_segs lo x y :
  Match ml (repMin lo r) x y <->
  exists segs, (lo <= List.length segs)%nat /\ Forall seg segs
               /\ snd x = concat segs ++ snd y
               /\ fst y = lastOr (fst x) (concat segs).
Proof.
  unfold repMin. rewrite Match_seq. split.
  - intros (z & H1 & H2).
    apply Match_rep_segs in H1. destruct H1 as (s1 & L1 & F1 & E1 & P1).
    apply Match_star_segs in H2. destruct H2 as (s2 & F2 & E2 & P2).
    exists (s1 ++ s2). rewrite length_app, concat_app, <- app_assoc.
    split; [lia|]. split; [apply Forall_app; split; assumption|].
    split; [rewrite E1, E2; reflexivity|].
    rewrite P2, P1, lastOr_app. reflexivity.
  - intros (segs & Hl & Hsegs & E & Hf).
    rewrite <- (firstn_skipn lo segs) in E, Hf, Hsegs.
    apply Forall_app in Hsegs. destruct Hsegs as [F1 F2].
    rewrite concat_app in E, Hf. rewrite <- app_assoc in E.
    rewrite lastOr_app in Hf.
    exists (lastOr (fst x) (concat (firstn lo segs)),
            concat (skipn lo segs) ++ snd y). split.
    + apply Match_rep_segs. exists (firstn lo segs). cbn [fst snd].
      split; [apply firstn_length_le; exact Hl|].
      repeat split; assumption.
    + apply Match_star_segs. exists (skipn lo segs). cbn [fst snd].
      repeat split; assumption.
Qed.

End Segments.

Lemma ruleUnit_match m x y :
  Match true (Seq (chN m) (opt space)) x y <->
  exists s, ruleUnit m s /\ snd x = s ++ snd y /\ fst y = lastOr (fst x) s.
Proof.
  unfold opt, space, chN, ruleUnit. rewrite Match_seq. split.
  - intros (z & (c & E & Hc & Hf) & [(d & Ed & Hd & Hfd) | H]).
    + apply N.eqb_eq in Hc. subst c. exists [m; d].
      split; [right; exists d; split; [reflexivity | exact Hd]|].
      split; [rewrite E, Ed; reflexivity | exact Hfd].
    + cbn [Match] in H. subst z. apply N.eqb_eq in Hc. subst c.
      exists [m]. split; [left; reflexivity|].
      split; [exact E | exact Hf].
  - intros (s & [-> | (d & -> & Hd)] & E & Hf).
    + exists y. split; [|right; reflexivity].
      exists m. split; [exact E|]. split; [apply N.eqb_refl | exact Hf].
    + exists (Some m, d :: snd y). split.
      * exists m. split; [exact E|]. split; [apply N.eqb_refl | reflexivity].
      * left. exists d. cbn [fst snd]. repeat split; assumption.
Qed.

Lemma rule_match m x y :
  Match true (cat [Bol; repMin 3 (Seq (chN m) (opt space)); Eol]) x y <->
  exists segs,
    snd x = concat segs ++ snd y
    /\ atBol true (fst x) = true /\ atEol true (snd y) = true
    /\ (3 <= List.length segs)%nat /\ Forall (ruleUnit m) segs
    /\ fst y = lastOr (fst x) (concat segs).
Proof.
  unfold cat. cbn [fold_right]. rewrite Match_seq. split.
  - intros (z0 & (Hb & ->) & H).
    apply Match_seq in H. destruct H as (z1 & H1 & H).
    apply Match_seq in H. destruct H as (z2 & (He & ->) & H).
    cbn [Match] in H. subst z1.
    apply (Match_repMin_segs true _ _ (ruleUnit_match m)) in H1.
    destruct H1 as (segs & Hl & Hs & E & Hf).
    exists segs. repeat split; assumption.
  - intros (segs & E & Hb & He & Hl & Hs & Hf).
    exists x. split; [split; [exact Hb | reflexivity]|].
    apply Match_seq. exists y. split.
    + apply (Match_repMin_segs true _ _ (ruleUnit_match m)).
      exists segs. repeat split; assumption.
    + apply Match_seq. exists y.
      split; [split; [exact He | reflexivity] | reflexivity].
Qed.

Lemma hr_iff raw : mdTest "hr" raw = true <-> hrShape raw.
Proof.
  change (mdTest "hr" raw)
    with (test (re_m (alts
            [cat [Bol; repMin 3 (Seq (chN (cu "-")) (opt space)); Eol];
             cat [Bol; repMin 3 (Seq (chN (cu "*")) (opt space)); Eol];
             cat [Bol; repMin 3 (Seq (chN (cu "_")) (opt space)); Eol]])) raw).
  rewrite test_correct by reflexivity. unfold Found, hrShape.
  cbn [source multiline re_m]. split.
  - intros (a & w & y & E & H).
    apply Match_alts in H. destruct H as (r' & Hin & H).
    assert (Hm : exists m, In m (lit "-*_") /\
              Match true (cat [Bol; repMin 3 (Seq (chN m) (opt space)); Eol])
                (lastOr None a, w) y).
    { destruct Hin as [<- | [<- | [<- | []]]];
        [exists (cu "-") | exists (cu "*") | exists (cu "_")];
        (split; [cbn; tauto | exact H]). }
    destruct Hm as (m & Hm & H').
    apply rule_match in H'. cbn [fst snd] in H'.
    destruct H' as (segs & Ew & Hb & He & Hl & Hs & _).
    exists a, m, segs, (snd y).
    split; [rewrite E, Ew; reflexivity|].
    split; [apply lineStart_iff; exact Hb|].
    split; [apply lineEnd_iff; exact He|].
    repeat split; assumption.
  - intros (a & m & segs & rest & -> & Ha & He & Hm & Hl & Hs).
    exists a, (concat segs ++ rest), (lastOr (lastOr None a) (concat segs), rest).
    split; [reflexivity|].
    apply Match_alts.
    exists (cat [Bol; repMin 3 (Seq (chN m) (opt space)); Eol]). split.
    + cbn in Hm. destruct Hm as [<- | [<- | [<- | []]]]; cbn [In]; tauto.
    + apply rule_match. exists segs. cbn [fst snd].
      split; [reflexivity|]. split; [apply lineStart_iff; exact Ha|].
      split; [apply lineEnd_iff; exact He|].
      repeat split; assumption.
Qed.

Lemma Match_charsI ml w : forall x y,
  Match ml (charsI w) x y <->
  exists name, anyCase w name /\ snd x = name ++ snd y
               /\ fst y = lastOr (fst x) name.
Proof.
  unfold anyCase.
  induction w as [|c w IH]; intros x y; cbn [charsI].
  - cbn [Match]. split.
    + intros ->. exists []. repeat split. constructor.
    + intros (name & Hn & E & Hf). inversion Hn; subst.
      destruct x, y. cbn in *. subst. reflexivity.
  - rewrite Match_seq. split.
    + intros (z & (d & E & Hd & Hf) & H).
      apply chI_iff in Hd.
      apply IH in H. destruct H as (name & Hn & En & Hfn).
      exists (d :: name). split; [constructor; assumption|].
      split; [rewrite E, En; reflexivity|].
      rewrite Hfn, Hf. change (d :: name) with ([d] ++ name).
      rewrite lastOr_app. reflexivity.
    + intros (name & Hn & E & Hf).
      inversion Hn as [|? d ? name' Hd Hrest]; subst.
      exists (Some d, name' ++ snd y). split.
      * exists d. cbn [fst snd]. split; [exact E|].
        split; [apply chI_iff; exact Hd | reflexivity].
      * apply IH. exists name'. cbn [fst snd].
        split; [exact Hrest|]. split; [reflexivity|].
        rewrite Hf. change (d :: name') with ([d] ++ name').
        rewrite lastOr_app. reflexivity.
Qed.

Lemma tagName_match x y :
  Match false
    (alts [wordI "div"; wordI "span"; wordI "br"; wordI "img";
           wordI "a"; wordI "p";
           Seq (chI (cu "h")) (Chr (inRange (cu "1") (cu "6")));
           wordI "ul"; wordI "ol"; wordI "li"; wordI "code"; wordI "pre"])
    x y
  <-> exists name, tagName name /\ snd x = name ++ snd y
                   /\ fst y = lastOr (fst x) name.
Proof.
  rewrite Match_alts. unfold tagName. split.
  - intros (r' & Hin & H). cbn [In] in Hin.
    repeat (destruct Hin as [<- | Hin];
            [first
               [ apply Match_charsI in H;
                 destruct H as (name & Hn & E & Hf);
                 exists name; split; [|split; assumption];
                 left; eexists; split; [|exact Hn]; cbn; tauto
               | idtac ]|]); [|contradiction].
    apply Match_seq in H.
    destruct H as (z & (h & Eh & Hh & Hfh) & (d & Ed & Hd & Hfd)).
    apply chI_iff in Hh. exists [h; d].
    split; [|split; [rewrite Eh, Ed; reflexivity | exact Hfd]].
    right. exists h, d. split; [reflexivity|]. split; [exact Hh | exact Hd].
  - intros (name & [(w & Hw & Hn) | (h & d & -> & Hh & Hd)] & E & Hf).
    + exists (wordI w). split.
      * cbn [htmlNames In] in Hw.
        repeat (destruct Hw as [<- | Hw]; [cbn [In]; tauto|]).
        contradiction.
      * apply Match_charsI. exists name. repeat split; assumption.
    + exists (Seq (chI (cu "h")) (Chr (inRange (cu "1") (cu "6")))). split.
      * cbn [In]. tauto.
      * apply Match_seq. exists (Some h, d :: snd y). split.
        -- exists h. split; [exact E|].
           split; [apply chI_iff; exact Hh | reflexivity].
        -- exists d. cbn [fst snd]. repeat split; assumption.
Qed.

Lemma html_iff raw : mdTest "html" raw = true <-> htmlTagShape raw.
Proof.
  change (mdTest "html" raw)
    with (test (re_i (cat [ch "<"; opt (ch "/");
                alts [wordI "div"; wordI "span"; wordI "br"; wordI "img";
                      wordI "a"; wordI "p";
                      Seq (chI (cu "h")) (Chr (inRange (cu "1") (cu "6")));
                      wordI "ul"; wordI "ol"; wordI "li"; wordI "code";
                      wordI "pre"];
                star (noneOf ">"); ch ">"])) raw).
  rewrite test_correct by reflexivity. unfold Found, htmlTagShape.
  cbn [source multiline re_i]. unfold cat. cbn [fold_right]. split.
  - intros (a & w & y & E & H).
    apply Match_seq in H. destruct H as (z1 & (c1 & E1 & H1 & _) & H).
    apply Match_seq in H. destruct H as (z2 & H2 & H).
    apply Match_seq in H. destruct H as (z3 & H3 & H).
    apply Match_seq in H. destruct H as (z4 & H4 & H).
    apply Match_seq in H. destruct H as (z5 & (c5 & E5 & H5 & _) & _).
    apply tagName_match in H3. destruct H3 as (name & Hn & E3 & _).
    unfold star, noneOf in H4.
    apply Match_star_chr in H4. destruct H4 as (attrs & E4 & Pa & _).
    apply (noneOf_one ">") in Pa.
    apply N.eqb_eq in H1, H5. subst c1 c5. cbn [snd] in E1.
    assert (Hs : exists slash, snd z1 = slash ++ snd z2
                               /\ (slash = [] \/ slash = [cu "/"])).
    { destruct H2 as [(c2 & E2 & H2 & _) | H2].
      - apply N.eqb_eq in H2. subst c2. exists [cu "/"].
        split; [exact E2 | right; reflexivity].
      - cbn [Match] in H2. subst z2. exists []. split; [reflexivity|].
        left. reflexivity. }
    destruct Hs as (slash & E2 & Hs).
    exists a, slash, name, attrs, (snd z5).
    split; [rewrite E, E1, E2, E3, E4, E5; reflexivity|].
    repeat split; assumption.
  - intros (a & slash & name & attrs & rest & -> & Hs & Hn & Pa).
    apply (noneOf_one ">") in Pa.
    eexists a, _, (Some (cu ">"), rest). split; [reflexivity|].
    apply Match_seq. eexists. split; [apply Match_chr_intro; reflexivity|].
    apply Match_seq.
    exists (lastOr (Some (cu "<")) slash, name ++ attrs ++ cu ">" :: rest).
    split.
    { destruct Hs as [-> | ->].
      - right. reflexivity.
      - left. apply Match_chr_intro. reflexivity. }
    apply Match_seq.
    exists (lastOr (lastOr (Some (cu "<")) slash) name,
            attrs ++ cu ">" :: rest).
    split.
    { apply tagName_match. exists name. cbn [fst snd].
      repeat split. exact Hn. }
    apply Match_seq. eexists. split.
    { apply Match_star_chr_intro. exact Pa. }
    apply Match_seq. eexists. split; [apply Match_chr_intro; reflexivity|].
    reflexivity.
Qed.

(** *** From the patterns to the reasons of the result *)

Lemma inked_normalize text : inked (normalize text) -> trim text <> [].
Proof.
  intros (c & Hc & Hs) Hb. apply trim_nil_iff in Hb.
  assert (E : existsb (fun c => negb (isSpace c)) (normalize text) = true).
  { apply existsb_exists. exists c. split; [exact Hc|]. rewrite Hs.
    reflexivity. }
  rewrite existsb_normalize in E by reflexivity.
  apply existsb_exists in E. destruct E as (d & Hd & Hn).
  rewrite forallb_forall in Hb. rewrite (Hb d Hd) in Hn. discriminate Hn.
Qed.

Lemma inked_at (a b : str) c : isSpace c = false -> inked (a ++ c :: b).
Proof. intros H. exists c. split; [apply in_elt | exact H]. Qed.

Lemma inked_app_r (a b : str) : inked b -> inked (a ++ b).
Proof.
  intros (c & Hc & Hs). exists c. split; [|exact Hs].
  apply in_or_app. right. exact Hc.
Qed.

Lemma inked_app_l (a b : str) : inked a -> inked (a ++ b).
Proof.
  intros (c & Hc & Hs). exists c. split; [|exact Hs].
  apply in_or_app. left. exact Hc.
Qed.

Lemma inked_repeat c k :
  isSpace c = false -> (1 <= k)%nat -> inked (repeat c k).
Proof.
  intros Hs Hk. destruct k as [|k]; [lia|].
  exists c. split; [left; reflexivity | exact Hs].
Qed.

Lemma reason_iff_shape (name : string) (shape : str -> Prop) text st :
  In name catalogOrder ->
  (forall raw, mdTest name raw = true <-> shape raw) ->
  (forall raw, shape raw -> inked raw) ->
  (In name (Reasons.markdown
              (Result.reasons (fst (detectTextFormat (VString text) st))))
   <-> shape (normalize text)).
Proof.
  intros Hname Htest Hink.
  rewrite (detectTextFormat_pure _ st). cbn [fst valueOf].
  destruct (trim text) as [|c t] eqn:E.
  - cbn [emptyResult Result.reasons Reasons.markdown In].
    split; [contradiction|]. intros H.
    apply Hink, inked_normalize in H. exact (H E).
  - unfold resultOf. cbn [Result.reasons Reasons.markdown].
    rewrite markdownValue_reasons, filter_In, Htest. tauto.
Qed.

Lemma block_shapes_inked raw :
  (headingShape raw -> inked raw) /\ (listShape raw -> inked raw)
  /\ (quoteShape raw -> inked raw) /\ (setextShape raw -> inked raw)
  /\ (tableRowShape raw -> inked raw) /\ (hrShape raw -> inked raw)
  /\ (frontMatterShape raw -> inked raw).
Proof.
  repeat split.
  - intros (a & k & ws & c & rest & -> & _ & _ & _ & _ & H).
    apply inked_app_r, inked_app_r, inked_app_r.
    exact (inked_at [] rest c H).
  - intros (a & ind & marker & c & rest & -> & _ & _ & _ & _
            & [(m & -> & Hm) | (ds & -> & _)]).
    + apply inked_app_r, inked_app_r, inked_app_l.
      exists m. split; [left; reflexivity|].
      cbn in Hm. destruct Hm as [<- | [<- | [<- | []]]]; reflexivity.
    + apply inked_app_r, inked_app_r, inked_app_l.
      apply inked_at. reflexivity.
  - intros (a & c & rest & -> & _). apply inked_at. reflexivity.
  - intros (a & title & bar & ws & rest & -> & _ & _ & _ & Nb & Hbar & _).
    apply inked_app_r, inked_app_r.
    apply (inked_app_r [LF]). apply inked_app_l.
    destruct bar as [|m bar]; [elim Nb; reflexivity|].
    exists m. split; [left; reflexivity|].
    destruct Hbar as [Hbar | Hbar]; cbn in Hbar; injection Hbar as -> _;
      reflexivity.
  - intros (a & pre & cell & c & rest & -> & _).
    apply inked_app_r, inked_app_r. apply inked_at. reflexivity.
  - intros (a & m & segs & rest & -> & _ & _ & Hm & Hl & Hs).
    apply inked_app_r, inked_app_l.
    destruct segs as [|s segs]; [cbn in Hl; lia|].
    inversion Hs as [|? ? Hu _]; subst. cbn [concat]. apply inked_app_l.
    exists m. split.
    + destruct Hu as [-> | (c & -> & _)]; left; reflexivity.
    + cbn in Hm. destruct Hm as [<- | [<- | [<- | []]]]; reflexivity.
  - intros (a & body & rest & -> & _).
    apply inked_app_r. exists (cu "-"). split; [left; reflexivity|].
    reflexivity.
Qed.

Lemma inline_shapes_inked raw :
  (linkShape raw -> inked raw) /\ (imageShape raw -> inked raw)
  /\ (inlineCodeShape raw -> inked raw) /\ (emphasisShape raw -> inked raw)
  /\ (htmlTagShape raw -> inked raw).
Proof.
  repeat split.
  - intros (a & txt & url & rest & -> & _). apply inked_at. reflexivity.
  - intros (a & alt & url & rest & -> & _). apply inked_at. reflexivity.
  - intros (a & code & rest & -> & _). apply inked_at. reflexivity.
  - intros (a & j & body & k & rest & -> & _ & Hj & _).
    apply inked_app_r, inked_app_l. apply inked_repeat; [reflexivity | lia].
  - intros (a & slash & name & attrs & rest & -> & _).
    apply inked_at. reflexivity.
Qed.

(** X14: the seven markdown reasons that a line carries.  On every text
    the result lists [heading], [list], [blockquote], [setext], [tableRow],
    [hr] and [frontMatter] exactly when the text, its line endings made
    line feeds, has the shape of that name. *)
Theorem markdown_block_reasons (text : str) (st : Store) :
  let raw := normalize text in
  let rs := Reasons.markdown
              (Result.reasons (fst (detectTextFormat (VString text) st))) in
  (In "heading" rs <-> headingShape raw)
  /\ (In "list" rs <-> listShape raw)
  /\ (In "blockquote" rs <-> quoteShape raw)
  /\ (In "setext" rs <-> setextShape raw)
  /\ (In "tableRow" rs <-> tableRowShape raw)
  /\ (In "hr" rs <-> hrShape raw)
  /\ (In "frontMatter" rs <-> frontMatterShape raw).
Proof.
  cbv zeta.
  split.
  { apply reason_iff_shape;
      [cbn; tauto | apply heading_iff | intros raw; apply block_shapes_inked]. }
  split.
  { apply reason_iff_shape;
      [cbn; tauto | apply list_iff | intros raw; apply block_shapes_inked]. }
  split.
  { apply reason_iff_shape;
      [cbn; tauto | apply quote_iff | intros raw; apply block_shapes_inked]. }
  split.
  { apply reason_iff_shape;
      [cbn; tauto | apply setext_iff | intros raw; apply block_shapes_inked]. }
  split.
  { apply reason_iff_shape;
      [cbn; tauto | apply tableRow_iff | intros raw; apply block_shapes_inked]. }
  split.
  { apply reason_iff_shape;
      [cbn; tauto | apply hr_iff | intros raw; apply block_shapes_inked]. }
  apply reason_iff_shape;
    [cbn; tauto | apply frontMatter_iff | intros raw; apply block_shapes_inked].
Qed.

(** X15: the five markdown reasons found inside a line.  On every text
    the result lists [link], [image], [inlineCode], [emphasis] and [html]
    exactly when the text, its line endings made line feeds, has the shape
    of that name. *)
Theorem markdown_inline_reasons (text : str) (st : Store) :
  let raw := normalize text in
  let rs := Reasons.markdown
              (Result.reasons (fst (detectTextFormat (VString text) st))) in
  (In "link" rs <-> linkShape raw)
  /\ (In "image" rs <-> imageShape raw)
  /\ (In "inlineCode" rs <-> inlineCodeShape raw)
  /\ (In "emphasis" rs <-> emphasisShape raw)
  /\ (In "html" rs <-> htmlTagShape raw).
Proof.
  cbv zeta.
  split.
  { apply reason_iff_shape;
      [cbn; tauto | apply link_iff | intros raw; apply inline_shapes_inked]. }
  split.
  { apply reason_iff_shape;
      [cbn; tauto | apply image_iff | intros raw; apply inline_shapes_inked]. }
  split.
  { apply reason_iff_shape;
      [cbn; tauto | apply inlineCode_iff
      | intros raw; apply inline_shapes_inked]. }
  split.
  { apply reason_iff_shape;
      [cbn; tauto | apply emphasis_iff
      | intros raw; apply inline_shapes_inked]. }
  apply reason_iff_shape;
    [cbn; tauto | apply html_iff | intros raw; apply inline_shapes_inked].
Qed.

Lemma markdown_block_reasons_aux text st :
  let raw := normalize text in
  let rs := Reasons.markdown
              (Result.reasons (fst (detectTextFormat (VString text) st))) in
  (hrShape raw -> In "hr" rs) /\ (In "frontMatter" rs -> frontMatterShape raw).
Proof.
  cbv zeta. split.
  - apply reason_iff_shape;
      [cbn; tauto | apply hr_iff | intros raw; apply block_shapes_inked].
  - apply reason_iff_shape;
      [cbn; tauto | apply frontMatter_iff
      | intros raw; apply block_shapes_inked].
Qed.

Lemma markdown_inline_reasons_aux text st :
  let raw := normalize text in
  let rs := Reasons.markdown
              (Result.reasons (fst (detectTextFormat (VString text) st))) in
  (linkShape raw -> In "link" rs) /\ (imageShape raw -> In "image" rs).
Proof.
  cbv zeta. split.
  - apply reason_iff_shape;
      [cbn; tauto | apply link_iff | intros raw; apply inline_shapes_inked].
  - apply reason_iff_shape;
      [cbn; tauto | apply image_iff | intros raw; apply inline_shapes_inked].
Qed.

(** X16: reasons that come together.  A text with front matter is also
    given the reason [hr], for the line [---] that opens the front matter
    is a rule; and an image with a text between its square brackets is
    also given the reason [link]. *)
Theorem reasons_that_come_together (text : str) (st : Store) :
  let raw := normalize text in
  let rs := Reasons.markdown
              (Result.reasons (fst (detectTextFormat (VString text) st))) in
  (In "frontMatter" rs -> In "hr" rs)
  /\ (forall a alt url rest,
        raw = a ++ lit "![" ++ alt ++ lit "](" ++ url ++ lit ")" ++ rest ->
        alt <> [] -> ~ In (cu "]") alt ->
        url <> [] -> ~ In (cu ")") url ->
        In "image" rs /\ In "link" rs).
Proof.
  cbv zeta.
  destruct (markdown_block_reasons_aux text st) as (Hhr & Hfm).
  destruct (markdown_inline_reasons_aux text st) as (Hlink & Himg).
  split.
  - intros H. apply Hhr. apply Hfm in H.
    destruct H as (a & body & rest & E & Ha).
    exists a, (cu "-"), [[cu "-"]; [cu "-"]; [cu "-"]],
      (LF :: body ++ [LF] ++ lit "---" ++ [LF] ++ rest).
    split; [exact E|]. split; [exact Ha|].
    split; [right; eexists _, _; split; reflexivity|].
    split; [left; reflexivity|]. split; [cbn; lia|].
    repeat constructor.
  - intros a alt url rest E Na Pa Nu Pu. split.
    + apply Himg. exists a, alt, url, rest. repeat split; assumption.
    + apply Hlink. exists (a ++ [cu "!"]), alt, url, rest.
      split; [rewrite E, <- app_assoc; reflexivity|].
      repeat split; assumption.
Qed.

Lemma reasons_that_come_together_witness :
  let text := lit "![a](b)" in
  In "image" (Reasons.markdown
                (Result.reasons
                   (fst (detectTextFormat (VString text) freshStore))))
  /\ In "link" (Reasons.markdown
                  (Result.reasons
                     (fst (detectTextFormat (VString text) freshStore)))).
Proof.
  cbv zeta.
  apply (proj2 (reasons_that_come_together (lit "![a](b)") freshStore)
           [] (lit "a") (lit "b") []).
  - reflexivity.
  - discriminate.
  - intros [H | []]. discriminate H.
  - discriminate.
  - intros [H | []]. discriminate H.
Defined.

(* ================================================================== *)
(** ** The statistics of the result *)

Lemma count_app {A} (p : A -> bool) (a b : list A) :
  count p (a ++ b) = (count p a + count p b)%nat.
Proof. unfold count. rewrite filter_app, length_app. reflexivity. Qed.

(** A count over the elements of the string iterator is a count over the
    code units, when a surrogate pair and its two halves are not counted. *)
Lemma codePoints_count (p : char -> bool) (q : str -> bool) :
  (forall c : char, q [c] = p c) ->
  (forall h l : char, inRange 55296 56319 h = true ->
               inRange 56320 57343 l = true ->
               q [h; l] = false /\ p h = false /\ p l = false) ->
  forall n s, (List.length s <= n)%nat ->
    count q (codePoints s) = count p s.
Proof.
  intros H1 H2. unfold count.
  induction n as [|n IH]; intros s Hn.
  - destruct s; [reflexivity | cbn in Hn; lia].
  - destruct s as [|h t]; [reflexivity|].
    destruct t as [|l t'].
    + cbn [codePoints filter]. rewrite H1. destruct (p h); reflexivity.
    + assert (IHt := IH (l :: t') ltac:(cbn in Hn |- *; lia)).
      assert (IHt' := IH t' ltac:(cbn in Hn |- *; lia)).
      change (codePoints (h :: l :: t'))
        with (if inRange 55296 56319 h && inRange 56320 57343 l
              then [h; l] :: codePoints t'
              else [h] :: codePoints (l :: t')).
      remember (l :: t') as t eqn:Et.
      destruct (inRange 55296 56319 h && inRange 56320 57343 l) eqn:E.
      * apply andb_true_iff in E. destruct E as [Eh El].
        destruct (H2 h l Eh El) as (Hq & Hh & Hl).
        cbn [filter]. rewrite Hq, Hh. rewrite Et. cbn [filter].
        rewrite Hl. exact IHt'.
      * cbn [filter]. rewrite H1.
        destruct (p h); cbn [List.length]; rewrite IHt; reflexivity.
Qed.

Lemma surrogate_not_alnum c :
  inRange 55296 57343 c = true -> isAlnum c = false.
Proof.
  unfold isAlnum, isDigit, inRange.
  intros H; apply andb_true_iff in H; destruct H as [H1 H2];
    apply N.leb_le in H1, H2;
    repeat match goal with
           | |- context [(?a <=? ?b)%N] => destruct (N.leb_spec a b)
           end; cbn; try reflexivity; lia.
Qed.

Lemma surrogate_not_symbol c :
  inRange 55296 57343 c = true -> has LINE_SYMBOL_CHARS c = false.
Proof.
  assert (H : forall x, In x LINE_SYMBOL_CHARS -> (x < 55296)%N).
  { intros x Hx. cbn in Hx.
    repeat (destruct Hx as [<- | Hx]; [reflexivity|]). contradiction. }
  unfold inRange. intros Hr. apply andb_true_iff in Hr.
  destruct Hr as [H1 H2]. apply N.leb_le in H1, H2.
  destruct (has LINE_SYMBOL_CHARS c) eqn:E; [|reflexivity].
  apply has_In, H in E. lia.
Qed.

Lemma surrogate_halves h l :
  inRange 55296 56319 h = true -> inRange 56320 57343 l = true ->
  inRange 55296 57343 h = true /\ inRange 55296 57343 l = true.
Proof.
  unfold inRange. intros Hh Hl.
  apply andb_true_iff in Hh, Hl. destruct Hh as [H1 H2], Hl as [H3 H4].
  apply N.leb_le in H1, H2, H3, H4.
  split; apply andb_true_iff; split; apply N.leb_le; lia.
Qed.

Lemma alnum_per_unit line :
  count (test (re (Chr isAlnum))) (codePoints line) = count isAlnum line.
Proof.
  apply (codePoints_count isAlnum _) with (n := List.length line);
    [| |apply Nat.le_refl].
  - intros c. rewrite test_chr. cbn. apply orb_false_r.
  - intros h l Hh Hl. destruct (surrogate_halves h l Hh Hl) as [Sh Sl].
    apply surrogate_not_alnum in Sh, Sl.
    rewrite test_chr. cbn [existsb]. rewrite Sh, Sl. repeat split.
Qed.

Lemma eqb_single (cp : str) (x : char) :
  Str.eqb cp [x] = match cp with [c] => N.eqb c x | _ => false end.
Proof.
  destruct cp as [|c [|d r]]; cbn [Str.eqb]; try reflexivity.
  - rewrite andb_true_r. reflexivity.
  - destruct (N.eqb c x); reflexivity.
Qed.

Lemma symbol_per_unit line :
  count isSymbol (codePoints line) = count (has LINE_SYMBOL_CHARS) line.
Proof.
  apply (codePoints_count (has LINE_SYMBOL_CHARS) _)
    with (n := List.length line); [| |apply Nat.le_refl].
  - intros c. unfold isSymbol, has. apply existsb_same.
    intros x. rewrite eqb_single. reflexivity.
  - intros h l Hh Hl. destruct (surrogate_halves h l Hh Hl) as [Sh Sl].
    apply surrogate_not_symbol in Sh, Sl.
    split; [|split; assumption].
    unfold isSymbol. apply not_true_is_false. intros H.
    apply existsb_exists in H. destruct H as (x & _ & H).
    rewrite eqb_single in H. discriminate H.
Qed.

Lemma lineCounts_units ls : forall c,
  let r := fold_left lineStep ls c in
  total r = (total c + List.length (concat ls))%nat
  /\ alnum r = (alnum c + count isAlnum (concat ls))%nat
  /\ sym r = (sym c + count (has LINE_SYMBOL_CHARS) (concat ls))%nat.
Proof.
  induction ls as [|l ls IH]; intros c; cbn zeta; cbn [fold_left concat].
  - cbn. repeat split; lia.
  - destruct (IH (lineStep c l)) as (Ht & Ha & Hs).
    rewrite Ht, Ha, Hs. unfold lineStep; cbn [total alnum sym].
    rewrite alnum_per_unit, symbol_per_unit, length_app, !count_app.
    repeat split; lia.
Qed.

Lemma lengths_sum (ls : list str) : forall k,
  fold_left Nat.add (map (@List.length char) ls) k
  = (k + List.length (concat ls))%nat.
Proof.
  induction ls as [|l ls IH]; intros k; cbn [map fold_left concat].
  - cbn. lia.
  - rewrite IH, length_app. lia.
Qed.

Lemma concat_lines (ls : list str) (p : char -> bool) :
  p LF = false ->
  count p (concat (map (fun l => LF :: l) ls)) = count p (concat ls)
  /\ List.length (concat (map (fun l => LF :: l) ls))
     = (List.length ls + List.length (concat ls))%nat.
Proof.
  intros Hp. induction ls as [|l ls [IHc IHl]]; [split; reflexivity|].
  cbn [map concat List.length].
  change ((LF :: l) ++ concat (map (fun l0 => LF :: l0) ls))
    with ([LF] ++ l ++ concat (map (fun l0 => LF :: l0) ls)).
  rewrite !count_app, !length_app, IHc, IHl. unfold count at 1.
  cbn [filter]. rewrite Hp. cbn [List.length]. split; lia.
Qed.

(** The lines without their line feeds: the counts over them are counts
    over the text. *)
Lemma split_nl_units raw (p : char -> bool) :
  p LF = false ->
  count p (concat (split_nl raw)) = count p raw
  /\ List.length (concat (split_nl raw))
     = (List.length raw - lineFeeds raw)%nat.
Proof.
  intros Hp. destruct (concat_lines (split_nl raw) p Hp) as [Hc Hl].
  unfold split_nl in *. rewrite (splitOn_join raw []) in Hc, Hl.
  cbn [rev app] in Hc, Hl. split.
  - rewrite <- Hc. unfold count. cbn [filter]. rewrite Hp. reflexivity.
  - rewrite splitOn_length in Hl. cbn [List.length] in Hl. lia.
Qed.

(** X17: the statistics of a text of at least three lines.  [lines] is
    one more than the number of line feeds of the text with its line
    endings unified; [mean] is the number of code units other than line
    feeds by the number of lines; [symD] and [alpha] are the shares of the
    symbol characters and of the ASCII letters and digits among the code
    units other than line feeds, counted by code unit; and three reasons
    are read off the statistics: [consistent_width], when the mean is at
    least 20 and the deviation at most 0.22 of it,
    [symbol_heavy_low_alpha], when [symD] is at least 0.18 and [alpha] at
    most 0.55, and [very_text_heavy], when [alpha] exceeds 0.75. *)
Theorem stats_are_shares (text : str) (st : Store) :
  let raw := normalize text in
  let n := S (lineFeeds raw) in
  let units := (List.length raw - lineFeeds raw)%nat in
  let share k :=
    if Nat.eqb units 0 then 0 else Num.ofNat k / Num.ofNat units in
  let r := fst (detectTextFormat (VString text) st) in
  let rs := Reasons.ascii (Result.reasons r) in
  trim text <> [] -> (3 <= n)%nat ->
  exists s,
    Result.stats r = Some s
    /\ lines s = n
    /\ mean s = Num.orZero (Num.ofNat units / Num.ofNat n)
    /\ symD s = share (count (has LINE_SYMBOL_CHARS) raw)
    /\ alpha s = share (count isAlnum raw)
    /\ (In "consistent_width" rs
        <-> (20 <=? mean s) && (std s / Num.max 1 (mean s) <=? 0.22) = true)
    /\ (In "symbol_heavy_low_alpha" rs
        <-> (0.18 <=? symD s) && (alpha s <=? 0.55) = true)
    /\ (In "very_text_heavy" rs <-> (0.75 <? alpha s) = true).
Proof.
  cbv zeta. intros Hb Hn. rewrite (detect_not_blank text st Hb).
  unfold resultOf. cbn [Result.stats Result.reasons Reasons.ascii].
  rewrite <- split_nl_length in Hn |- *.
  unfold asciiArtValue.
  destruct (List.length (split_nl (normalize text)) <? 3)%nat eqn:E;
    [apply Nat.ltb_lt in E; lia|].
  unfold asciiFinish. cbn [AScore.stats AScore.reasons].
  eexists. split; [reflexivity|]. cbn [lines mean std symD alpha].
  set (raw := normalize text) in *.
  destruct (lineCounts_units (split_nl raw) noCounts) as (Ht & Ha & Hs).
  cbn [noCounts total alnum sym Nat.add] in Ht, Ha, Hs.
  fold (lineCounts (split_nl raw)) in Ht, Ha, Hs.
  destruct (split_nl_units raw isAlnum eq_refl) as [Ca Hl].
  destruct (split_nl_units raw (has LINE_SYMBOL_CHARS) eq_refl) as [Cs _].
  rewrite Ht, Ha, Hs, Ca, Cs, Hl.
  split; [reflexivity|].
  split.
  { unfold meanOf. rewrite lengths_sum, length_map, Hl. reflexivity. }
  split; [reflexivity|]. split; [reflexivity|].
  rewrite asciiAccum_reasons, !In_selected. cbn [asciiTags combine In].
  repeat split; intros H;
    repeat (destruct H as [H | H]; [try discriminate H|]);
    try contradiction;
    first [ injection H; intros; congruence | rewrite H; tauto ].
Qed.

Lemma stats_are_shares_witness :
  let text := lit "ab" ++ [LF] ++ lit "--" ++ [LF] ++ lit "c1" in
  trim text <> []
  /\ (3 <= S (lineFeeds (normalize text)))%nat
  /\ exists s,
       Result.stats (fst (detectTextFormat (VString text) freshStore))
       = Some s
       /\ lines s = 3%nat.
Proof.
  cbv zeta.
  assert (Hb : trim (lit "ab" ++ [LF] ++ lit "--" ++ [LF] ++ lit "c1") <> [])
    by (vm_compute; discriminate).
  assert (Hn : (3 <= S (lineFeeds (normalize
                  (lit "ab" ++ [LF] ++ lit "--" ++ [LF] ++ lit "c1"))))%nat)
    by (apply Nat.leb_le; reflexivity).
  split; [exact Hb|]. split; [exact Hn|].
  destruct (stats_are_shares _ freshStore Hb Hn) as (s & Hs & Hl & _).
  exists s. split; [exact Hs | exact Hl].
Defined.
